(** * New Relic NerdGraph export: a shallow embedding of [script.py]

    The script fetches alert policies, NRQL conditions, workflows, channels
    and destinations from a GraphQL endpoint, joins them in memory and
    writes the joined tables as CSV files.  This development embeds the
    script's functions and proves the properties its specification states
    about the joins, the pagination loops, the API client and the tabular
    writer. *)

From Stdlib Require Import ZArith Ascii DecimalString.
From stdpp Require Import base option list gmap strings.

Set Warnings "-register-all".
Local Open Scope Z_scope.

(** ** Python values *)

(** The JSON scalars and lists that travel through the script.  A float is
    carried by its [repr] text: the only operation the script applies to one
    is [str()]. *)
Inductive pyval : Type :=
| PNone
| PBool (b : bool)
| PInt (n : Z)
| PFloat (repr : string)
| PStr (s : string)
| PList (l : list pyval).

(** Characters the CSV dialect and the text layer distinguish. *)
Definition LF : ascii := "010"%char.
Definition CR : ascii := "013"%char.
Definition DQUOTE : ascii := "034"%char.
Definition COMMA : ascii := ","%char.

Definition CRLF : string := String CR (String LF "").

(** [sep.join(l)] *)
Fixpoint py_join (sep : string) (l : list string) : string :=
  match l with
  | [] => ""
  | [s] => s
  | s :: l' => s +:+ sep +:+ py_join sep l'
  end.

(** [s.startswith(prefix)] *)
Fixpoint startswith (prefix s : string) : bool :=
  match prefix, s with
  | "", _ => true
  | String a p', String b s' => bool_decide (a = b) && startswith p' s'
  | String _ _, "" => false
  end.

(** [s.split(sep)] for a non-empty [sep]: the text is scanned left to right,
    every occurrence of [sep] that starts outside a previous occurrence cuts
    a piece, and the remainder is the last piece.  [skip] counts the
    characters of a separator still to be passed over; [cur] holds the
    current piece reversed. *)
Fixpoint split_go (sep : string) (skip : nat) (cur : string) (s : string)
  : list string :=
  match s with
  | "" => [String.rev cur]
  | String c s' =>
      match skip with
      | S k => split_go sep k cur s'
      | O =>
          if startswith sep s
          then String.rev cur :: split_go sep (Nat.pred (String.length sep)) "" s'
          else split_go sep O (String c cur) s'
      end
  end.

Definition py_split (sep s : string) : list string := split_go sep O "" s.

(** ** Exceptions and results *)

Inductive exn : Type :=
| RequestException            (* the transport failed: no response at all *)
| HTTPError (status : Z)      (* [raise_for_status] on a 4xx or 5xx *)
| JSONDecodeError             (* [response.json()] on a body that is not JSON *)
| KeyError (key : string)
| TypeError
| AttributeError
| IndexError
| ValueError
| FileNotFoundError (filename : string)
| csv_Error.

(** Outcome of running a piece of the script.  [Timeout] is not a Python
    outcome: it says that a [while True] loop was still running when the
    fuel given to the model ran out. *)
Inductive result (A : Type) : Type :=
| Ok (a : A)
| Raise (e : exn)
| Timeout.
Arguments Ok {A} a.
Arguments Raise {A} e.
Arguments Timeout {A}.

Global Instance result_ret : MRet result := @Ok.
Global Instance result_bind : MBind result := λ A B f r,
  match r with
  | Ok a => f a
  | Raise e => Raise e
  | Timeout => Timeout
  end.
Global Instance result_fmap : FMap result := λ A B f r,
  match r with
  | Ok a => Ok (f a)
  | Raise e => Raise e
  | Timeout => Timeout
  end.

(** A [for] loop whose body may raise: the accumulator is threaded through
    the iterations and the first exception ends the loop. *)
Fixpoint for_each {A X : Type} (body : A → X → result A) (acc : A) (l : list X)
  : result A :=
  match l with
  | [] => Ok acc
  | x :: l' => acc' ← body acc x; for_each body acc' l'
  end.

(** ** Dictionaries *)

(** A dict whose key order matters (it becomes the CSV header) is a list of
    key/value pairs in insertion order. *)
Abbreviation dict V := (list (string * V)).

Fixpoint dict_get {V : Type} (k : string) (d : dict V) : option V :=
  match d with
  | [] => None
  | (k', v) :: d' => if decide (k' = k) then Some v else dict_get k d'
  end.

Definition dict_keys {V : Type} (d : dict V) : list string := d.*1.

(** [d[k]] *)
Definition getitem {V : Type} (k : string) (d : dict V) : result V :=
  match dict_get k d with
  | Some v => Ok v
  | None => Raise (KeyError k)
  end.

(** [d[k] = v]: an existing key keeps its position. *)
Fixpoint dict_set {V : Type} (k : string) (v : V) (d : dict V) : dict V :=
  match d with
  | [] => [(k, v)]
  | (k', v') :: d' =>
      if decide (k' = k) then (k, v) :: d' else (k', v') :: dict_set k v d'
  end.

(** ** Entities returned by the API

    The field selections of the GraphQL documents fix the shape of every
    entity.  Identifiers ([ID] in the schema) and the strings the script
    compares or joins are [string]s; fields the script only copies into a row
    are arbitrary values. *)

Module Policy.
Record t := { id : string; name : pyval; incidentPreference : pyval }.
End Policy.

Module Term.
Record t := {
    operator : pyval;
    priority : pyval;
    threshold : pyval;
    thresholdDuration : pyval;
    thresholdOccurrences : pyval }.
End Term.

Module NrqlCondition.
Record t := {
    policyId : string;
    id : string;
    type : pyval;
    name : pyval;
    nrql_query : pyval;               (* condition["nrql"]["query"] *)
    terms : list Term.t }.
End NrqlCondition.

Module DestinationConfiguration.
Record t := {
    channelId : string;
    name : pyval;
    notificationTriggers : pyval;
    type : pyval;
    updateOriginalMessage : pyval }.
End DestinationConfiguration.

Module Predicate.
Record t := { attribute : string; operator : pyval; values : list string }.
End Predicate.

Module IssuesFilter.
Record t := { predicates : list Predicate.t }.
End IssuesFilter.

Module Workflow.
Record t := {
    id : string;
    name : pyval;
    destinationConfigurations : list DestinationConfiguration.t;
    issuesFilter : option IssuesFilter.t   (* [None]: key absent or null *) }.
End Workflow.

Module Channel.
Record t := {
    id : string;
    name : pyval;
    type : pyval;
    destinationId : string;
    product : pyval }.
End Channel.

Module Property.
Record t := { key : string; value : pyval }.
End Property.

Module Destination.
Record t := { properties : list Property.t; id : string; name : pyval }.
End Destination.

(** A row of Join Stage A.  The script keeps these rows in memory and reads
    them back by their six fixed keys only. *)
Module JoinedPolicyCondition.
Record t := {
    alert_policy_name : pyval;
    alert_policy_id : string;
    nrql_condition_id : string;
    alert_condition_name : pyval;
    nrql_query : pyval;
    nrql_condition : string }.
End JoinedPolicyCondition.

(** ** The csv module with the excel dialect

    [csv.DictWriter] and [csv.DictReader] are used with their defaults:
    delimiter [,], quote character [DQUOTE], [QUOTE_MINIMAL], doubled quotes,
    line terminator CR LF, no escape character, not strict. *)

Module csv.

Fixpoint string_exists (P : ascii → bool) (s : string) : bool :=
  match s with
  | "" => false
  | String c s' => P c || string_exists P s'
  end.

(** A character that makes the writer quote the field: the delimiter, the
    quote character, or a character of the line terminator. *)
Definition want_quote (c : ascii) : bool :=
  bool_decide (c = COMMA) || bool_decide (c = DQUOTE) ||
  bool_decide (c = CR) || bool_decide (c = LF).

Fixpoint double_quotes (s : string) : string :=
  match s with
  | "" => ""
  | String c s' =>
      if decide (c = DQUOTE)
      then String DQUOTE (String DQUOTE (double_quotes s'))
      else String c (double_quotes s')
  end.

(** One field as the writer appends it to the record. *)
Definition join_append (field : string) : string :=
  if string_exists want_quote field
  then String DQUOTE (double_quotes field +:+ String DQUOTE "")
  else field.

(** The record the writer builds from cells already turned into text: the
    fields joined by the delimiter, a record of one empty field written as
    two quotes. *)
Definition join_record (row : list string) : string :=
  let rec := py_join "," (join_append <$> row) in
  if bool_decide (row ≠ []) && bool_decide (rec = "")
  then String DQUOTE (String DQUOTE "")
  else rec.

(** [writer.writerow]: the record, then the line terminator. *)
Definition writerow (row : list string) : string :=
  join_record row +:+ CRLF.

(** The reader's automaton.  The three states that handle an escape character
    are left out: the dialect has none. *)
Inductive ParserState : Set :=
| START_RECORD
| START_FIELD
| IN_FIELD
| IN_QUOTED_FIELD
| QUOTE_IN_QUOTED_FIELD
| EAT_CRNL.

Global Instance ParserState_eq_dec : EqDecision ParserState.
Proof. solve_decision. Defined.

Record ReaderObj := {
  state : ParserState;
  fields : list string;      (* the fields of the record read so far *)
  field : string;            (* the field being read *)
  field_len : N }.

Definition field_limit : N := 131072.

Definition parse_reset : ReaderObj :=
  {| state := START_RECORD; fields := []; field := ""; field_len := 0 |}.

Definition set_state (st : ParserState) (self : ReaderObj) : ReaderObj :=
  {| state := st; fields := fields self; field := field self;
     field_len := field_len self |}.

Definition parse_save_field (self : ReaderObj) : ReaderObj :=
  {| state := state self; fields := fields self ++ [field self];
     field := ""; field_len := 0 |}.

Definition parse_add_char (self : ReaderObj) (c : ascii) : result ReaderObj :=
  if bool_decide (field_limit ≤ field_len self)%N then Raise csv_Error
  else Ok {| state := state self; fields := fields self;
             field := field self +:+ String c "";
             field_len := field_len self + 1 |}.

Definition is_newline (c : ascii) : bool :=
  bool_decide (c = LF) || bool_decide (c = CR).

(** What a field start does with a character. *)
Definition start_field (self : ReaderObj) (c : option ascii) : result ReaderObj :=
  match c with
  | None => Ok (set_state START_RECORD (parse_save_field self))
  | Some c =>
      if is_newline c then Ok (set_state EAT_CRNL (parse_save_field self))
      else if decide (c = DQUOTE) then Ok (set_state IN_QUOTED_FIELD self)
      else if decide (c = COMMA) then Ok (parse_save_field self)
      else set_state IN_FIELD <$> parse_add_char self c
  end.

(** One step of the automaton; [None] is the end of a line handed to the
    reader. *)
Definition parse_process_char (self : ReaderObj) (c : option ascii)
  : result ReaderObj :=
  match state self with
  | START_RECORD =>
      match c with
      | None => Ok self
      | Some ch =>
          if is_newline ch then Ok (set_state EAT_CRNL self)
          else start_field (set_state START_FIELD self) c
      end
  | START_FIELD => start_field self c
  | IN_FIELD =>
      match c with
      | None => Ok (set_state START_RECORD (parse_save_field self))
      | Some ch =>
          if is_newline ch then Ok (set_state EAT_CRNL (parse_save_field self))
          else if decide (ch = COMMA)
          then Ok (set_state START_FIELD (parse_save_field self))
          else parse_add_char self ch
      end
  | IN_QUOTED_FIELD =>
      match c with
      | None => Ok self
      | Some ch =>
          if decide (ch = DQUOTE) then Ok (set_state QUOTE_IN_QUOTED_FIELD self)
          else parse_add_char self ch
      end
  | QUOTE_IN_QUOTED_FIELD =>
      match c with
      | None => Ok (set_state START_RECORD (parse_save_field self))
      | Some ch =>
          if decide (ch = DQUOTE)
          then set_state IN_QUOTED_FIELD <$> parse_add_char self ch
          else if decide (ch = COMMA)
          then Ok (set_state START_FIELD (parse_save_field self))
          else if is_newline ch
          then Ok (set_state EAT_CRNL (parse_save_field self))
          else set_state IN_FIELD <$> parse_add_char self ch
      end
  | EAT_CRNL =>
      match c with
      | None => Ok (set_state START_RECORD self)
      | Some ch => if is_newline ch then Ok self else Raise csv_Error
      end
  end.

(** The characters of one line, then the end-of-line step. *)
Fixpoint parse_line (self : ReaderObj) (line : string) : result ReaderObj :=
  match line with
  | "" => parse_process_char self None
  | String c line' =>
      self' ← parse_process_char self (Some c); parse_line self' line'
  end.

(** The records the reader yields from the lines it is given.  A record ends
    with the first line that leaves the automaton in [START_RECORD]; at the
    end of the input, an open field or an open quote still yields a record. *)
Fixpoint reader_go (self : ReaderObj) (lines : list string)
  : result (list (list string)) :=
  match lines with
  | [] =>
      if bool_decide (field_len self ≠ 0%N) ||
         bool_decide (state self = IN_QUOTED_FIELD)
      then Ok [fields (parse_save_field self)]
      else Ok []
  | line :: lines' =>
      self' ← parse_line self line;
      if decide (state self' = START_RECORD)
      then rows ← reader_go parse_reset lines'; Ok (fields self' :: rows)
      else reader_go self' lines'
  end.

Definition reader (lines : list string) : result (list (list string)) :=
  reader_go parse_reset lines.

End csv.

(** ** Text files *)

(** Reading in text mode with the default [newline=None]: CR LF and a lone CR
    both arrive as LF.  [after_cr] tells that the previous character was a
    CR, already delivered as LF. *)
Fixpoint universal_newlines_go (after_cr : bool) (s : string) : string :=
  match s with
  | "" => ""
  | String c s' =>
      if decide (c = CR) then String LF (universal_newlines_go true s')
      else if decide (c = LF) then
        if after_cr then universal_newlines_go false s'
        else String LF (universal_newlines_go false s')
      else String c (universal_newlines_go false s')
  end.

Definition universal_newlines : string → string := universal_newlines_go false.

(** Iterating over a text file: the lines, each with its LF; the last one may
    lack it. *)
Fixpoint readlines_go (cur : string) (s : string) : list string :=
  match s with
  | "" => if decide (cur = "") then [] else [cur]
  | String c s' =>
      if decide (c = LF) then (cur +:+ String LF "") :: readlines_go "" s'
      else readlines_go (cur +:+ String c "") s'
  end.

Definition readlines : string → list string := readlines_go "".

(** ** The network and the file system *)

(** The five GraphQL documents the script sends. *)
Inductive Query : Set :=
| policiesSearch_query
| nrqlConditionsSearch_query
| workflows_query
| channels_query
| destinations_query.

(** The [variables] of a request; the destinations request has no cursor. *)
Record Variables := { accountId : Z; cursor : option string }.

(** The JSON payload of a POST.  Endpoint and headers are the same constants
    for every request. *)
Record Request := { query : Query; variables : Variables }.

(** A parsed response body, by the list found at the fixed path the script
    reads ([data.actor.account. ...]); [OtherJson] is any document without
    that path. *)
Inductive Body : Type :=
| PoliciesSearch (policies : list Policy.t) (nextCursor : option string)
| NrqlConditionsSearch (nrqlConditions : list NrqlCondition.t)
    (nextCursor : option string)
| Workflows (entities : list Workflow.t) (nextCursor : option string)
| Channels (entities : list Channel.t) (nextCursor : option string)
| Destinations (entities : list Destination.t)
| OtherJson.

(** An HTTP response: its status and what [response.json()] finds in its
    body, [None] when the body is not JSON. *)
Record Response := { status_code : Z; json : option Body }.

Inductive Reply : Type :=
| NoResponse                       (* connection or transport failure *)
| Responded (response : Response).

(** The endpoint: its reply to a request may depend on every request it has
    received before. *)
Definition Server : Type := list Request → Request → Reply.

Record World := {
  sent : list Request;             (* the requests posted so far, in order *)
  files : gmap string string       (* file name to content *) }.

(** A statement that reads or changes the world and may raise. *)
Definition IO (A : Type) : Type := World → result A * World.

Global Instance IO_ret : MRet IO := λ A a w, (Ok a, w).
Global Instance IO_bind : MBind IO := λ A B f m w,
  match m w with
  | (Ok a, w') => f a w'
  | (Raise e, w') => (Raise e, w')
  | (Timeout, w') => (Timeout, w')
  end.

(** A computation that touches nothing. *)
Definition lift {A : Type} (r : result A) : IO A := λ w, (r, w).

(** ** Text of a value *)

Section Script.

(** [repr] of a [str] is a builtin whose quoting and escaping rules are not
    part of the script; it only shows when a list is turned into text. *)
Variable repr_str : string → string.

Definition repr_scalar (str_list : list pyval → string) (v : pyval) : string :=
  match v with
  | PNone => "None"
  | PBool true => "True"
  | PBool false => "False"
  | PInt n => NilZero.string_of_int (Z.to_int n)
  | PFloat r => r
  | PStr s => repr_str s
  | PList l => str_list l
  end.

(** [repr(v)] *)
Fixpoint py_repr (v : pyval) : string :=
  repr_scalar (λ l, "[" +:+ py_join ", " (map py_repr l) +:+ "]") v.

(** [str(v)], which is also what an f-string substitutes for [{v}] *)
Definition py_str (v : pyval) : string :=
  match v with
  | PStr s => s
  | _ => py_repr v
  end.

(** ** Join Stage A: policies and NRQL conditions *)

(** [{policy["id"]: policy for policy in policies}]: a later policy with the
    same id replaces an earlier one. *)
Definition policy_dict_of (policies : list Policy.t) : gmap string Policy.t :=
  foldl (λ d policy, <[Policy.id policy := policy]> d) ∅ policies.

(** The f-string of one term. *)
Definition format_term (term : Term.t) : string :=
  "operator: " +:+ py_str (Term.operator term) +:+
  ", priority: " +:+ py_str (Term.priority term) +:+
  ", " +:+
  "threshold: " +:+ py_str (Term.threshold term) +:+
  ", duration: " +:+ py_str (Term.thresholdDuration term) +:+
  ", " +:+
  "occurrences: " +:+ py_str (Term.thresholdOccurrences term).

(** Lines 100-126 of [get_alert_policies_and_conditions]: the loop over the
    fetched conditions, [mapped_data] being the accumulator. *)
Definition map_policies_to_conditions
    (policies : list Policy.t) (nrql_conditions : list NrqlCondition.t)
  : list JoinedPolicyCondition.t :=
  let policy_dict := policy_dict_of policies in
  foldl (λ mapped_data condition,
      let policy_id := NrqlCondition.policyId condition in
      match policy_dict !! policy_id with
      | Some policy =>
          mapped_data ++ [
            {| JoinedPolicyCondition.alert_policy_name := Policy.name policy;
               JoinedPolicyCondition.alert_policy_id := Policy.id policy;
               JoinedPolicyCondition.nrql_condition_id := NrqlCondition.id condition;
               JoinedPolicyCondition.alert_condition_name := NrqlCondition.name condition;
               JoinedPolicyCondition.nrql_query := NrqlCondition.nrql_query condition;
               JoinedPolicyCondition.nrql_condition :=
                 py_join "; " (map format_term (NrqlCondition.terms condition)) |} ]
      | None => mapped_data
      end)
    [] nrql_conditions.

(** ** Join Stage B: workflows and policy conditions *)

Definition alert_policy_dict_of (alert_policies : list JoinedPolicyCondition.t)
  : gmap string JoinedPolicyCondition.t :=
  foldl (λ d policy, <[JoinedPolicyCondition.alert_policy_id policy := policy]> d)
    ∅ alert_policies.

(** The row appended for a value of a ["labels.policyIds"] predicate that is a
    key of the mapping. *)
Definition policy_id_row (workflow_name : pyval) (workflow_id : string)
    (destination_channel_ids : list string)
    (alert_policy : JoinedPolicyCondition.t) (policy_id : string)
    (predicate : Predicate.t) : dict pyval :=
  [ ("workflow_name", workflow_name);
    ("workflow_id", PStr workflow_id);
    ("destination_channel_ids", PStr (py_join ", " destination_channel_ids));
    ("alert_policy_name", JoinedPolicyCondition.alert_policy_name alert_policy);
    ("alert_policy_id", PStr (JoinedPolicyCondition.alert_policy_id alert_policy));
    ("nrql_condition_id", PStr (JoinedPolicyCondition.nrql_condition_id alert_policy));
    ("alert_condition_name", JoinedPolicyCondition.alert_condition_name alert_policy);
    ("nrql_query", JoinedPolicyCondition.nrql_query alert_policy);
    ("nrql_condition", PStr (JoinedPolicyCondition.nrql_condition alert_policy));
    ("attribute.accumulations.policyName", PNone);
    ("attribute.labels.policyIds", PStr policy_id);
    ("policy.operator", Predicate.operator predicate);
    ("policy.values", PList (PStr <$> Predicate.values predicate)) ].

(** The row appended for an ["accumulations.policyName"] predicate. *)
Definition policy_name_row (workflow_name : pyval) (workflow_id : string)
    (destination_channel_ids : list string) (predicate : Predicate.t)
  : dict pyval :=
  [ ("workflow_name", workflow_name);
    ("workflow_id", PStr workflow_id);
    ("destination_channel_ids", PStr (py_join ", " destination_channel_ids));
    ("alert_policy_name", PNone);
    ("alert_policy_id", PNone);
    ("nrql_condition_id", PNone);
    ("alert_condition_name", PNone);
    ("nrql_query", PNone);
    ("nrql_condition", PNone);
    ("attribute.accumulations.policyName", PList (PStr <$> Predicate.values predicate));
    ("attribute.labels.policyIds", PNone);
    ("policy.operator", Predicate.operator predicate);
    ("policy.values", PList (PStr <$> Predicate.values predicate)) ].

(** Body of [for predicate in workflow["issuesFilter"]["predicates"]]. *)
Definition process_predicate
    (alert_policy_dict : gmap string JoinedPolicyCondition.t)
    (workflow_name : pyval) (workflow_id : string)
    (destination_channel_ids : list string)
    (processed_data : list (dict pyval)) (predicate : Predicate.t)
  : list (dict pyval) :=
  let attribute := Predicate.attribute predicate in
  if decide (attribute = "labels.policyIds") then
    foldl (λ processed_data policy_id,
        match alert_policy_dict !! policy_id with
        | Some alert_policy =>
            processed_data ++
              [policy_id_row workflow_name workflow_id destination_channel_ids
                 alert_policy policy_id predicate]
        | None => processed_data
        end)
      processed_data (Predicate.values predicate)
  else if decide (attribute = "accumulations.policyName") then
    processed_data ++
      [policy_name_row workflow_name workflow_id destination_channel_ids predicate]
  else processed_data.

(** Body of [for workflow in workflows]. *)
Definition process_workflow
    (alert_policy_dict : gmap string JoinedPolicyCondition.t)
    (processed_data : list (dict pyval)) (workflow : Workflow.t)
  : list (dict pyval) :=
  let workflow_name := Workflow.name workflow in
  let workflow_id := Workflow.id workflow in
  let destination_channel_ids :=
    map DestinationConfiguration.channelId
      (Workflow.destinationConfigurations workflow) in
  match Workflow.issuesFilter workflow with
  | Some issuesFilter =>
      foldl (process_predicate alert_policy_dict workflow_name workflow_id
               destination_channel_ids)
        processed_data (IssuesFilter.predicates issuesFilter)
  | None => processed_data
  end.

Definition process_workflows (workflows : list Workflow.t)
    (alert_policies : list JoinedPolicyCondition.t) : list (dict pyval) :=
  let alert_policy_dict := alert_policy_dict_of alert_policies in
  foldl (process_workflow alert_policy_dict) [] workflows.

(** ** Join Stage C: channels and destinations *)

Definition destination_dict_of (destinations : list Destination.t)
  : gmap string Destination.t :=
  foldl (λ d destination, <[Destination.id destination := destination]> d)
    ∅ destinations.

Definition channel_row (channel : Channel.t)
    (destination_key destination_value : pyval) : dict pyval :=
  [ ("channel_id", PStr (Channel.id channel));
    ("channel_name", Channel.name channel);
    ("channel_type", Channel.type channel);
    ("destination_id", PStr (Channel.destinationId channel));
    ("destination_key", destination_key);
    ("destination_value", destination_value) ].

(** [prop["key"] in ["email", "url"]] *)
Definition is_email_or_url (prop : Property.t) : bool :=
  bool_decide (Property.key prop ∈ ["email"; "url"]).

(** Body of [for channel in channels]. *)
Definition map_channel (destination_dict : gmap string Destination.t)
    (mapped_data : list (dict pyval)) (channel : Channel.t)
  : list (dict pyval) :=
  let destination_id := Channel.destinationId channel in
  match destination_dict !! destination_id with
  | Some destination =>
      let filtered_properties :=
        List.filter is_email_or_url (Destination.properties destination) in
      match filtered_properties with
      | _ :: _ =>
          foldl (λ mapped_data prop,
              mapped_data ++
                [channel_row channel (PStr (Property.key prop)) (Property.value prop)])
            mapped_data filtered_properties
      | [] => mapped_data ++ [channel_row channel PNone PNone]
      end
  | None => mapped_data ++ [channel_row channel PNone PNone]
  end.

Definition map_channels_to_destinations (channels : list Channel.t)
    (destinations : list Destination.t) : list (dict pyval) :=
  let destination_dict := destination_dict_of destinations in
  foldl (map_channel destination_dict) [] channels.

(** ** Join Stage D: workflow rows and channel rows read back from the files *)

(** [{channel["channel_id"]: channel for channel in channels_data}].  The
    mapping is only ever probed with pieces of a split [str]; a key that is
    not a [str] can never be found and is left out, a list as key is
    unhashable. *)
Definition channel_dict_of (channels_data : list (dict pyval))
  : result (gmap string (dict pyval)) :=
  for_each (λ d channel,
      k ← getitem "channel_id" channel;
      match k with
      | PStr channel_id => Ok (<[channel_id := channel]> d)
      | PList _ => Raise TypeError
      | _ => Ok d
      end)
    ∅ channels_data.

(** The entries [out: d[src]] of a dict literal, evaluated in order. *)
Fixpoint items_from (d : dict pyval) (entries : list (string * string))
  : result (dict pyval) :=
  match entries with
  | [] => Ok []
  | (out, src) :: entries' =>
      v ← getitem src d;
      rest ← items_from d entries';
      Ok ((out, v) :: rest)
  end.

Definition workflow_columns : list string :=
  [ "workflow_name"; "workflow_id"; "destination_channel_ids";
    "alert_policy_name"; "alert_policy_id"; "nrql_condition_id";
    "alert_condition_name"; "nrql_query"; "nrql_condition";
    "attribute.accumulations.policyName"; "attribute.labels.policyIds";
    "policy.operator"; "policy.values" ].

Definition channel_entries : list (string * string) :=
  [ ("channel_id", "channel_id");
    ("destination_channel_name", "channel_name");
    ("destination_channel_type", "channel_type");
    ("destination_id", "destination_id");
    ("destination_key", "destination_key");
    ("destination_value", "destination_value") ].

Definition null_channel_fields (channel_id : string) : dict pyval :=
  [ ("channel_id", PStr channel_id);
    ("destination_channel_name", PNone);
    ("destination_channel_type", PNone);
    ("destination_id", PNone);
    ("destination_key", PNone);
    ("destination_value", PNone) ].

(** [workflow["destination_channel_ids"].split(", ")] *)
Definition split_channel_ids (workflow : dict pyval) : result (list string) :=
  ids ← getitem "destination_channel_ids" workflow;
  match ids with
  | PStr s => Ok (py_split ", " s)
  | _ => Raise AttributeError
  end.

(** Body of [for channel_id in destination_channel_ids]. *)
Definition map_channel_id (channel_dict : gmap string (dict pyval))
    (workflow : dict pyval)
    (mapped_data : list (dict pyval)) (channel_id : string)
  : result (list (dict pyval)) :=
  match channel_dict !! channel_id with
  | Some channel =>
      wf ← items_from workflow ((λ k, (k, k)) <$> workflow_columns);
      ch ← items_from channel channel_entries;
      Ok (mapped_data ++ [wf ++ ch])
  | None =>
      wf ← items_from workflow ((λ k, (k, k)) <$> workflow_columns);
      Ok (mapped_data ++ [wf ++ null_channel_fields channel_id])
  end.

(** Body of [for workflow in workflows_data]. *)
Definition map_workflow (channel_dict : gmap string (dict pyval))
    (mapped_data : list (dict pyval)) (workflow : dict pyval)
  : result (list (dict pyval)) :=
  destination_channel_ids ← split_channel_ids workflow;
  for_each (map_channel_id channel_dict workflow) mapped_data
    destination_channel_ids.

Definition map_workflows_with_channels
    (workflows_data channels_data : list (dict pyval))
  : result (list (dict pyval)) :=
  channel_dict ← channel_dict_of channels_data;
  for_each (map_workflow channel_dict) [] workflows_data.


(** ** The tabular writer *)

(** The text the writer puts in a cell: nothing for [None], a [str] as it
    is, [str(v)] otherwise. *)
Definition csv_text (v : pyval) : string :=
  match v with
  | PNone => ""
  | _ => py_str v
  end.

(** [DictWriter._dict_to_list] with [extrasaction="raise"] and
    [restval=""]. *)
Definition dict_to_list (fieldnames : list string) (rowdict : dict pyval)
  : result (list pyval) :=
  if forallb (λ k, bool_decide (k ∈ fieldnames)) (dict_keys rowdict)
  then Ok ((λ key, default (PStr "") (dict_get key rowdict)) <$> fieldnames)
  else Raise ValueError.

(** [DictWriter.writerows]: the rows are written one by one, so what
    precedes a row that raises is already in the file. *)
Fixpoint writerows (fieldnames : list string) (rowdicts : list (dict pyval))
    (content : string) : result () * string :=
  match rowdicts with
  | [] => (Ok (), content)
  | rowdict :: rowdicts' =>
      match dict_to_list fieldnames rowdict with
      | Ok row =>
          writerows fieldnames rowdicts'
            (content +:+ csv.writerow (csv_text <$> row))
      | Raise e => (Raise e, content)
      | Timeout => (Timeout, content)
      end
  end.

(** What the [with] block of [write_to_csv] leaves in the file it has just
    opened (and truncated). *)
Definition csv_dump (data : list (dict pyval)) : result () * string :=
  match data with
  | [] => (Raise IndexError, "")               (* data[0] *)
  | first :: _ =>
      let fieldnames := dict_keys first in
      let header := csv.writerow fieldnames in  (* writeheader *)
      writerows fieldnames data header
  end.

Definition write_to_csv (data : list (dict pyval)) (filename : string)
  : IO () :=
  λ w,
    let '(r, content) := csv_dump data in
    (r, {| sent := sent w; files := <[filename := content]> (files w) |}).

(** ** Reading a table back *)

(** The dict [DictReader] builds from a row: [dict(zip(fieldnames, row))],
    then [None] for the columns a short row lacks.  The cells a long row has
    beyond the header go under the key [None], which no code of the script
    reads; they are not kept here. *)
Definition row_to_dict (fieldnames row : list string) : dict pyval :=
  let d := foldl (λ d kv, dict_set kv.1 (PStr kv.2) d) [] (zip fieldnames row) in
  foldl (λ d key, dict_set key PNone d) d (drop (length row) fieldnames).

(** [list(csv.DictReader(file))] on the content of a file opened with
    [mode="r"]: the first record is the header, empty records are skipped. *)
Definition DictReader (content : string) : result (list (dict pyval)) :=
  rows ← csv.reader (readlines (universal_newlines content));
  match rows with
  | [] => Ok []
  | fieldnames :: rows' =>
      Ok (row_to_dict fieldnames <$> filter (λ row, row ≠ []) rows')
  end.

(** [open(filename, mode="r")] followed by the read. *)
Definition read_csv (filename : string) : IO (list (dict pyval)) :=
  λ w,
    match files w !! filename with
    | Some content => (DictReader content, w)
    | None => (Raise (FileNotFoundError filename), w)
    end.

(** ** The API client *)

Variable ACCOUNT_ID : Z.       (* int(ACCOUNT_ID) *)
Variable server : Server.

(** [requests.post]: one request goes out; the transport either fails or
    hands back the response, whatever its status. *)
Definition requests_post (request : Request) : IO Response :=
  λ w,
    let w' := {| sent := sent w ++ [request]; files := files w |} in
    match server (sent w) request with
    | NoResponse => (Raise RequestException, w')
    | Responded response => (Ok response, w')
    end.

(** [response.raise_for_status()] raises on 4xx and 5xx only. *)
Definition raise_for_status (response : Response) : result () :=
  if bool_decide (400 ≤ status_code response < 600)
  then Raise (HTTPError (status_code response))
  else Ok ().

(** [response.json()] *)
Definition response_json (response : Response) : result Body :=
  match json response with
  | Some body => Ok body
  | None => Raise JSONDecodeError
  end.

Definition fetch_data (query : Query) (variables : Variables) : IO Body :=
  response ← requests_post {| query := query; variables := variables |};
  _ ← lift (raise_for_status response);
  lift (response_json response).

(** ** The paginated fetchers *)

(** The four [while True] loops are the same loop over different documents.
    [extract] reads the entity list and [nextCursor] at the fixed path of the
    response; [fuel] bounds the number of iterations the model follows. *)
Fixpoint fetch_all_pages {E : Type} (query : Query)
    (extract : Body → result (list E * option string))
    (fuel : nat) (cursor : string) (acc : list E) : IO (list E) :=
  match fuel with
  | O => lift Timeout
  | S fuel' =>
      data ← fetch_data query {| accountId := ACCOUNT_ID; cursor := Some cursor |};
      result ← lift (extract data);
      let acc := acc ++ result.1 in
      match result.2 with
      | Some (String c s) =>              (* a cursor that is truthy *)
          fetch_all_pages query extract fuel' (String c s) acc
      | Some "" | None => mret acc        (* [if not cursor: break] *)
      end
  end.

Definition policiesSearch (data : Body)
  : result (list Policy.t * option string) :=
  match data with
  | PoliciesSearch policies nextCursor => Ok (policies, nextCursor)
  | _ => Raise (KeyError "policiesSearch")
  end.

Definition nrqlConditionsSearch (data : Body)
  : result (list NrqlCondition.t * option string) :=
  match data with
  | NrqlConditionsSearch nrqlConditions nextCursor =>
      Ok (nrqlConditions, nextCursor)
  | _ => Raise (KeyError "nrqlConditionsSearch")
  end.

Definition aiWorkflows_workflows (data : Body)
  : result (list Workflow.t * option string) :=
  match data with
  | Workflows entities nextCursor => Ok (entities, nextCursor)
  | _ => Raise (KeyError "workflows")
  end.

Definition aiNotifications_channels (data : Body)
  : result (list Channel.t * option string) :=
  match data with
  | Channels entities nextCursor => Ok (entities, nextCursor)
  | _ => Raise (KeyError "channels")
  end.

Definition aiNotifications_destinations (data : Body)
  : result (list Destination.t) :=
  match data with
  | Destinations entities => Ok entities
  | _ => Raise (KeyError "destinations")
  end.

(** The two loops of [get_alert_policies_and_conditions]. *)
Definition fetch_policies (fuel : nat) : IO (list Policy.t) :=
  fetch_all_pages policiesSearch_query policiesSearch fuel "" [].

Definition fetch_nrql_conditions (fuel : nat) : IO (list NrqlCondition.t) :=
  fetch_all_pages nrqlConditionsSearch_query nrqlConditionsSearch fuel "" [].

Definition get_alert_policies_and_conditions (fuel : nat)
  : IO (list JoinedPolicyCondition.t) :=
  policies ← fetch_policies fuel;
  nrql_conditions ← fetch_nrql_conditions fuel;
  mret (map_policies_to_conditions policies nrql_conditions).

Definition get_workflows (fuel : nat) : IO (list Workflow.t) :=
  fetch_all_pages workflows_query aiWorkflows_workflows fuel "" [].

(** The loop of [get_channels_and_destinations]. *)
Definition fetch_channels (fuel : nat) : IO (list Channel.t) :=
  fetch_all_pages channels_query aiNotifications_channels fuel "" [].

Definition get_channels_and_destinations (fuel : nat)
  : IO (list Channel.t * list Destination.t) :=
  channels ← fetch_channels fuel;
  data ← fetch_data destinations_query
            {| accountId := ACCOUNT_ID; cursor := None |};
  destinations ← lift (aiNotifications_destinations data);
  mret (channels, destinations).

(** ** The pipeline (what is printed is left out) *)

Definition generate_workflows_with_alert_policies (fuel : nat) : IO () :=
  alert_policies ← get_alert_policies_and_conditions fuel;
  workflows ← get_workflows fuel;
  let processed_data := process_workflows workflows alert_policies in
  write_to_csv processed_data "workflows_with_alert_policies.csv".

Definition generate_channels_and_destinations (fuel : nat) : IO () :=
  cd ← get_channels_and_destinations fuel;
  let mapped_data := map_channels_to_destinations cd.1 cd.2 in
  write_to_csv mapped_data "channels_and_destinations.csv".

Definition generate_workflows_with_channels : IO () :=
  workflows_data ← read_csv "workflows_with_alert_policies.csv";
  channels_data ← read_csv "channels_and_destinations.csv";
  mapped_data ← lift (map_workflows_with_channels workflows_data channels_data);
  write_to_csv mapped_data "workflows_with_channels.csv".

Definition main (fuel : nat) : IO () :=
  _ ← generate_workflows_with_alert_policies fuel;
  _ ← generate_channels_and_destinations fuel;
  generate_workflows_with_channels.

End Script.

(** ** Notions used to state the properties *)

(** The workflow [w] with [ps] as the predicates of its issues filter: what
    one or several iterations of the predicate loop see. *)
Definition with_predicates (w : Workflow.t) (ps : list Predicate.t)
  : Workflow.t :=
  {| Workflow.id := Workflow.id w;
     Workflow.name := Workflow.name w;
     Workflow.destinationConfigurations := Workflow.destinationConfigurations w;
     Workflow.issuesFilter := Some {| IssuesFilter.predicates := ps |} |}.

Definition channel_columns : list string :=
  [ "channel_id"; "channel_name"; "channel_type";
    "destination_id"; "destination_key"; "destination_value" ].

Definition is_str (v : option pyval) : bool :=
  match v with
  | Some (PStr _) => true
  | _ => false
  end.

(** A row as Stage D expects it from the file Stage B wrote: it has the
    thirteen columns, and destination_channel_ids is text. *)
Definition WorkflowAlertRow (row : dict pyval) : Prop :=
  Forall (λ k, is_Some (dict_get k row)) workflow_columns ∧
  is_str (dict_get "destination_channel_ids" row).

(** A row as Stage D expects it from the file Stage C wrote: it has the six
    columns, and channel_id is text. *)
Definition ChannelDestinationRow (row : dict pyval) : Prop :=
  Forall (λ k, is_Some (dict_get k row)) channel_columns ∧
  is_str (dict_get "channel_id" row).

(** [row[k]] for a row that has the key [k]. *)
Definition the (k : string) (row : dict pyval) : pyval :=
  default PNone (dict_get k row).

(** The text under [k], for a row that has text there. *)
Definition the_str (k : string) (row : dict pyval) : string :=
  match dict_get k row with
  | Some (PStr s) => s
  | _ => ""
  end.

(** The mapping [channel_dict_of] computes on rows whose channel_id is
    text. *)
Definition channel_index (channels_data : list (dict pyval))
  : gmap string (dict pyval) :=
  foldl (λ d channel, <[the_str "channel_id" channel := channel]> d)
    ∅ channels_data.

(** The row Stage D combines from a workflow row and a channel id. *)
Definition combined_row (channel_dict : gmap string (dict pyval))
    (workflow : dict pyval) (channel_id : string) : dict pyval :=
  ((λ k, (k, the k workflow)) <$> workflow_columns) ++
  match channel_dict !! channel_id with
  | Some channel => (λ e, (e.1, the e.2 channel)) <$> channel_entries
  | None => null_channel_fields channel_id
  end.

(** ** Sample data, for the concrete instances of the properties *)

(** [repr] on a [str] of printable ASCII characters without quote or
    backslash: the text between single quotes. *)
Definition quote_repr (s : string) : string := "'" +:+ s +:+ "'".

Definition cpu_policy : Policy.t :=
  {| Policy.id := "p1"; Policy.name := PStr "CPU High";
     Policy.incidentPreference := PStr "PER_POLICY" |}.

Definition cpu_term : Term.t :=
  {| Term.operator := PStr "ABOVE"; Term.priority := PStr "CRITICAL";
     Term.threshold := PInt 90; Term.thresholdDuration := PInt 300;
     Term.thresholdOccurrences := PStr "ALL" |}.

Definition cpu_condition : NrqlCondition.t :=
  {| NrqlCondition.policyId := "p1"; NrqlCondition.id := "c1";
     NrqlCondition.type := PStr "STATIC"; NrqlCondition.name := PStr "cpu";
     NrqlCondition.nrql_query := PStr "SELECT average(cpuPercent) FROM SystemSample";
     NrqlCondition.terms := [cpu_term] |}.

(** A condition of a policy that was not fetched. *)
Definition orphan_condition : NrqlCondition.t :=
  {| NrqlCondition.policyId := "p9"; NrqlCondition.id := "c9";
     NrqlCondition.type := PStr "STATIC"; NrqlCondition.name := PStr "disk";
     NrqlCondition.nrql_query := PStr "SELECT 1"; NrqlCondition.terms := [] |}.

Definition cpu_row : JoinedPolicyCondition.t :=
  {| JoinedPolicyCondition.alert_policy_name := PStr "CPU High";
     JoinedPolicyCondition.alert_policy_id := "p1";
     JoinedPolicyCondition.nrql_condition_id := "c1";
     JoinedPolicyCondition.alert_condition_name := PStr "cpu";
     JoinedPolicyCondition.nrql_query :=
       PStr "SELECT average(cpuPercent) FROM SystemSample";
     JoinedPolicyCondition.nrql_condition :=
       "operator: ABOVE, priority: CRITICAL, threshold: 90, duration: 300, occurrences: ALL" |}.

Definition policy_ids_predicate : Predicate.t :=
  {| Predicate.attribute := "labels.policyIds";
     Predicate.operator := PStr "EXACTLY_MATCHES";
     Predicate.values := ["p1"; "p2"] |}.

Definition policy_name_predicate : Predicate.t :=
  {| Predicate.attribute := "accumulations.policyName";
     Predicate.operator := PStr "CONTAINS";
     Predicate.values := ["CPU"] |}.

Definition priority_predicate : Predicate.t :=
  {| Predicate.attribute := "priority";
     Predicate.operator := PStr "EQUAL";
     Predicate.values := ["CRITICAL"] |}.

Definition channel_config (channel_id : string) : DestinationConfiguration.t :=
  {| DestinationConfiguration.channelId := channel_id;
     DestinationConfiguration.name := PStr "ops";
     DestinationConfiguration.notificationTriggers := PNone;
     DestinationConfiguration.type := PStr "EMAIL";
     DestinationConfiguration.updateOriginalMessage := PNone |}.

Definition sample_workflow (ps : list Predicate.t) : Workflow.t :=
  {| Workflow.id := "w1"; Workflow.name := PStr "route";
     Workflow.destinationConfigurations := [channel_config "ch1"; channel_config "ch9"];
     Workflow.issuesFilter := Some {| IssuesFilter.predicates := ps |} |}.

Definition sample_channel (id destination_id : string) : Channel.t :=
  {| Channel.id := id; Channel.name := PStr "ops"; Channel.type := PStr "EMAIL";
     Channel.destinationId := destination_id; Channel.product := PStr "IINT" |}.

Definition mail_destination : Destination.t :=
  {| Destination.properties :=
       [ {| Property.key := "email"; Property.value := PStr "a@x.com" |};
         {| Property.key := "slackToken"; Property.value := PStr "xyz" |} ];
     Destination.id := "d1"; Destination.name := PStr "mail" |}.

Definition token_destination : Destination.t :=
  {| Destination.properties :=
       [ {| Property.key := "slackToken"; Property.value := PStr "xyz" |} ];
     Destination.id := "d2"; Destination.name := PStr "slack" |}.

(** A workflow row and a channel row as they are read back from the files:
    every value is text. *)
Definition workflow_row (destination_channel_ids : string) : dict pyval :=
  [ ("workflow_name", PStr "route"); ("workflow_id", PStr "w1");
    ("destination_channel_ids", PStr destination_channel_ids);
    ("alert_policy_name", PStr "CPU High"); ("alert_policy_id", PStr "p1");
    ("nrql_condition_id", PStr "c1"); ("alert_condition_name", PStr "cpu");
    ("nrql_query", PStr "SELECT 1"); ("nrql_condition", PStr "");
    ("attribute.accumulations.policyName", PStr "");
    ("attribute.labels.policyIds", PStr "p1");
    ("policy.operator", PStr "EXACTLY_MATCHES");
    ("policy.values", PStr "['p1', 'p2']") ].

Definition channel_data_row (channel_id : string) : dict pyval :=
  [ ("channel_id", PStr channel_id); ("channel_name", PStr "ops");
    ("channel_type", PStr "EMAIL"); ("destination_id", PStr "d1");
    ("destination_key", PStr "email"); ("destination_value", PStr "a@x.com") ].

(** The request of one iteration of a fetch loop. *)
Definition page_request (ACCOUNT_ID : Z) (query : Query) (cursor : string)
  : Request :=
  {| query := query;
     variables := {| accountId := ACCOUNT_ID; cursor := Some cursor |} |}.

(** A cursor that ends a fetch loop: [not cursor]. *)
Definition is_last (nextCursor : option string) : Prop :=
  nextCursor = None ∨ nextCursor = Some "".

(** [serves ... log cursor pages]: asked with [cursor] after the requests
    [log], then with the nextCursor of each page in turn, the server answers
    each request with a response whose status is no error and whose body
    holds, at the path of the query, the next page of [pages].  Every page
    but the last has a non-empty nextCursor; the last has an empty or a null
    one. *)
Inductive serves {E : Type} (ACCOUNT_ID : Z) (server : Server) (query : Query)
    (extract : Body → result (list E * option string))
  : list Request → string → list (list E * option string) → Prop :=
| serves_last log cursor response body entities nextCursor :
    server log (page_request ACCOUNT_ID query cursor) = Responded response →
    ¬ (400 ≤ status_code response < 600) →
    json response = Some body →
    extract body = Ok (entities, nextCursor) →
    is_last nextCursor →
    serves ACCOUNT_ID server query extract log cursor [(entities, nextCursor)]
| serves_more log cursor response body entities c s pages :
    server log (page_request ACCOUNT_ID query cursor) = Responded response →
    ¬ (400 ≤ status_code response < 600) →
    json response = Some body →
    extract body = Ok (entities, Some (String c s)) →
    serves ACCOUNT_ID server query extract
      (log ++ [page_request ACCOUNT_ID query cursor]) (String c s) pages →
    serves ACCOUNT_ID server query extract log cursor
      ((entities, Some (String c s)) :: pages).

(** The requests a fetch loop sends to get [pages], starting with
    [cursor]. *)
Fixpoint page_requests {E : Type} (ACCOUNT_ID : Z) (query : Query)
    (cursor : string) (pages : list (list E * option string)) : list Request :=
  match pages with
  | [] => []
  | page :: pages' =>
      page_request ACCOUNT_ID query cursor
      :: page_requests ACCOUNT_ID query (default "" page.2) pages'
  end.


(** The texts of a list one after the other. *)
Definition concat_text (l : list string) : string := foldr String.append "" l.

(** A Stage B row whose NRQL query was typed on two lines that end in
    CR LF. *)
Definition two_line_query : string :=
  "SELECT count(*)" +:+ CRLF +:+ "FROM Transaction".

Definition two_line_row : dict pyval :=
  policy_id_row (PStr "route") "w1" ["ch1"]
    {| JoinedPolicyCondition.alert_policy_name := PStr "Traffic";
       JoinedPolicyCondition.alert_policy_id := "p1";
       JoinedPolicyCondition.nrql_condition_id := "c1";
       JoinedPolicyCondition.alert_condition_name := PStr "count";
       JoinedPolicyCondition.nrql_query := PStr two_line_query;
       JoinedPolicyCondition.nrql_condition := "" |}
    "p1" policy_ids_predicate.

(** ** The reader seen as one pass over the text

    The reader is handed lines, but what it does only depends on the
    characters: each one is a step of the automaton, and an LF is followed by
    the end-of-line step. *)

(** The characters of a part of a line. *)
Fixpoint feed (self : csv.ReaderObj) (s : string) : result csv.ReaderObj :=
  match s with
  | "" => Ok self
  | String c s' => self' ← csv.parse_process_char self (Some c); feed self' s'
  end.

Definition stream_step (p : csv.ReaderObj) (c : ascii) : result csv.ReaderObj :=
  p1 ← csv.parse_process_char p (Some c);
  if decide (c = LF) then csv.parse_process_char p1 None else Ok p1.

(** The records read from a text that ends with the end of a record;
    [None] for a text that ends elsewhere or on which the reader raises. *)
Fixpoint stream (p : csv.ReaderObj) (s : string) : option (list (list string)) :=
  match s with
  | "" =>
      if decide (csv.state p = csv.START_RECORD ∧ csv.field_len p = 0%N)
      then Some [] else None
  | String c s' =>
      match stream_step p c with
      | Ok p' =>
          if decide (c = LF ∧ csv.state p' = csv.START_RECORD)
          then cons (csv.fields p') <$> stream csv.parse_reset s'
          else stream p' s'
      | _ => None
      end
  end.

(** The reader at the start of a field, in an unquoted field and in a quoted
    field, with the fields [fs] read and the characters [g] of the field. *)
Definition at_field (fs : list string) : csv.ReaderObj :=
  {| csv.state := csv.START_FIELD; csv.fields := fs; csv.field := "";
     csv.field_len := 0 |}.

Definition in_field (fs : list string) (g : string) : csv.ReaderObj :=
  {| csv.state := csv.IN_FIELD; csv.fields := fs; csv.field := g;
     csv.field_len := N.of_nat (String.length g) |}.

Definition in_quoted (fs : list string) (g : string) : csv.ReaderObj :=
  {| csv.state := csv.IN_QUOTED_FIELD; csv.fields := fs; csv.field := g;
     csv.field_len := N.of_nat (String.length g) |}.

(** Where the reader starts a field: after a delimiter, or at the start of
    a record. *)
Definition field_start (fs : list string) (p : csv.ReaderObj) : Prop :=
  p = at_field fs ∨ (p = csv.parse_reset ∧ fs = []).

(** The reader once it has read the text of a non-empty field. *)
Definition field_read (fs : list string) (f : string) (p : csv.ReaderObj)
  : Prop :=
  p = in_field fs f ∨
  p = csv.set_state csv.QUOTE_IN_QUOTED_FIELD (in_quoted fs f).

Definition has_cr (s : string) : bool :=
  csv.string_exists (λ c, bool_decide (c = CR)) s.

(** A text the round trip keeps: no carriage return, and no longer than the
    reader's field limit. *)
Definition survives (s : string) : Prop :=
  has_cr s = false ∧ (N.of_nat (String.length s) ≤ csv.field_limit)%N.

(** A channel row whose values hold a delimiter, quotes and a line feed. *)
Definition awkward_row : dict pyval :=
  [ ("channel_id", PStr "ch1");
    ("channel_name", PStr ("ops, " +:+ String DQUOTE "night" +:+ String DQUOTE ""));
    ("channel_type", PNone);
    ("destination_id", PInt 42);
    ("destination_key", PStr "url");
    ("destination_value", PStr ("line one" +:+ String LF "line two")) ].

(** A server with two pages of policies. *)
Definition disk_policy : Policy.t :=
  {| Policy.id := "p2"; Policy.name := PStr "Disk Full";
     Policy.incidentPreference := PStr "PER_CONDITION" |}.

Definition two_page_server : Server :=
  λ log request,
    match query request, cursor (variables request) with
    | policiesSearch_query, Some "" =>
        Responded {| status_code := 200;
                     json := Some (PoliciesSearch [cpu_policy] (Some "next")) |}
    | policiesSearch_query, Some "next" =>
        Responded {| status_code := 200;
                     json := Some (PoliciesSearch [disk_policy] None) |}
    | _, _ => NoResponse
    end.

(** A server that answers every request with status 200 and a body that is
    not JSON. *)
Definition html_server : Server :=
  λ log request, Responded {| status_code := 200; json := None |}.

(** A server that answers every request with status 503. *)
Definition unavailable_server : Server :=
  λ log request, Responded {| status_code := 503; json := Some OtherJson |}.

Definition initial_world : World := {| sent := []; files := ∅ |}.

(** Whether the last character read was a carriage return, after the text
    [s], [b] telling it for the text before. *)
Fixpoint flag_after (b : bool) (s : string) : bool :=
  match s with
  | "" => b
  | String c s' => flag_after (bool_decide (c = CR)) s'
  end.

(** A text no longer than the reader's field limit. *)
Definition within_limit (s : string) : Prop :=
  (N.of_nat (String.length s) ≤ csv.field_limit)%N.

(** Whether the separator [sep] occurs in [s]. *)
Fixpoint has_sep (sep s : string) : bool :=
  match s with
  | "" => false
  | String c s' => startswith sep s || has_sep sep s'
  end.

(** ** The tables *)

(** The text the writer produces for the columns [cols] and records that
    have them: the header line, then one line per record. *)
Definition table (repr_str : string → string) (cols : list string)
    (rows : list (dict pyval)) : string :=
  csv.writerow cols +:+
  concat_text
    ((λ row, csv.writerow ((λ key, csv_text repr_str (the key row)) <$> cols))
     <$> rows).

(** A record of a table as it is read back: every value is the text of its
    cell, with the line ends the text-mode read leaves. *)
Definition read_back (repr_str : string → string) (cols : list string)
    (row : dict pyval) : dict pyval :=
  (λ k, (k, PStr (universal_newlines (csv_text repr_str (the k row)))))
  <$> cols.

(** The nineteen columns of the final table. *)
Definition final_columns : list string :=
  workflow_columns ++ channel_entries.*1.

(** No cell of the records is longer than the reader's field limit. *)
Definition cells_within_limit (repr_str : string → string)
    (cols : list string) (rows : list (dict pyval)) : Prop :=
  ∀ row, row ∈ rows →
    Forall (λ k, within_limit (csv_text repr_str (the k row))) cols.

(** The rows of Stage D for the workflow rows and channel rows read back
    from the files. *)
Definition combined_rows (workflows_data channels_data : list (dict pyval))
  : list (dict pyval) :=
  concat
    ((λ workflow,
        combined_row (channel_index channels_data) workflow
          <$> py_split ", " (the_str "destination_channel_ids" workflow))
     <$> workflows_data).

(** A server with one page of each kind of entity. *)
Definition one_page_server : Server :=
  λ log request,
    let ok body := Responded {| status_code := 200; json := Some body |} in
    match query request, cursor (variables request) with
    | policiesSearch_query, Some "" => ok (PoliciesSearch [cpu_policy] None)
    | nrqlConditionsSearch_query, Some "" =>
        ok (NrqlConditionsSearch [cpu_condition] (Some ""))
    | workflows_query, Some "" =>
        ok (Workflows [sample_workflow [policy_ids_predicate]] None)
    | channels_query, Some "" => ok (Channels [sample_channel "ch1" "d1"] None)
    | destinations_query, None => ok (Destinations [mail_destination])
    | _, _ => NoResponse
    end.

(** ** A whole run *)

(** The one request for the destinations: no cursor. *)
Definition destinations_request (ACCOUNT_ID : Z) : Request :=
  {| query := destinations_query;
     variables := {| accountId := ACCOUNT_ID; cursor := None |} |}.

(** The requests of the three fetch loops of Part 1, in the order they are
    sent. *)
Definition part_1_requests (ACCOUNT_ID : Z)
    (policy_pages : list (list Policy.t * option string))
    (condition_pages : list (list NrqlCondition.t * option string))
    (workflow_pages : list (list Workflow.t * option string))
  : list Request :=
  page_requests ACCOUNT_ID policiesSearch_query "" policy_pages ++
  page_requests ACCOUNT_ID nrqlConditionsSearch_query "" condition_pages ++
  page_requests ACCOUNT_ID workflows_query "" workflow_pages.

(** The requests of Part 2. *)
Definition part_2_requests (ACCOUNT_ID : Z)
    (channel_pages : list (list Channel.t * option string)) : list Request :=
  page_requests ACCOUNT_ID channels_query "" channel_pages ++
  [destinations_request ACCOUNT_ID].

(** After the requests [log] the server serves Part 1: pages of policies,
    then pages of NRQL conditions, then pages of workflows. *)
Definition serves_part_1 (ACCOUNT_ID : Z) (server : Server)
    (log : list Request)
    (policy_pages : list (list Policy.t * option string))
    (condition_pages : list (list NrqlCondition.t * option string))
    (workflow_pages : list (list Workflow.t * option string)) : Prop :=
  serves ACCOUNT_ID server policiesSearch_query policiesSearch
    log "" policy_pages ∧
  serves ACCOUNT_ID server nrqlConditionsSearch_query nrqlConditionsSearch
    (log ++ page_requests ACCOUNT_ID policiesSearch_query "" policy_pages)
    "" condition_pages ∧
  serves ACCOUNT_ID server workflows_query aiWorkflows_workflows
    (log ++ page_requests ACCOUNT_ID policiesSearch_query "" policy_pages
         ++ page_requests ACCOUNT_ID nrqlConditionsSearch_query ""
              condition_pages)
    "" workflow_pages.

(** After the requests [log] the server answers the destinations request
    with a response whose status is no error and whose body holds
    [destinations]. *)
Definition serves_destinations (ACCOUNT_ID : Z) (server : Server)
    (log : list Request) (destinations : list Destination.t) : Prop :=
  ∃ response,
    server log (destinations_request ACCOUNT_ID) = Responded response ∧
    ¬ (400 ≤ status_code response < 600) ∧
    json response = Some (Destinations destinations).

(** After the requests [log] the server serves Part 2: pages of channels,
    then the destinations. *)
Definition serves_part_2 (ACCOUNT_ID : Z) (server : Server)
    (log : list Request)
    (channel_pages : list (list Channel.t * option string))
    (destinations : list Destination.t) : Prop :=
  serves ACCOUNT_ID server channels_query aiNotifications_channels
    log "" channel_pages ∧
  serves_destinations ACCOUNT_ID server
    (log ++ page_requests ACCOUNT_ID channels_query "" channel_pages)
    destinations.

(** A server for an account with one policy and nothing else. *)
Definition quiet_server : Server :=
  λ log request,
    let ok body := Responded {| status_code := 200; json := Some body |} in
    match query request, cursor (variables request) with
    | policiesSearch_query, Some "" => ok (PoliciesSearch [cpu_policy] None)
    | nrqlConditionsSearch_query, Some "" => ok (NrqlConditionsSearch [] None)
    | workflows_query, Some "" => ok (Workflows [] None)
    | _, _ => NoResponse
    end.

(** The server of [one_page_server] for an account without channels. *)
Definition no_channel_server : Server :=
  λ log request,
    match query request, cursor (variables request) with
    | channels_query, Some "" =>
        Responded {| status_code := 200; json := Some (Channels [] None) |}
    | _, _ => one_page_server log request
    end.

(** A server whose pages of policies all announce a next page. *)
Definition looping_server : Server :=
  λ log request,
    Responded {| status_code := 200;
                 json := Some (PoliciesSearch [cpu_policy] (Some "again")) |}.

(** The server answers every request of a fetch loop with a page whose
    nextCursor is not empty. *)
Definition always_more {E : Type} (ACCOUNT_ID : Z) (server : Server)
    (query : Query) (extract : Body → result (list E * option string))
  : Prop :=
  ∀ log cursor, ∃ response body entities c s,
    server log (page_request ACCOUNT_ID query cursor) = Responded response ∧
    ¬ (400 ≤ status_code response < 600) ∧
    json response = Some body ∧
    extract body = Ok (entities, Some (String c s)).

(** ** What a statement does with the exceptions of the client *)

(** [propagates server m]: the statement [m] only adds requests to the log,
    and if the API client raises on one of them, [m] raises that exception
    and the request is the last one it sent: nothing caught the exception,
    nothing was retried and nothing was requested after it. *)
Definition propagates {A : Type} (server : Server) (m : IO A) : Prop :=
  ∀ w, ∃ reqs,
    sent (m w).2 = sent w ++ reqs ∧
    ∀ i request e fs,
      reqs !! i = Some request →
      (fetch_data server (query request) (variables request)
         {| sent := sent w ++ take i reqs; files := fs |}).1 = Raise e →
      (m w).1 = Raise e ∧ length reqs = S i.

(** The server of [one_page_server], except that it answers the request
    for the destinations with status 500. *)
Definition no_destination_server : Server :=
  λ log request,
    match query request with
    | destinations_query =>
        Responded {| status_code := 500; json := Some OtherJson |}
    | _ => one_page_server log request
    end.

(** * Properties *)

(** ** Loops that append to an accumulator *)

Section Loops.
Context {A X : Type}.

(** A loop body that only appends to the accumulator: the loop appends the
    rows of its items in order. *)
Lemma foldl_appends (body : list A → X → list A) :
  (∀ acc x, body acc x = acc ++ body [] x) →
  ∀ l acc, foldl body acc l = acc ++ concat (body [] <$> l).
Proof.
  intros Hbody l. induction l as [|x l IH]; intros acc; simpl.
  - by rewrite app_nil_r.
  - rewrite IH, (Hbody acc x). by rewrite <- app_assoc.
Qed.

Lemma foldl_appends_acc (body : list A → X → list A) :
  (∀ acc x, body acc x = acc ++ body [] x) →
  ∀ l acc, foldl body acc l = acc ++ foldl body [] l.
Proof.
  intros Hbody l acc. by rewrite (foldl_appends body Hbody l []), foldl_appends.
Qed.

Lemma foldl_appends_app (body : list A → X → list A) :
  (∀ acc x, body acc x = acc ++ body [] x) →
  ∀ l1 l2, foldl body [] (l1 ++ l2) = foldl body [] l1 ++ foldl body [] l2.
Proof.
  intros Hbody l1 l2. rewrite !(foldl_appends body Hbody). simpl.
  by rewrite fmap_app, concat_app.
Qed.

End Loops.

(** ** Lookup mappings built by a dict comprehension *)

Section Index.
Context {V : Type} (key : V → string).

Lemma index_lookup_None (l : list V) (d : gmap string V) (k : string) :
  foldl (λ d x, <[key x := x]> d) d l !! k = None ↔
  d !! k = None ∧ k ∉ key <$> l.
Proof.
  revert d. induction l as [|x l IH]; intros d; simpl.
  - split; [intros H; split; [done | apply not_elem_of_nil] | by intros [? _]].
  - rewrite IH, lookup_insert_None, not_elem_of_cons. intuition.
Qed.

(** The entry found under a key is an element of the list with that key. *)
Lemma index_lookup_Some (l : list V) (d : gmap string V) (k : string) (x : V) :
  foldl (λ d x, <[key x := x]> d) d l !! k = Some x →
  (x ∈ l ∧ key x = k) ∨ d !! k = Some x.
Proof.
  revert d. induction l as [|y l IH]; intros d; simpl; [by right |].
  intros [[? ?] | H]%IH.
  - left. split; [by apply list_elem_of_further | done].
  - apply lookup_insert_Some in H as [[<- <-] | [_ ?]].
    + left. split; [apply list_elem_of_here | done].
    + by right.
Qed.

Lemma index_is_Some (l : list V) (k : string) :
  is_Some (foldl (λ (d : gmap string V) x, <[key x := x]> d) ∅ l !! k) ↔ k ∈ key <$> l.
Proof.
  rewrite <- not_eq_None_Some, index_lookup_None, lookup_empty.
  split.
  - intros H. destruct (decide (k ∈ key <$> l)); [done | by destruct H].
  - by intros ? [_ ?].
Qed.

(** A later element with the same key replaces an earlier one. *)
Lemma index_last_wins (l1 l2 : list V) (x : V) :
  key x ∉ key <$> l2 →
  foldl (λ (d : gmap string V) x, <[key x := x]> d) ∅ (l1 ++ x :: l2) !! key x
    = Some x.
Proof.
  intros Hl2. rewrite foldl_app. simpl.
  destruct (foldl _ (<[key x:=x]> _) l2 !! key x) as [y|] eqn:Hy.
  - apply index_lookup_Some in Hy as [[Hin Hk] | Hy].
    + exfalso. apply Hl2. rewrite <- Hk. by apply list_elem_of_fmap_2.
    + by rewrite lookup_insert_eq in Hy.
  - apply index_lookup_None in Hy as [Hy _]. by rewrite lookup_insert_eq in Hy.
Qed.

End Index.

(** ** Join Stage A *)

Section StageA.
Context (repr_str : string → string).

Local Abbreviation stage_A := (map_policies_to_conditions repr_str).

(** The loop of Stage A appends the rows of its conditions in order. *)
Lemma map_policies_to_conditions_app policies cs1 cs2 :
  stage_A policies (cs1 ++ cs2) = stage_A policies cs1 ++ stage_A policies cs2.
Proof.
  unfold map_policies_to_conditions.
  apply (foldl_appends_app (λ mapped_data condition,
    match policy_dict_of policies !! NrqlCondition.policyId condition with
    | Some policy => mapped_data ++ [_]
    | None => mapped_data
    end)).
  intros acc x. destruct (_ !! _); simpl; by rewrite ?app_nil_r.
Qed.

(** The policy mapping has exactly the ids of the fetched policies as keys. *)
Lemma policy_dict_is_Some policies k :
  is_Some (policy_dict_of policies !! k) ↔ k ∈ Policy.id <$> policies.
Proof. apply index_is_Some. Qed.

Lemma policy_dict_lookup_Some policies k policy :
  policy_dict_of policies !! k = Some policy →
  policy ∈ policies ∧ Policy.id policy = k.
Proof.
  intros [H | H]%index_lookup_Some; [done | by rewrite lookup_empty in H].
Qed.

(** C2. Join Stage A: a condition whose policyId is the id of no policy adds no
    row; a condition whose policyId is the id of a policy adds exactly one
    row, made of that policy and the condition, whose nrql_condition is the
    "; "-join, in the order of the condition's terms, of
    "operator: X, priority: Y, threshold: Z, duration: D, occurrences: O"
    with the term's fields as text.  The rows of the conditions follow each
    other in the order of the conditions. *)
Theorem stage_A_condition_rows policies cs1 c cs2 :
  stage_A policies (cs1 ++ c :: cs2)
    = stage_A policies cs1 ++ stage_A policies [c] ++ stage_A policies cs2 ∧
  (NrqlCondition.policyId c ∉ Policy.id <$> policies →
     stage_A policies [c] = []) ∧
  (NrqlCondition.policyId c ∈ Policy.id <$> policies →
     ∃ policy row,
       policy ∈ policies ∧ Policy.id policy = NrqlCondition.policyId c ∧
       stage_A policies [c] = [row] ∧
       JoinedPolicyCondition.alert_policy_name row = Policy.name policy ∧
       JoinedPolicyCondition.alert_policy_id row = Policy.id policy ∧
       JoinedPolicyCondition.nrql_condition_id row = NrqlCondition.id c ∧
       JoinedPolicyCondition.alert_condition_name row = NrqlCondition.name c ∧
       JoinedPolicyCondition.nrql_query row = NrqlCondition.nrql_query c ∧
       JoinedPolicyCondition.nrql_condition row =
         py_join "; "
           ((λ term,
               "operator: " +:+ py_str repr_str (Term.operator term) +:+
               ", priority: " +:+ py_str repr_str (Term.priority term) +:+
               ", threshold: " +:+ py_str repr_str (Term.threshold term) +:+
               ", duration: " +:+ py_str repr_str (Term.thresholdDuration term) +:+
               ", occurrences: " +:+
               py_str repr_str (Term.thresholdOccurrences term))
            <$> NrqlCondition.terms c)).
Proof.
  split; [| split].
  - change (c :: cs2) with ([c] ++ cs2).
    by rewrite !map_policies_to_conditions_app.
  - intros Hnot. unfold map_policies_to_conditions. simpl.
    destruct (policy_dict_of policies !! _) as [policy|] eqn:Hp; [| done].
    exfalso. apply Hnot, policy_dict_is_Some. by exists policy.
  - intros [policy Hp]%policy_dict_is_Some.
    destruct (policy_dict_lookup_Some _ _ _ Hp) as [Hin Hid].
    eexists policy, _. split; [done |]. split; [done |].
    unfold map_policies_to_conditions. simpl. rewrite Hp. simpl.
    split; [reflexivity |]. repeat split.
Qed.

End StageA.

(** The specification's scenario: the policy "CPU High" and its condition
    give one row; the condition of an unknown policy gives none. *)
Lemma stage_A_condition_rows_witness :
  map_policies_to_conditions quote_repr [cpu_policy]
    [orphan_condition; cpu_condition] = [cpu_row].
Proof.
  destruct (stage_A_condition_rows quote_repr [cpu_policy]
              [] orphan_condition [cpu_condition]) as (Happ & Hnone & _).
  destruct (stage_A_condition_rows quote_repr [cpu_policy]
              [orphan_condition] cpu_condition []) as (_ & _ & Hsome).
  simpl in Happ. rewrite Happ. clear Happ.
  rewrite Hnone by (by apply (bool_decide_unpack _)). clear Hnone.
  destruct Hsome as (policy & row & Hin & Hid & -> & H1 & H2 & H3 & H4 & H5 & H6).
  { by apply (bool_decide_unpack _). }
  apply list_elem_of_singleton in Hin as ->.
  destruct row. simpl in *. by subst.
Defined.

(** ** Join Stage B *)

Section StageB.
Implicit Types (aps : list JoinedPolicyCondition.t) (w : Workflow.t)
  (p : Predicate.t).

Lemma process_predicate_appends d name id ids acc p :
  process_predicate d name id ids acc p
    = acc ++ process_predicate d name id ids [] p.
Proof.
  unfold process_predicate. repeat case_decide; simpl; rewrite ?app_nil_r; try done.
  apply foldl_appends_acc.
  intros acc' x. destruct (d !! x); simpl; by rewrite ?app_nil_r.
Qed.

Lemma process_workflow_appends d acc w :
  process_workflow d acc w = acc ++ process_workflow d [] w.
Proof.
  unfold process_workflow. destruct (Workflow.issuesFilter w) as [f|].
  - apply foldl_appends_acc, process_predicate_appends.
  - by rewrite app_nil_r.
Qed.

(** The rows of the workflows follow each other in the order of the
    workflows. *)
Lemma process_workflows_app ws1 ws2 aps :
  process_workflows (ws1 ++ ws2) aps
    = process_workflows ws1 aps ++ process_workflows ws2 aps.
Proof.
  unfold process_workflows.
  apply foldl_appends_app, process_workflow_appends.
Qed.

(** And within a workflow, the rows of its predicates follow each other in
    the order of the predicates. *)
Lemma process_workflows_predicates_app w ps1 ps2 aps :
  process_workflows [with_predicates w (ps1 ++ ps2)] aps
    = process_workflows [with_predicates w ps1] aps
      ++ process_workflows [with_predicates w ps2] aps.
Proof.
  unfold process_workflows, process_workflow. simpl.
  apply foldl_appends_app, process_predicate_appends.
Qed.

Lemma process_workflows_with_predicates w ps aps :
  Workflow.issuesFilter w = Some {| IssuesFilter.predicates := ps |} →
  process_workflows [w] aps = process_workflows [with_predicates w ps] aps.
Proof.
  intros Hf. unfold process_workflows, process_workflow. simpl. by rewrite Hf.
Qed.

(** A workflow without an issues filter adds no row. *)
Lemma process_workflows_no_filter w aps :
  Workflow.issuesFilter w = None → process_workflows [w] aps = [].
Proof.
  intros Hf. unfold process_workflows, process_workflow. simpl. by rewrite Hf.
Qed.

Lemma alert_policy_dict_lookup_Some aps k ap :
  alert_policy_dict_of aps !! k = Some ap →
  ap ∈ aps ∧ JoinedPolicyCondition.alert_policy_id ap = k.
Proof.
  intros [H | H]%index_lookup_Some; [done | by rewrite lookup_empty in H].
Qed.

Lemma alert_policy_dict_is_Some aps k :
  is_Some (alert_policy_dict_of aps !! k)
  ↔ k ∈ JoinedPolicyCondition.alert_policy_id <$> aps.
Proof. apply index_is_Some. Qed.

(** The rows of a ["labels.policyIds"] predicate: one for each of its values
    that is a key of the mapping, in the order of the values. *)
Lemma process_workflows_policy_ids w p aps :
  Predicate.attribute p = "labels.policyIds" →
  process_workflows [with_predicates w [p]] aps
  = omap (λ policy_id,
        alert_policy ← alert_policy_dict_of aps !! policy_id;
        Some (policy_id_row (Workflow.name w) (Workflow.id w)
                (DestinationConfiguration.channelId
                   <$> Workflow.destinationConfigurations w)
                alert_policy policy_id p))
      (Predicate.values p).
Proof.
  intros Hattr. unfold process_workflows, process_workflow. simpl.
  unfold process_predicate. rewrite Hattr. case_decide; [| done].
  generalize (alert_policy_dict_of aps). intros d.
  rewrite (foldl_appends (λ processed_data policy_id,
    match d !! policy_id with
    | Some alert_policy => processed_data ++ [_]
    | None => processed_data
    end)).
  2:{ intros acc' x. destruct (d !! x); simpl; by rewrite ?app_nil_r. }
  simpl. induction (Predicate.values p) as [|v vs IH]; [done |].
  csimpl. rewrite IH. by destruct (d !! v).
Qed.

(** C1. Join Stage B, for a workflow with an issues filter.  The rows of the
    workflow are those of its predicates, in order.  A predicate with attribute
    "labels.policyIds" and values [A, B], of which only A is a key of the
    policy-condition mapping, adds exactly one row: the one for A, with the
    matched row's fields, A under "attribute.labels.policyIds" and the
    predicate's operator and values.  A predicate with attribute
    "accumulations.policyName" adds exactly one row, with null alert, policy
    and condition fields and the predicate's values kept as they are.  A
    predicate with any other attribute adds no row. *)
Theorem stage_B_predicate_rows aps ws1 w ws2 ps1 p ps2 :
  Workflow.issuesFilter w
    = Some {| IssuesFilter.predicates := ps1 ++ p :: ps2 |} →
  let rows ps := process_workflows [with_predicates w ps] aps in
  let workflow_name := Workflow.name w in
  let workflow_id := PStr (Workflow.id w) in
  let destination_channel_ids :=
    PStr (py_join ", " (DestinationConfiguration.channelId
                          <$> Workflow.destinationConfigurations w)) in
  process_workflows (ws1 ++ w :: ws2) aps
    = process_workflows ws1 aps ++ (rows ps1 ++ rows [p] ++ rows ps2)
      ++ process_workflows ws2 aps ∧
  (∀ A B alert_policy,
     Predicate.attribute p = "labels.policyIds" →
     Predicate.values p = [A; B] →
     alert_policy_dict_of aps !! A = Some alert_policy →
     alert_policy_dict_of aps !! B = None →
     alert_policy ∈ aps ∧
     JoinedPolicyCondition.alert_policy_id alert_policy = A ∧
     rows [p] =
       [ [ ("workflow_name", workflow_name);
           ("workflow_id", workflow_id);
           ("destination_channel_ids", destination_channel_ids);
           ("alert_policy_name",
              JoinedPolicyCondition.alert_policy_name alert_policy);
           ("alert_policy_id", PStr A);
           ("nrql_condition_id",
              PStr (JoinedPolicyCondition.nrql_condition_id alert_policy));
           ("alert_condition_name",
              JoinedPolicyCondition.alert_condition_name alert_policy);
           ("nrql_query", JoinedPolicyCondition.nrql_query alert_policy);
           ("nrql_condition",
              PStr (JoinedPolicyCondition.nrql_condition alert_policy));
           ("attribute.accumulations.policyName", PNone);
           ("attribute.labels.policyIds", PStr A);
           ("policy.operator", Predicate.operator p);
           ("policy.values", PList [PStr A; PStr B]) ] ]) ∧
  (Predicate.attribute p = "accumulations.policyName" →
     rows [p] =
       [ [ ("workflow_name", workflow_name);
           ("workflow_id", workflow_id);
           ("destination_channel_ids", destination_channel_ids);
           ("alert_policy_name", PNone);
           ("alert_policy_id", PNone);
           ("nrql_condition_id", PNone);
           ("alert_condition_name", PNone);
           ("nrql_query", PNone);
           ("nrql_condition", PNone);
           ("attribute.accumulations.policyName",
              PList (PStr <$> Predicate.values p));
           ("attribute.labels.policyIds", PNone);
           ("policy.operator", Predicate.operator p);
           ("policy.values", PList (PStr <$> Predicate.values p)) ] ]) ∧
  (Predicate.attribute p ≠ "labels.policyIds" →
   Predicate.attribute p ≠ "accumulations.policyName" →
     rows [p] = []).
Proof.
  intros Hf rows workflow_name workflow_id destination_channel_ids.
  split; [| split; [| split]].
  - change (w :: ws2) with ([w] ++ ws2).
    rewrite !process_workflows_app.
    rewrite (process_workflows_with_predicates _ _ _ Hf).
    change (p :: ps2) with ([p] ++ ps2).
    by rewrite !process_workflows_predicates_app.
  - intros A B ap Hattr Hvalues HA HB.
    destruct (alert_policy_dict_lookup_Some _ _ _ HA) as [Hin Hid].
    split; [done |]. split; [done |].
    unfold rows. rewrite (process_workflows_policy_ids _ _ _ Hattr), Hvalues.
    simpl. rewrite HA, HB. simpl. unfold policy_id_row.
    by rewrite Hvalues, Hid.
  - intros Hattr. unfold rows, process_workflows, process_workflow. simpl.
    unfold process_predicate. rewrite Hattr.
    case_decide; [done |]. by case_decide.
  - intros Hne1 Hne2. unfold rows, process_workflows, process_workflow. simpl.
    unfold process_predicate. by repeat case_decide.
Qed.

End StageB.

(** A workflow with the three kinds of predicate, against a mapping that
    knows "p1" only: one row for "p1", one for the policy-name predicate,
    none for the third. *)
Lemma stage_B_predicate_rows_witness :
  let w := sample_workflow
             [policy_ids_predicate; policy_name_predicate; priority_predicate] in
  process_workflows [w] [cpu_row] =
    [ policy_id_row (PStr "route") "w1" ["ch1"; "ch9"] cpu_row "p1"
        policy_ids_predicate;
      policy_name_row (PStr "route") "w1" ["ch1"; "ch9"] policy_name_predicate ].
Proof.
  intros w.
  destruct (stage_B_predicate_rows [cpu_row] [] w []
              [] policy_ids_predicate
              [policy_name_predicate; priority_predicate] eq_refl)
    as (_ & Hids & _ & _).
  destruct (stage_B_predicate_rows [cpu_row] [] w []
              [policy_ids_predicate] policy_name_predicate
              [priority_predicate] eq_refl)
    as (Happ & _ & Hname & _).
  destruct (stage_B_predicate_rows [cpu_row] [] w []
              [policy_ids_predicate; policy_name_predicate] priority_predicate
              [] eq_refl)
    as (_ & _ & _ & Hother).
  change (process_workflows [w] [cpu_row])
    with (process_workflows ([] ++ [w]) [cpu_row]).
  rewrite Happ. clear Happ.
  destruct (Hids "p1" "p2" cpu_row eq_refl eq_refl) as (_ & _ & ->);
    [by vm_compute | by vm_compute |].
  rewrite (Hname eq_refl). rewrite Hother by done. reflexivity.
Defined.

(** ** Join Stage C *)

Section StageC.
Implicit Types (ch : Channel.t) (destinations : list Destination.t).

Lemma foldl_snoc_map {A X : Type} (g : X → A) (l : list X) (acc : list A) :
  foldl (λ acc x, acc ++ [g x]) acc l = acc ++ (g <$> l).
Proof.
  revert acc. induction l as [|x l IH]; intros acc; simpl.
  - by rewrite app_nil_r.
  - by rewrite IH, <- app_assoc.
Qed.

Lemma map_channel_appends d acc ch :
  map_channel d acc ch = acc ++ map_channel d [] ch.
Proof.
  unfold map_channel. destruct (d !! _) as [destination|]; [| done].
  destruct (List.filter _ _) as [|prop props]; [done |].
  by rewrite !(foldl_snoc_map (λ prop, channel_row ch _ _)).
Qed.

(** The rows of the channels follow each other in the order of the
    channels. *)
Lemma map_channels_to_destinations_app chs1 chs2 destinations :
  map_channels_to_destinations (chs1 ++ chs2) destinations
    = map_channels_to_destinations chs1 destinations
      ++ map_channels_to_destinations chs2 destinations.
Proof.
  unfold map_channels_to_destinations.
  apply foldl_appends_app, map_channel_appends.
Qed.

(** The comprehension that filters the properties keeps those whose key is
    "email" or "url", in order. *)
Lemma filtered_properties_spec (props : list Property.t) :
  List.filter is_email_or_url props
    = filter (λ prop, Property.key prop = "email" ∨ Property.key prop = "url")
        props.
Proof.
  induction props as [|prop props IH]; [done |].
  simpl. rewrite filter_cons, IH. unfold is_email_or_url.
  destruct (decide (Property.key prop = "email" ∨ Property.key prop = "url"))
    as [Hk | Hk].
  - rewrite bool_decide_eq_true_2; [done |].
    rewrite !elem_of_cons. intuition.
  - rewrite bool_decide_eq_false_2; [done |].
    rewrite !elem_of_cons, elem_of_nil. intuition.
Qed.

Lemma destination_dict_lookup_Some destinations k destination :
  destination_dict_of destinations !! k = Some destination →
  destination ∈ destinations ∧ Destination.id destination = k.
Proof.
  intros [H | H]%index_lookup_Some; [done | by rewrite lookup_empty in H].
Qed.

Lemma destination_dict_is_Some destinations k :
  is_Some (destination_dict_of destinations !! k)
  ↔ k ∈ Destination.id <$> destinations.
Proof. apply index_is_Some. Qed.

(** The rows one channel adds, by what the mapping holds for its
    destinationId. *)
Lemma map_channel_rows destinations ch :
  map_channels_to_destinations [ch] destinations =
    match destination_dict_of destinations !! Channel.destinationId ch with
    | Some destination =>
        match filter (λ prop, Property.key prop = "email"
                              ∨ Property.key prop = "url")
                (Destination.properties destination) with
        | [] => [channel_row ch PNone PNone]
        | props =>
            (λ prop, channel_row ch (PStr (Property.key prop))
                       (Property.value prop)) <$> props
        end
    | None => [channel_row ch PNone PNone]
    end.
Proof.
  unfold map_channels_to_destinations. simpl. unfold map_channel.
  destruct (_ !! _) as [destination|]; [| done].
  rewrite filtered_properties_spec.
  destruct (filter _ _) as [|prop props]; [done |].
  by rewrite (foldl_snoc_map (λ prop, channel_row ch _ _)).
Qed.

(** C3. Join Stage C: a channel whose destinationId is the id of a
    destination adds exactly one row for each property of that destination
    whose key is "email" or "url", with that key and value, and none for the
    other properties; when the destination has no such property, or when the
    destinationId is the id of no destination, the channel adds exactly one
    row with null destination_key and destination_value.  Every row carries
    the channel's destinationId.  The rows of the channels follow each other
    in the order of the channels. *)
Theorem stage_C_channel_rows destinations chs1 ch chs2 :
  let rows chs := map_channels_to_destinations chs destinations in
  let row destination_key destination_value : dict pyval :=
    [ ("channel_id", PStr (Channel.id ch));
      ("channel_name", Channel.name ch);
      ("channel_type", Channel.type ch);
      ("destination_id", PStr (Channel.destinationId ch));
      ("destination_key", destination_key);
      ("destination_value", destination_value) ] in
  rows (chs1 ++ ch :: chs2) = rows chs1 ++ rows [ch] ++ rows chs2 ∧
  (Channel.destinationId ch ∈ Destination.id <$> destinations →
     ∃ destination,
       destination ∈ destinations ∧
       Destination.id destination = Channel.destinationId ch ∧
       let qualifying :=
         filter (λ prop, Property.key prop = "email"
                         ∨ Property.key prop = "url")
           (Destination.properties destination) in
       (qualifying ≠ [] →
          rows [ch] = (λ prop, row (PStr (Property.key prop))
                                 (Property.value prop)) <$> qualifying) ∧
       (qualifying = [] → rows [ch] = [row PNone PNone])) ∧
  (Channel.destinationId ch ∉ Destination.id <$> destinations →
     rows [ch] = [row PNone PNone]).
Proof.
  intros rows row. split; [| split].
  - unfold rows. change (ch :: chs2) with ([ch] ++ chs2).
    by rewrite !map_channels_to_destinations_app.
  - intros [destination Hd]%destination_dict_is_Some.
    destruct (destination_dict_lookup_Some _ _ _ Hd) as [Hin Hid].
    exists destination. split; [done |]. split; [done |].
    unfold rows. rewrite map_channel_rows, Hd.
    destruct (filter _ _) as [|prop props]; split; done.
  - intros Hnot. unfold rows. rewrite map_channel_rows.
    destruct (_ !! _) as [destination|] eqn:Hd; [| done].
    exfalso. apply Hnot, destination_dict_is_Some. by exists destination.
Qed.

End StageC.

(** The specification's scenario: a destination with an "email" and a
    "slackToken" property gives its channel one row, for "email"; a channel
    of a destination without such a property, and a channel of an unknown
    destination, each give one row with null key and value. *)
Lemma stage_C_channel_rows_witness :
  map_channels_to_destinations
    [sample_channel "ch1" "d1"; sample_channel "ch2" "d2";
     sample_channel "ch3" "d9"]
    [mail_destination; token_destination] =
    [ channel_row (sample_channel "ch1" "d1") (PStr "email") (PStr "a@x.com");
      channel_row (sample_channel "ch2" "d2") PNone PNone;
      channel_row (sample_channel "ch3" "d9") PNone PNone ].
Proof.
  set (ds := [mail_destination; token_destination]).
  destruct (stage_C_channel_rows ds [] (sample_channel "ch1" "d1")
              [sample_channel "ch2" "d2"; sample_channel "ch3" "d9"])
    as (_ & H1 & _).
  destruct (stage_C_channel_rows ds [sample_channel "ch1" "d1"]
              (sample_channel "ch2" "d2") [sample_channel "ch3" "d9"])
    as (Happ & H2 & _).
  destruct (stage_C_channel_rows ds
              [sample_channel "ch1" "d1"; sample_channel "ch2" "d2"]
              (sample_channel "ch3" "d9") [])
    as (_ & _ & H3).
  simpl in Happ. rewrite Happ. clear Happ.
  rewrite H3 by (by apply (bool_decide_unpack _)). clear H3.
  destruct H1 as (d1 & Hin1 & Hid1 & Hq1 & _);
    [by apply (bool_decide_unpack _) |].
  destruct H2 as (d2 & Hin2 & Hid2 & _ & Hq2);
    [by apply (bool_decide_unpack _) |].
  assert (d1 = mail_destination) as ->.
  { apply elem_of_cons in Hin1 as [-> | ->%list_elem_of_singleton]; done. }
  assert (d2 = token_destination) as ->.
  { apply elem_of_cons in Hin2 as [-> | ->%list_elem_of_singleton]; done. }
  rewrite Hq1 by done. rewrite Hq2 by done. reflexivity.
Defined.

(** ** Join Stage D *)

Section StageD.
Implicit Types (workflow channel row : dict pyval)
  (channel_dict : gmap string (dict pyval)).

Lemma for_each_appends {A X : Type} (body : list A → X → result (list A))
    (g : X → list A) (P : X → Prop) :
  (∀ acc x, P x → body acc x = Ok (acc ++ g x)) →
  ∀ l acc, Forall P l → for_each body acc l = Ok (acc ++ concat (g <$> l)).
Proof.
  intros Hbody l. induction l as [|x l IH]; intros acc Hl; simpl.
  - by rewrite app_nil_r.
  - apply Forall_cons in Hl as [Hx Hl].
    rewrite (Hbody acc x Hx). simpl. rewrite (IH _ Hl).
    by rewrite <- app_assoc.
Qed.

Lemma for_each_snoc {A X : Type} (body : list A → X → result (list A))
    (f : X → A) :
  (∀ acc x, body acc x = Ok (acc ++ [f x])) →
  ∀ l acc, for_each body acc l = Ok (acc ++ (f <$> l)).
Proof.
  intros Hbody l. induction l as [|x l IH]; intros acc; simpl.
  - by rewrite app_nil_r.
  - rewrite Hbody. simpl. rewrite IH. by rewrite <- app_assoc.
Qed.

Lemma items_from_Ok row (entries : list (string * string)) :
  Forall (λ k, is_Some (dict_get k row)) entries.*2 →
  items_from row entries = Ok ((λ e, (e.1, the e.2 row)) <$> entries).
Proof.
  induction entries as [|[out src] entries IH]; intros H; [done |].
  simpl in H. apply Forall_cons in H as [[v Hv] H].
  simpl. unfold getitem, the. rewrite Hv. simpl. by rewrite (IH H).
Qed.

(** On rows that have a text channel_id, the comprehension never raises and
    is the mapping from each channel_id to the last row that has it. *)
Lemma channel_dict_of_Ok channels_data :
  Forall ChannelDestinationRow channels_data →
  channel_dict_of channels_data = Ok (channel_index channels_data).
Proof.
  unfold channel_dict_of, channel_index.
  generalize (∅ : gmap string (dict pyval)).
  induction channels_data as [|channel l IH]; intros d Hl; [done |].
  apply Forall_cons in Hl as [[_ Hstr] Hl].
  simpl. unfold getitem, the_str.
  destruct (dict_get "channel_id" channel) as [[| | | |s|]|]; try done.
  simpl. by rewrite (IH _ Hl).
Qed.

Lemma split_channel_ids_Ok workflow :
  WorkflowAlertRow workflow →
  split_channel_ids workflow
    = Ok (py_split ", " (the_str "destination_channel_ids" workflow)).
Proof.
  intros [_ Hstr]. unfold split_channel_ids, getitem, the_str.
  by destruct (dict_get _ workflow) as [[| | | |s|]|].
Qed.

(** The combined row of a workflow row and a channel id. *)
Lemma map_channel_id_Ok channel_dict workflow acc channel_id :
  WorkflowAlertRow workflow →
  (∀ id channel, channel_dict !! id = Some channel →
     ChannelDestinationRow channel) →
  map_channel_id channel_dict workflow acc channel_id
    = Ok (acc ++ [combined_row channel_dict workflow channel_id]).
Proof.
  intros [Hw _] Hd. unfold map_channel_id, combined_row.
  rewrite (items_from_Ok workflow).
  2:{ by rewrite <- list_fmap_compose, list_fmap_id. }
  rewrite <- list_fmap_compose.
  destruct (channel_dict !! channel_id) as [channel|] eqn:Hc; [| done].
  destruct (Hd _ _ Hc) as [Hch _].
  by rewrite (items_from_Ok channel).
Qed.

Lemma channel_dict_rows channels_data id channel :
  Forall ChannelDestinationRow channels_data →
  channel_index channels_data !! id = Some channel →
  channel ∈ channels_data ∧ ChannelDestinationRow channel ∧
  dict_get "channel_id" channel = Some (PStr id).
Proof.
  intros Hl [[Hin Hk] | H]%index_lookup_Some;
    [| by rewrite lookup_empty in H].
  split; [done |].
  pose proof (proj1 (Forall_forall _ _) Hl _ Hin) as Hrow.
  split; [done |]. destruct Hrow as [_ Hstr].
  unfold the_str in Hk.
  by destruct (dict_get "channel_id" channel) as [[| | | |s|]|]; simplify_eq.
Qed.

Lemma channel_index_is_Some channels_data id :
  is_Some (channel_index channels_data !! id)
  ↔ id ∈ the_str "channel_id" <$> channels_data.
Proof. apply index_is_Some. Qed.

(** Stage D on rows of the expected shape: it does not raise, and its
    output is, workflow row by workflow row and piece by piece, the combined
    rows. *)
Lemma map_workflows_with_channels_Ok workflows_data channels_data :
  Forall WorkflowAlertRow workflows_data →
  Forall ChannelDestinationRow channels_data →
  map_workflows_with_channels workflows_data channels_data =
    Ok (concat
      ((λ workflow,
          combined_row (channel_index channels_data) workflow
            <$> py_split ", " (the_str "destination_channel_ids" workflow))
       <$> workflows_data)).
Proof.
  intros Hws Hcs.
  unfold map_workflows_with_channels. rewrite (channel_dict_of_Ok _ Hcs). simpl.
  assert (∀ id channel, channel_index channels_data !! id = Some channel →
            ChannelDestinationRow channel) as Hd.
  { intros id channel H.
    destruct (channel_dict_rows _ _ _ Hcs H) as (_ & ? & _). done. }
  rewrite <- (app_nil_l (concat _)).
  apply (for_each_appends _ _ WorkflowAlertRow); [| done].
  intros acc workflow Hw. unfold map_workflow.
  rewrite (split_channel_ids_Ok _ Hw). simpl.
  apply for_each_snoc.
  intros acc' channel_id. by rewrite (map_channel_id_Ok _ _ _ _ Hw Hd).
Qed.

(** Splitting always yields at least one piece. *)
Lemma split_go_nonempty sep skip cur s : split_go sep skip cur s ≠ [].
Proof.
  revert skip cur. induction s as [|c s IH]; intros skip cur; simpl; [done |].
  destruct skip; [| apply IH]. destruct (startswith sep _); [done | apply IH].
Qed.

Lemma py_split_nonempty sep s : py_split sep s ≠ [].
Proof. apply split_go_nonempty. Qed.

(** C4. Join Stage D, on the rows of the two files: the channel mapping
    holds, for each channel id, the last channel row that has it.  For every
    workflow row, destination_channel_ids is split on ", " and each piece, in
    order, adds exactly one row: the thirteen workflow, policy and condition
    fields, followed by the six channel and destination fields of the
    channel row found under the piece, or, when the piece is no key of the
    mapping, by the piece as channel_id and five null fields.  The rows of
    the workflow rows follow each other in the order of the workflow rows. *)
Theorem stage_D_rows workflows_data channels_data :
  Forall WorkflowAlertRow workflows_data →
  Forall ChannelDestinationRow channels_data →
  ∃ channel_dict,
    channel_dict_of channels_data = Ok channel_dict ∧
    (∀ id, is_Some (channel_dict !! id)
           ↔ id ∈ the_str "channel_id" <$> channels_data) ∧
    (∀ id channel, channel_dict !! id = Some channel →
       channel ∈ channels_data ∧
       dict_get "channel_id" channel = Some (PStr id)) ∧
    map_workflows_with_channels workflows_data channels_data =
      Ok (concat
        ((λ workflow,
            (λ channel_id,
               [ ("workflow_name", the "workflow_name" workflow);
                 ("workflow_id", the "workflow_id" workflow);
                 ("destination_channel_ids",
                    the "destination_channel_ids" workflow);
                 ("alert_policy_name", the "alert_policy_name" workflow);
                 ("alert_policy_id", the "alert_policy_id" workflow);
                 ("nrql_condition_id", the "nrql_condition_id" workflow);
                 ("alert_condition_name", the "alert_condition_name" workflow);
                 ("nrql_query", the "nrql_query" workflow);
                 ("nrql_condition", the "nrql_condition" workflow);
                 ("attribute.accumulations.policyName",
                    the "attribute.accumulations.policyName" workflow);
                 ("attribute.labels.policyIds",
                    the "attribute.labels.policyIds" workflow);
                 ("policy.operator", the "policy.operator" workflow);
                 ("policy.values", the "policy.values" workflow) ] ++
               match channel_dict !! channel_id with
               | Some channel =>
                   [ ("channel_id", the "channel_id" channel);
                     ("destination_channel_name", the "channel_name" channel);
                     ("destination_channel_type", the "channel_type" channel);
                     ("destination_id", the "destination_id" channel);
                     ("destination_key", the "destination_key" channel);
                     ("destination_value", the "destination_value" channel) ]
               | None =>
                   [ ("channel_id", PStr channel_id);
                     ("destination_channel_name", PNone);
                     ("destination_channel_type", PNone);
                     ("destination_id", PNone);
                     ("destination_key", PNone);
                     ("destination_value", PNone) ]
               end)
            <$> py_split ", " (the_str "destination_channel_ids" workflow))
         <$> workflows_data)).
Proof.
  intros Hws Hcs. exists (channel_index channels_data).
  split; [by apply channel_dict_of_Ok |].
  split; [apply channel_index_is_Some |].
  split.
  { intros id channel H.
    destruct (channel_dict_rows _ _ _ Hcs H) as (? & _ & ?). done. }
  by rewrite (map_workflows_with_channels_Ok _ _ Hws Hcs).
Qed.

(** The channel fields of a combined row: the channel_id is the piece
    itself, and without a channel row under the piece the five other fields
    are null. *)
Lemma combined_row_channel_id channels_data workflow channel_id :
  Forall ChannelDestinationRow channels_data →
  dict_get "channel_id"
    (combined_row (channel_index channels_data) workflow channel_id)
  = Some (PStr channel_id).
Proof.
  intros Hcs. unfold combined_row.
  destruct (channel_index channels_data !! channel_id) as [channel|] eqn:Hc;
    [| reflexivity].
  destruct (channel_dict_rows _ _ _ Hcs Hc) as (_ & _ & Hid).
  change (Some (the "channel_id" channel) = Some (PStr channel_id)).
  unfold the. by rewrite Hid.
Qed.

Lemma combined_row_unmatched channels_data workflow channel_id :
  channel_id ∉ the_str "channel_id" <$> channels_data →
  let row := combined_row (channel_index channels_data) workflow channel_id in
  dict_get "destination_channel_name" row = Some PNone ∧
  dict_get "destination_channel_type" row = Some PNone ∧
  dict_get "destination_id" row = Some PNone ∧
  dict_get "destination_key" row = Some PNone ∧
  dict_get "destination_value" row = Some PNone.
Proof.
  intros Hnot row. unfold row, combined_row.
  destruct (channel_index channels_data !! channel_id) as [channel|] eqn:Hc.
  - exfalso. apply Hnot, channel_index_is_Some. by exists channel.
  - repeat split.
Qed.

(** The workflow fields of a combined row are those of the workflow row. *)
Lemma combined_row_workflow_fields channel_dict workflow channel_id k :
  k ∈ workflow_columns →
  dict_get k (combined_row channel_dict workflow channel_id)
  = Some (the k workflow).
Proof.
  intros Hk. unfold combined_row, workflow_columns in *.
  repeat (apply elem_of_cons in Hk as [-> | Hk]; [reflexivity |]).
  by apply elem_of_nil in Hk.
Qed.

(** C10 (as amended). Join Stage D: every workflow row adds at least one
    row, as many as destination_channel_ids has pieces.  When
    destination_channel_ids is the empty string, the split yields the single
    piece "" and the workflow row adds exactly one row, whose channel_id is
    the empty string; the five other channel and destination fields of that
    row are null when no channel row has the empty string as channel_id. *)
Theorem stage_D_at_least_one_row workflows_data channels_data :
  Forall WorkflowAlertRow workflows_data →
  Forall ChannelDestinationRow channels_data →
  ∃ rows_of : list (list (dict pyval)),
    map_workflows_with_channels workflows_data channels_data
      = Ok (concat rows_of) ∧
    Forall2 (λ workflow rows,
        rows ≠ [] ∧
        length rows
          = length (py_split ", " (the_str "destination_channel_ids" workflow)) ∧
        (dict_get "destination_channel_ids" workflow = Some (PStr "") →
           ∃ row,
             rows = [row] ∧
             dict_get "channel_id" row = Some (PStr "") ∧
             ("" ∉ the_str "channel_id" <$> channels_data →
                dict_get "destination_channel_name" row = Some PNone ∧
                dict_get "destination_channel_type" row = Some PNone ∧
                dict_get "destination_id" row = Some PNone ∧
                dict_get "destination_key" row = Some PNone ∧
                dict_get "destination_value" row = Some PNone)))
      workflows_data rows_of.
Proof.
  intros Hws Hcs. eexists. split.
  { by apply map_workflows_with_channels_Ok. }
  apply Forall2_fmap_r, Forall_Forall2_diag, Forall_forall.
  intros workflow _. split; [| split].
  - intros Hnil%fmap_nil_inv. by apply py_split_nonempty in Hnil.
  - by rewrite length_fmap.
  - intros Hids. unfold the_str. rewrite Hids.
    eexists. split; [reflexivity |]. split.
    + by apply combined_row_channel_id.
    + apply combined_row_unmatched.
Qed.

End StageD.

(** Two pieces, the first a known channel id, the second not. *)
Lemma stage_D_rows_witness :
  map_workflows_with_channels [workflow_row "ch1, ch9"] [channel_data_row "ch1"]
  = Ok [ workflow_row "ch1, ch9" ++
           [ ("channel_id", PStr "ch1");
             ("destination_channel_name", PStr "ops");
             ("destination_channel_type", PStr "EMAIL");
             ("destination_id", PStr "d1");
             ("destination_key", PStr "email");
             ("destination_value", PStr "a@x.com") ];
         workflow_row "ch1, ch9" ++
           [ ("channel_id", PStr "ch9");
             ("destination_channel_name", PNone);
             ("destination_channel_type", PNone);
             ("destination_id", PNone);
             ("destination_key", PNone);
             ("destination_value", PNone) ] ].
Proof.
  destruct (stage_D_rows [workflow_row "ch1, ch9"] [channel_data_row "ch1"])
    as (channel_dict & Hd & _ & _ & ->).
  - repeat constructor; by eexists.
  - repeat constructor; by eexists.
  - vm_compute in Hd. injection Hd as <-. by vm_compute.
Defined.

(** A workflow row without channel ids still gives one row. *)
Lemma stage_D_at_least_one_row_witness :
  ∃ row,
    map_workflows_with_channels [workflow_row ""] [channel_data_row "ch1"]
      = Ok [row] ∧
    dict_get "channel_id" row = Some (PStr "") ∧
    dict_get "destination_channel_name" row = Some PNone.
Proof.
  destruct (stage_D_at_least_one_row [workflow_row ""] [channel_data_row "ch1"])
    as (rows_of & -> & Hrows).
  - repeat constructor; by eexists.
  - repeat constructor; by eexists.
  - apply Forall2_cons_inv_l in Hrows
      as (rows & rest & (_ & _ & Hempty) & ->%Forall2_nil_inv_l & ->).
    destruct (Hempty eq_refl) as (row & -> & Hid & Hnull).
    exists row. split; [reflexivity |]. split; [done |].
    apply Hnull. by apply (bool_decide_unpack _).
Defined.

(** The property without its proviso (a workflow row whose
    destination_channel_ids is empty gives one row with channel_id "" and
    null channel and destination fields) fails when a channel row has the
    empty string as channel_id: the piece "" is then a key of the mapping, and the row
    carries that channel row's fields. *)
Lemma stage_D_empty_channel_id_found :
  WorkflowAlertRow (workflow_row "") ∧
  ChannelDestinationRow (channel_data_row "") ∧
  dict_get "destination_channel_ids" (workflow_row "") = Some (PStr "") ∧
  ¬ ∃ row,
      map_workflows_with_channels [workflow_row ""] [channel_data_row ""]
        = Ok [row] ∧
      dict_get "channel_id" row = Some (PStr "") ∧
      dict_get "destination_channel_name" row = Some PNone ∧
      dict_get "destination_channel_type" row = Some PNone ∧
      dict_get "destination_id" row = Some PNone ∧
      dict_get "destination_key" row = Some PNone ∧
      dict_get "destination_value" row = Some PNone.
Proof.
  split; [repeat constructor; by eexists |].
  split; [repeat constructor; by eexists |].
  split; [reflexivity |].
  intros (row & Hrow & _ & Hname & _).
  vm_compute in Hrow. injection Hrow as <-. by vm_compute in Hname.
Qed.

(** ** Which joins keep their left side *)

Section Joins.
Context (repr_str : string → string).

Lemma elem_of_concat {A : Type} (x : A) (ls : list (list A)) :
  x ∈ concat ls ↔ ∃ l, l ∈ ls ∧ x ∈ l.
Proof.
  induction ls as [|l ls IH]; simpl.
  - rewrite elem_of_nil. split; [done | intros (l & []%elem_of_nil & _)].
  - rewrite elem_of_app, IH. split.
    + intros [H | (l' & ? & ?)].
      * exists l. split; [apply list_elem_of_here | done].
      * exists l'. split; [by apply list_elem_of_further | done].
    + intros (l' & [-> | ?]%elem_of_cons & ?); [by left |].
      right. by exists l'.
Qed.

(** The rows of Stage A are exactly the rows of the conditions whose
    policyId is a key of the policy mapping. *)
Lemma map_policies_to_conditions_elem policies conditions row :
  row ∈ map_policies_to_conditions repr_str policies conditions ↔
  ∃ c policy,
    c ∈ conditions ∧
    policy_dict_of policies !! NrqlCondition.policyId c = Some policy ∧
    map_policies_to_conditions repr_str policies [c] = [row].
Proof.
  unfold map_policies_to_conditions at 1.
  rewrite (foldl_appends (λ mapped_data condition,
    match policy_dict_of policies !! NrqlCondition.policyId condition with
    | Some policy => mapped_data ++ [_]
    | None => mapped_data
    end)).
  2:{ intros acc x. destruct (_ !! _); simpl; by rewrite ?app_nil_r. }
  simpl. rewrite elem_of_concat. split.
  - intros (l & (c & -> & Hc)%list_elem_of_fmap & Hrow).
    destruct (policy_dict_of policies !! _) as [policy|] eqn:Hp;
      [| by apply elem_of_nil in Hrow].
    apply list_elem_of_singleton in Hrow as ->.
    exists c, policy. repeat split; [done.. |].
    unfold map_policies_to_conditions. simpl. by rewrite Hp.
  - intros (c & policy & Hc & Hp & Hrow).
    eexists. split; [by apply list_elem_of_fmap_2 |].
    unfold map_policies_to_conditions in Hrow. simpl in Hrow.
    rewrite Hp in *. simpl in Hrow. injection Hrow as <-.
    apply list_elem_of_here.
Qed.

(** The rows one predicate adds. *)
Lemma process_predicate_rows d name id ids (p : Predicate.t) :
  process_predicate d name id ids [] p =
    if decide (Predicate.attribute p = "labels.policyIds") then
      omap (λ policy_id,
          alert_policy ← d !! policy_id;
          Some (policy_id_row name id ids alert_policy policy_id p))
        (Predicate.values p)
    else if decide (Predicate.attribute p = "accumulations.policyName") then
      [policy_name_row name id ids p]
    else [].
Proof.
  unfold process_predicate. repeat case_decide; try done.
  rewrite (foldl_appends (λ processed_data policy_id,
    match d !! policy_id with
    | Some alert_policy => processed_data ++ [_]
    | None => processed_data
    end)).
  2:{ intros acc' x. destruct (d !! x); simpl; by rewrite ?app_nil_r. }
  simpl. induction (Predicate.values p) as [|v vs IH]; [done |].
  csimpl. rewrite IH. by destruct (d !! v).
Qed.

(** The rows of Stage B come from the predicates of the workflows that have
    an issues filter: from a value of a "labels.policyIds" predicate that is
    a key of the mapping, or from an "accumulations.policyName" predicate. *)
Lemma process_workflows_elem workflows aps row :
  row ∈ process_workflows workflows aps ↔
  ∃ w f p,
    w ∈ workflows ∧ Workflow.issuesFilter w = Some f ∧
    p ∈ IssuesFilter.predicates f ∧
    let ids := DestinationConfiguration.channelId
                 <$> Workflow.destinationConfigurations w in
    ((Predicate.attribute p = "labels.policyIds" ∧
      ∃ policy_id alert_policy,
        policy_id ∈ Predicate.values p ∧
        alert_policy_dict_of aps !! policy_id = Some alert_policy ∧
        row = policy_id_row (Workflow.name w) (Workflow.id w) ids
                alert_policy policy_id p)
     ∨ (Predicate.attribute p = "accumulations.policyName" ∧
        row = policy_name_row (Workflow.name w) (Workflow.id w) ids p)).
Proof.
  unfold process_workflows.
  rewrite (foldl_appends _ (process_workflow_appends _)). simpl.
  rewrite elem_of_concat. split.
  - intros (l & (w & -> & Hw)%list_elem_of_fmap & Hrow).
    unfold process_workflow in Hrow.
    destruct (Workflow.issuesFilter w) as [f|] eqn:Hf;
      [| by apply elem_of_nil in Hrow].
    rewrite (foldl_appends _ (process_predicate_appends _ _ _ _)) in Hrow.
    simpl in Hrow. apply elem_of_concat in Hrow
      as (l & (p & -> & Hp)%list_elem_of_fmap & Hrow).
    exists w, f, p. repeat split; [done.. |].
    rewrite process_predicate_rows in Hrow. repeat case_decide.
    + left. split; [done |].
      apply list_elem_of_omap in Hrow as (policy_id & Hin & Hrow).
      destruct (_ !! policy_id) as [alert_policy|] eqn:Hd; [| done].
      exists policy_id, alert_policy. by simplify_eq/=.
    + right. split; [done |]. by apply list_elem_of_singleton in Hrow.
    + by apply elem_of_nil in Hrow.
  - intros (w & f & p & Hw & Hf & Hp & Hrow).
    eexists. split; [by apply list_elem_of_fmap_2 |].
    unfold process_workflow. rewrite Hf.
    rewrite (foldl_appends _ (process_predicate_appends _ _ _ _)). simpl.
    apply elem_of_concat. eexists. split; [by apply list_elem_of_fmap_2 |].
    rewrite process_predicate_rows.
    destruct Hrow as [[Hattr (policy_id & ap & Hin & Hd & ->)] | [Hattr ->]].
    + rewrite decide_True by done. apply list_elem_of_omap.
      exists policy_id. split; [done |]. by rewrite Hd.
    + rewrite decide_False by (by rewrite Hattr).
      rewrite decide_True by done. apply list_elem_of_here.
Qed.

(** The rows of Stage A, written out: one for each condition whose policyId
    is a key of the policy mapping, made of that policy and the condition. *)
Lemma map_policies_to_conditions_rows policies conditions row :
  row ∈ map_policies_to_conditions repr_str policies conditions ↔
  ∃ c policy,
    c ∈ conditions ∧
    policy_dict_of policies !! NrqlCondition.policyId c = Some policy ∧
    row = {| JoinedPolicyCondition.alert_policy_name := Policy.name policy;
             JoinedPolicyCondition.alert_policy_id := Policy.id policy;
             JoinedPolicyCondition.nrql_condition_id := NrqlCondition.id c;
             JoinedPolicyCondition.alert_condition_name := NrqlCondition.name c;
             JoinedPolicyCondition.nrql_query := NrqlCondition.nrql_query c;
             JoinedPolicyCondition.nrql_condition :=
               py_join "; "
                 (format_term repr_str <$> NrqlCondition.terms c) |}.
Proof.
  rewrite map_policies_to_conditions_elem.
  split; intros (c & policy & Hc & Hp & Hrow); exists c, policy;
    (split; [done |]; split; [done |]);
    unfold map_policies_to_conditions in *; simpl in *; rewrite Hp in *;
    simpl in *.
  - by injection Hrow as <-.
  - by subst.
Qed.

(** C6 (as amended). Stages C and D are left-outer joins keyed on a foreign
    id: every channel has a row in the output of Stage C, and every workflow
    row has a row in the output of Stage D, with its own fields unchanged;
    where the right side is missing the row is there with null fields in its
    place: for a channel whose destinationId is the id of no destination, or
    whose destination has no "email" or "url" property, the row with null
    destination_key and destination_value; for a piece of
    destination_channel_ids that is the channel_id of no channel row, the row
    with the piece as channel_id and the five other channel fields null.
    Stage A and the policy-id branch of Stage B are inner joins: their rows
    are exactly those of the conditions, and of the predicate values, whose
    policy id is a key of the mapping, each made of the policy and the
    condition, or of the workflow, the Stage A row and the predicate; Stage B
    has no other row than these and the rows of the
    "accumulations.policyName" predicates. *)
Theorem joins_left_side :
  (∀ channels destinations ch,
     ch ∈ channels →
     let null_row : dict pyval :=
       [ ("channel_id", PStr (Channel.id ch));
         ("channel_name", Channel.name ch);
         ("channel_type", Channel.type ch);
         ("destination_id", PStr (Channel.destinationId ch));
         ("destination_key", PNone);
         ("destination_value", PNone) ] in
     (∃ row,
        row ∈ map_channels_to_destinations channels destinations ∧
        dict_get "channel_id" row = Some (PStr (Channel.id ch)) ∧
        dict_get "channel_name" row = Some (Channel.name ch) ∧
        dict_get "channel_type" row = Some (Channel.type ch) ∧
        dict_get "destination_id" row
          = Some (PStr (Channel.destinationId ch))) ∧
     (Channel.destinationId ch ∉ Destination.id <$> destinations →
        null_row ∈ map_channels_to_destinations channels destinations) ∧
     (∀ destination,
        destination_dict_of destinations !! Channel.destinationId ch
          = Some destination →
        filter (λ prop, Property.key prop = "email"
                        ∨ Property.key prop = "url")
          (Destination.properties destination) = [] →
        null_row ∈ map_channels_to_destinations channels destinations)) ∧
  (∀ workflows_data channels_data,
     Forall WorkflowAlertRow workflows_data →
     Forall ChannelDestinationRow channels_data →
     ∃ out,
       map_workflows_with_channels workflows_data channels_data = Ok out ∧
       ∀ workflow, workflow ∈ workflows_data →
         (∃ row, row ∈ out ∧
            ∀ k, k ∈ workflow_columns →
              dict_get k row = dict_get k workflow) ∧
         (∀ channel_id,
            channel_id
              ∈ py_split ", " (the_str "destination_channel_ids" workflow) →
            channel_id ∉ the_str "channel_id" <$> channels_data →
            ((λ k, (k, the k workflow)) <$> workflow_columns) ++
            [ ("channel_id", PStr channel_id);
              ("destination_channel_name", PNone);
              ("destination_channel_type", PNone);
              ("destination_id", PNone);
              ("destination_key", PNone);
              ("destination_value", PNone) ] ∈ out)) ∧
  (∀ policies conditions row,
     row ∈ map_policies_to_conditions repr_str policies conditions ↔
     ∃ c policy,
       c ∈ conditions ∧
       policy_dict_of policies !! NrqlCondition.policyId c = Some policy ∧
       row = {| JoinedPolicyCondition.alert_policy_name := Policy.name policy;
                JoinedPolicyCondition.alert_policy_id := Policy.id policy;
                JoinedPolicyCondition.nrql_condition_id := NrqlCondition.id c;
                JoinedPolicyCondition.alert_condition_name :=
                  NrqlCondition.name c;
                JoinedPolicyCondition.nrql_query := NrqlCondition.nrql_query c;
                JoinedPolicyCondition.nrql_condition :=
                  py_join "; "
                    (format_term repr_str <$> NrqlCondition.terms c) |}) ∧
  (∀ workflows aps row,
     row ∈ process_workflows workflows aps ↔
     ∃ w f p,
       w ∈ workflows ∧ Workflow.issuesFilter w = Some f ∧
       p ∈ IssuesFilter.predicates f ∧
       let ids := DestinationConfiguration.channelId
                    <$> Workflow.destinationConfigurations w in
       ((Predicate.attribute p = "labels.policyIds" ∧
         ∃ policy_id alert_policy,
           policy_id ∈ Predicate.values p ∧
           alert_policy_dict_of aps !! policy_id = Some alert_policy ∧
           row = policy_id_row (Workflow.name w) (Workflow.id w) ids
                   alert_policy policy_id p)
        ∨ (Predicate.attribute p = "accumulations.policyName" ∧
           row = policy_name_row (Workflow.name w) (Workflow.id w) ids p))).
Proof.
  split; [| split; [| split]].
  - intros channels destinations ch
      (chs1 & chs2 & ->)%list_elem_of_split null_row.
    change (ch :: chs2) with ([ch] ++ chs2).
    rewrite !map_channels_to_destinations_app, map_channel_rows.
    split; [| split].
    + destruct (_ !! _) as [destination|].
      * destruct (filter _ _) as [|prop props];
          (eexists; split;
           [rewrite !elem_of_app; right; left; apply list_elem_of_here
           | repeat split]).
      * eexists; split;
          [rewrite !elem_of_app; right; left; apply list_elem_of_here
          | repeat split].
    + intros Hnot.
      destruct (_ !! _) as [destination|] eqn:Hd.
      * exfalso. apply Hnot, destination_dict_is_Some. by exists destination.
      * rewrite !elem_of_app. right. left. apply list_elem_of_here.
    + intros destination Hd Hnone. rewrite Hd, Hnone.
      rewrite !elem_of_app. right. left. apply list_elem_of_here.
  - intros workflows_data channels_data Hws Hcs.
    eexists. split; [by apply map_workflows_with_channels_Ok |].
    intros workflow Hin.
    pose proof (proj1 (Forall_forall _ _) Hws _ Hin) as [Hcols _].
    split.
    + destruct (py_split ", " (the_str "destination_channel_ids" workflow))
        as [|channel_id ids] eqn:Hsplit;
        [by apply py_split_nonempty in Hsplit |].
      exists (combined_row (channel_index channels_data) workflow channel_id).
      split.
      * apply elem_of_concat. eexists.
        split; [by apply list_elem_of_fmap_2 |].
        rewrite Hsplit. apply list_elem_of_here.
      * intros k Hk. rewrite (combined_row_workflow_fields _ _ _ _ Hk).
        destruct (proj1 (Forall_forall _ _) Hcols _ Hk) as [v Hv].
        unfold the. by rewrite Hv.
    + intros channel_id Hpiece Hnot.
      apply elem_of_concat. eexists.
      split; [by apply list_elem_of_fmap_2 |].
      apply list_elem_of_fmap. exists channel_id. split; [| done].
      unfold combined_row.
      destruct (channel_index channels_data !! channel_id) as [channel|] eqn:Hc;
        [| done].
      exfalso. apply Hnot, channel_index_is_Some. by exists channel.
  - apply map_policies_to_conditions_rows.
  - apply process_workflows_elem.
Qed.

End Joins.

(** Each of the channels of the sample has its row in Stage C, the channel
    of an unknown destination with null key and value; the workflow row has
    its rows in Stage D, the one for the unknown channel "ch9" with null
    channel fields; and the condition of the policy "CPU High" has its row in
    Stage A. *)
Lemma joins_left_side_witness :
  (∃ row,
     row ∈ map_channels_to_destinations
             [sample_channel "ch1" "d1"; sample_channel "ch3" "d9"]
             [mail_destination] ∧
     dict_get "channel_id" row = Some (PStr "ch3")) ∧
  channel_row (sample_channel "ch3" "d9") PNone PNone
    ∈ map_channels_to_destinations
        [sample_channel "ch1" "d1"; sample_channel "ch3" "d9"]
        [mail_destination] ∧
  (∃ out,
     map_workflows_with_channels [workflow_row "ch9"] [channel_data_row "ch1"]
       = Ok out ∧
     (∃ row, row ∈ out ∧ dict_get "workflow_id" row = Some (PStr "w1")) ∧
     workflow_row "ch9" ++ null_channel_fields "ch9" ∈ out) ∧
  cpu_row ∈ map_policies_to_conditions quote_repr [cpu_policy]
              [orphan_condition; cpu_condition].
Proof.
  destruct (joins_left_side quote_repr) as (HC & HD & HA & _).
  split; [| split; [| split]].
  - destruct (HC [sample_channel "ch1" "d1"; sample_channel "ch3" "d9"]
                [mail_destination] (sample_channel "ch3" "d9"))
      as ((row & Hin & Hid & _) & _).
    { apply list_elem_of_further, list_elem_of_here. }
    by exists row.
  - destruct (HC [sample_channel "ch1" "d1"; sample_channel "ch3" "d9"]
                [mail_destination] (sample_channel "ch3" "d9"))
      as (_ & Hnull & _).
    { apply list_elem_of_further, list_elem_of_here. }
    apply Hnull. by apply (bool_decide_unpack _).
  - destruct (HD [workflow_row "ch9"] [channel_data_row "ch1"])
      as (out & Hout & Hrows).
    { repeat constructor; by eexists. }
    { repeat constructor; by eexists. }
    exists out. split; [done |].
    destruct (Hrows (workflow_row "ch9")) as ((row & Hin & Hk) & Hnull).
    { apply list_elem_of_here. }
    split.
    + exists row. split; [done |]. rewrite Hk; [done |].
      by apply (bool_decide_unpack _).
    + apply (Hnull "ch9"); [apply list_elem_of_here |].
      by apply (bool_decide_unpack _).
  - apply HA. exists cpu_condition, cpu_policy.
    split; [apply list_elem_of_further, list_elem_of_here |].
    split; reflexivity.
Defined.

(** That the left side of every join is kept fails in Stage A: the condition of a policy that was not fetched has no row. *)
Lemma stage_A_drops_unmatched_condition :
  orphan_condition ∈ [orphan_condition] ∧
  map_policies_to_conditions quote_repr [cpu_policy] [orphan_condition] = [] ∧
  ¬ ∃ row,
      row ∈ map_policies_to_conditions quote_repr [cpu_policy] [orphan_condition] ∧
      JoinedPolicyCondition.nrql_condition_id row
        = NrqlCondition.id orphan_condition.
Proof.
  split; [apply list_elem_of_here |]. split; [reflexivity |].
  intros (row & Hin & _). by apply elem_of_nil in Hin.
Qed.

(** ** The API client and the fetch loops *)

Section Fetch.
Context (ACCOUNT_ID : Z) (server : Server).

(** What one call of the API client does. *)
Lemma fetch_data_run query variables w :
  fetch_data server query variables w =
    (match server (sent w) {| query := query; variables := variables |} with
     | NoResponse => Raise RequestException
     | Responded response =>
         if bool_decide (400 ≤ status_code response < 600)
         then Raise (HTTPError (status_code response))
         else match json response with
              | Some body => Ok body
              | None => Raise JSONDecodeError
              end
     end,
     {| sent := sent w ++ [{| query := query; variables := variables |}];
        files := files w |}).
Proof.
  unfold fetch_data, requests_post, raise_for_status, response_json, lift,
    mbind, IO_bind.
  destruct (server _ _) as [|response]; [done |].
  case_bool_decide; [done |]. by destruct (json response).
Qed.

Section Loop.
Context {E : Type} (query : Query)
  (extract : Body → result (list E * option string)).

Local Abbreviation loop := (fetch_all_pages ACCOUNT_ID server query extract).

(** One iteration of a fetch loop. *)
Lemma fetch_all_pages_step fuel cursor acc w :
  loop (S fuel) cursor acc w =
    match fetch_data server query
            {| accountId := ACCOUNT_ID; cursor := Some cursor |} w with
    | (Ok data, w') =>
        match extract data with
        | Ok page =>
            match page.2 with
            | Some (String c s) => loop fuel (String c s) (acc ++ page.1) w'
            | _ => (Ok (acc ++ page.1), w')
            end
        | Raise e => (Raise e, w')
        | Timeout => (Timeout, w')
        end
    | (Raise e, w') => (Raise e, w')
    | (Timeout, w') => (Timeout, w')
    end.
Proof.
  simpl. unfold mbind, IO_bind, lift at 1.
  destruct (fetch_data _ _ _ _) as [[data| |] w']; try done.
  simpl. destruct (extract data) as [[entities [[|c s]|]]| |]; done.
Qed.

(** An exception of the API client ends the loop: nothing catches it. *)
Lemma fetch_all_pages_raise fuel cursor acc w e w' :
  fetch_data server query
    {| accountId := ACCOUNT_ID; cursor := Some cursor |} w = (Raise e, w') →
  loop (S fuel) cursor acc w = (Raise e, w').
Proof. intros H. by rewrite fetch_all_pages_step, H. Qed.

Lemma serves_fetch log cursor pages files :
  serves ACCOUNT_ID server query extract log cursor pages →
  ∀ fuel acc,
    ((length pages ≤ fuel)%nat →
       loop fuel cursor acc {| sent := log; files := files |}
       = (Ok (acc ++ concat pages.*1),
          {| sent := log ++ page_requests ACCOUNT_ID query cursor pages;
             files := files |})) ∧
    ((fuel < length pages)%nat →
       (loop fuel cursor acc {| sent := log; files := files |}).1 = Timeout).
Proof.
  induction 1 as [log cursor response body entities nextCursor Hs Hok Hj He Hl
                 |log cursor response body entities c s pages Hs Hok Hj He _ IH];
    intros fuel acc; unfold page_request in *.
  - split; intros Hfuel.
    + destruct fuel as [|fuel]; [simpl in Hfuel; exfalso; lia |].
      rewrite fetch_all_pages_step, fetch_data_run. simpl.
      rewrite Hs.
      rewrite bool_decide_eq_false_2 by done. rewrite Hj, He. simpl.
      rewrite app_nil_r. unfold is_last in Hl. by destruct Hl as [-> | ->].
    + destruct fuel as [|fuel]; [done | simpl in Hfuel; exfalso; lia].
  - split; intros Hfuel.
    + destruct fuel as [|fuel]; [simpl in Hfuel; exfalso; lia |].
      rewrite fetch_all_pages_step, fetch_data_run. simpl.
      rewrite Hs.
      rewrite bool_decide_eq_false_2 by done. rewrite Hj, He. simpl.
      destruct (IH fuel (acc ++ entities)) as [IH1 _].
      rewrite IH1 by (simpl in Hfuel; lia).
      simpl. by rewrite <- !app_assoc.
    + destruct fuel as [|fuel]; [done |].
      rewrite fetch_all_pages_step, fetch_data_run. simpl.
      rewrite Hs.
      rewrite bool_decide_eq_false_2 by done. rewrite Hj, He. simpl.
      apply IH. simpl in Hfuel. lia.
Qed.



End Loop.


End Fetch.


(** ** Nothing catches an exception of the client *)

Section Trace.
Context (server : Server).

Lemma propagates_pure {A : Type} (m : IO A) :
  (∀ w, sent (m w).2 = sent w) → propagates server m.
Proof.
  intros Hm w. exists []. split; [by rewrite Hm, app_nil_r |].
  by intros i request e fs ?.
Qed.

Lemma propagates_bind {A B : Type} (m : IO A) (f : A → IO B) :
  propagates server m → (∀ a, propagates server (f a)) →
  propagates server (m ≫= f).
Proof.
  intros Hm Hf w. destruct (Hm w) as (reqs1 & Hsent1 & Hraise1).
  unfold mbind, IO_bind.
  destruct (m w) as [[a|e1|] w1] eqn:Hmw; simpl in *.
  - destruct (Hf a w1) as (reqs2 & Hsent2 & Hraise2).
    exists (reqs1 ++ reqs2). split; [by rewrite Hsent2, Hsent1, app_assoc |].
    intros i request e fs Hi Hrun.
    destruct (decide (i < length reqs1)%nat) as [Hlt | Hge].
    + rewrite lookup_app_l in Hi by done.
      rewrite take_app_le in Hrun by lia.
      by destruct (Hraise1 i request e fs Hi Hrun).
    + rewrite lookup_app_r in Hi by lia.
      rewrite take_app_ge, app_assoc, <- Hsent1 in Hrun by lia.
      destruct (Hraise2 _ request e fs Hi Hrun) as [Hr Hlen].
      split; [done |]. rewrite length_app. lia.
  - exists reqs1. split; [done |]. intros i request e fs Hi Hrun.
    destruct (Hraise1 i request e fs Hi Hrun) as [[= ->] Hlen]. done.
  - exists reqs1. split; [done |]. intros i request e fs Hi Hrun.
    by destruct (Hraise1 i request e fs Hi Hrun).
Qed.

Lemma propagates_fetch_data query variables :
  propagates server (fetch_data server query variables).
Proof.
  intros w. exists [{| query := query; variables := variables |}].
  split; [by rewrite fetch_data_run |].
  intros i request e fs [-> <-]%list_lookup_singleton_Some.
  rewrite !fetch_data_run. simpl. rewrite app_nil_r. by intros ->.
Qed.

Lemma propagates_lift {A : Type} (r : result A) : propagates server (lift r).
Proof. by apply propagates_pure. Qed.

Lemma propagates_fetch_all_pages {E : Type} ACCOUNT_ID query
    (extract : Body → result (list E * option string)) fuel :
  ∀ cursor acc,
    propagates server
      (fetch_all_pages ACCOUNT_ID server query extract fuel cursor acc).
Proof.
  induction fuel as [|fuel IH]; intros cursor acc; [apply propagates_lift |].
  simpl. apply propagates_bind; [apply propagates_fetch_data |].
  intros data. apply propagates_bind; [apply propagates_lift |].
  intros [entities [[|c s]|]]; simpl;
    [by apply propagates_pure | apply IH | by apply propagates_pure].
Qed.

Lemma propagates_write_to_csv repr_str data filename :
  propagates server (write_to_csv repr_str data filename).
Proof.
  apply propagates_pure. intros w. unfold write_to_csv.
  by destruct (csv_dump repr_str data).
Qed.

Lemma propagates_read_csv filename : propagates server (read_csv filename).
Proof.
  apply propagates_pure. intros w. unfold read_csv.
  by destruct (files w !! filename).
Qed.

(** The whole run: an exception of the client, at whichever of its requests,
    is the outcome of the run, and that request is the last. *)
Lemma propagates_main repr_str ACCOUNT_ID fuel :
  propagates server (main repr_str ACCOUNT_ID server fuel).
Proof.
  unfold main, generate_workflows_with_alert_policies,
    generate_channels_and_destinations, generate_workflows_with_channels,
    get_alert_policies_and_conditions, get_workflows,
    get_channels_and_destinations, fetch_policies, fetch_nrql_conditions,
    fetch_channels.
  repeat first
    [ apply propagates_fetch_all_pages
    | apply propagates_fetch_data
    | apply propagates_lift
    | apply propagates_write_to_csv
    | apply propagates_read_csv
    | by apply propagates_pure
    | apply propagates_bind; [| intros ?] ].
Qed.

End Trace.

(** ** The API client *)

Section Client.
Context (server : Server).

(** C9 (as amended). The API client posts exactly one request and never
    retries.  It raises when the transport fails, when the status of the
    response is 4xx or 5xx, and when the body of a response with another
    status is not JSON; otherwise it returns the parsed body.  Nothing
    catches what it raises: the exception ends the fetch loop in which it
    occurs, at whichever iteration, and it ends the run, at whichever request
    of the run it occurs (in a loop of either part or at the request for the
    destinations): the loop and the run raise that exception, and the
    request is the last one they send. *)
Theorem fetch_data_outcome query variables w :
  let request := {| query := query; variables := variables |} in
  let run := fetch_data server query variables w in
  sent run.2 = sent w ++ [request] ∧
  files run.2 = files w ∧
  (server (sent w) request = NoResponse → run.1 = Raise RequestException) ∧
  (∀ response,
     server (sent w) request = Responded response →
     (400 ≤ status_code response < 600 →
        run.1 = Raise (HTTPError (status_code response))) ∧
     (¬ (400 ≤ status_code response < 600) →
        (∀ body, json response = Some body → run.1 = Ok body) ∧
        (json response = None → run.1 = Raise JSONDecodeError))) ∧
  (∀ e, run.1 = Raise e →
     (∀ (E : Type) (extract : Body → result (list E * option string))
         ACCOUNT_ID fuel cursor acc,
        variables = {| accountId := ACCOUNT_ID; cursor := Some cursor |} →
        fetch_all_pages ACCOUNT_ID server query extract (S fuel) cursor acc w
        = (Raise e, run.2)) ∧
     (∀ repr_str ACCOUNT_ID fuel,
        query = policiesSearch_query →
        variables = {| accountId := ACCOUNT_ID; cursor := Some "" |} →
        main repr_str ACCOUNT_ID server (S fuel) w = (Raise e, run.2)) ∧
     (∀ (E : Type) (extract : Body → result (list E * option string))
         ACCOUNT_ID loop_query fuel cursor acc w0,
        let out := fetch_all_pages ACCOUNT_ID server loop_query extract
                     fuel cursor acc w0 in
        ∃ reqs,
          sent out.2 = sent w0 ++ reqs ∧
          ∀ i, reqs !! i = Some request →
               sent w = sent w0 ++ take i reqs →
               out.1 = Raise e ∧ length reqs = S i) ∧
     (∀ repr_str ACCOUNT_ID fuel w0,
        let out := main repr_str ACCOUNT_ID server fuel w0 in
        ∃ reqs,
          sent out.2 = sent w0 ++ reqs ∧
          ∀ i, reqs !! i = Some request →
               sent w = sent w0 ++ take i reqs →
               out.1 = Raise e ∧ length reqs = S i)).
Proof.
  intros request run. unfold run. rewrite fetch_data_run. fold request. simpl.
  split; [done |]. split; [done |]. split; [by intros -> |]. split.
  - intros response ->. split.
    + intros Hs. by rewrite bool_decide_eq_true_2.
    + intros Hs. rewrite bool_decide_eq_false_2 by done.
      split; [by intros body -> | by intros ->].
  - intros e He.
    assert (fetch_data server query variables w
            = (Raise e, {| sent := sent w ++ [request]; files := files w |}))
      as Hrun.
    { rewrite fetch_data_run. fold request. by rewrite He. }
    assert (∀ (A : Type) (m : IO A) w0,
              propagates server m →
              ∃ reqs,
                sent (m w0).2 = sent w0 ++ reqs ∧
                ∀ i, reqs !! i = Some request →
                     sent w = sent w0 ++ take i reqs →
                     (m w0).1 = Raise e ∧ length reqs = S i) as Hany.
    { intros A m w0 Hm. destruct (Hm w0) as (reqs & Hsent & Hraise).
      exists reqs. split; [done |]. intros i Hi Hw.
      apply (Hraise i request e (files w) Hi).
      rewrite <- Hw. destruct w as [log fs]. simpl. by rewrite Hrun. }
    split; [| split; [| split]].
    + intros E extract ACCOUNT_ID fuel cursor acc Hv. subst variables.
      by apply fetch_all_pages_raise.
    + intros repr_str ACCOUNT_ID fuel -> Hv. subst variables.
      unfold main, generate_workflows_with_alert_policies,
        get_alert_policies_and_conditions, fetch_policies.
      unfold mbind, IO_bind.
      by rewrite (fetch_all_pages_raise _ _ _ _ _ _ _ _ _ _ Hrun).
    + intros E extract ACCOUNT_ID loop_query fuel cursor acc w0.
      apply Hany, propagates_fetch_all_pages.
    + intros repr_str ACCOUNT_ID fuel w0.
      apply Hany, propagates_main.
Qed.

End Client.

(** A 503 ends the run on the first request; a 200 with a JSON body is
    returned; a 500 on the request for the destinations, the fifth of the
    run, ends the run in Part 2. *)
Lemma fetch_data_outcome_witness :
  main quote_repr 7 unavailable_server 3 initial_world
  = (Raise (HTTPError 503),
     {| sent := [page_request 7 policiesSearch_query ""]; files := ∅ |}) ∧
  (fetch_data two_page_server policiesSearch_query
     {| accountId := 7; cursor := Some "" |} initial_world).1
  = Ok (PoliciesSearch [cpu_policy] (Some "next")) ∧
  (main quote_repr 7 no_destination_server 1 initial_world).1
  = Raise (HTTPError 500) ∧
  sent (main quote_repr 7 no_destination_server 1 initial_world).2
  = [page_request 7 policiesSearch_query "";
     page_request 7 nrqlConditionsSearch_query "";
     page_request 7 workflows_query "";
     page_request 7 channels_query "";
     destinations_request 7].
Proof.
  split; [| split; [| split]].
  - destruct (fetch_data_outcome unavailable_server policiesSearch_query
                {| accountId := 7; cursor := Some "" |} initial_world)
      as (_ & _ & _ & Hstatus & Hraise).
    destruct (Hstatus _ eq_refl) as [H503 _].
    destruct (Hraise _ (H503 ltac:(simpl; lia))) as (_ & Hmain & _).
    apply (Hmain quote_repr 7 2%nat eq_refl eq_refl).
  - destruct (fetch_data_outcome two_page_server policiesSearch_query
                {| accountId := 7; cursor := Some "" |} initial_world)
      as (_ & _ & _ & Hstatus & _).
    destruct (Hstatus _ eq_refl) as [_ H200].
    destruct (H200 ltac:(simpl; lia)) as [Hbody _].
    by apply Hbody.
  - destruct (fetch_data_outcome no_destination_server destinations_query
                {| accountId := 7; cursor := None |}
                {| sent := [page_request 7 policiesSearch_query "";
                            page_request 7 nrqlConditionsSearch_query "";
                            page_request 7 workflows_query "";
                            page_request 7 channels_query ""];
                   files := ∅ |})
      as (_ & _ & _ & Hstatus & Hraise).
    destruct (Hstatus _ eq_refl) as [H500 _].
    destruct (Hraise _ (H500 ltac:(simpl; lia))) as (_ & _ & _ & Hmain).
    destruct (Hmain quote_repr 7 1%nat initial_world)
      as (reqs & Hsent & Hlast).
    change (sent initial_world ++ reqs) with reqs in Hsent.
    apply (Hlast 4%nat); by rewrite <- Hsent.
  - reflexivity.
Defined.

(** That the parsed body is returned whenever the status is success, and an
    error raised exactly when it is not, fails on a response with status 200
    whose body is not JSON: the client raises. *)
Lemma fetch_data_raises_on_status_200 :
  let request := page_request 7 policiesSearch_query "" in
  html_server [] request = Responded {| status_code := 200; json := None |} ∧
  (fetch_data html_server policiesSearch_query (variables request)
     initial_world).1 = Raise JSONDecodeError ∧
  ¬ ∃ body,
      (fetch_data html_server policiesSearch_query (variables request)
         initial_world).1 = Ok body.
Proof. split; [done |]. split; [done |]. by intros [body ?]. Qed.

(** ** The tabular writer *)

Section Writer.
Context (repr_str : string → string).

Lemma string_app_assoc (a b c : string) : (a +:+ b) +:+ c = a +:+ (b +:+ c).
Proof.
  induction a as [|x a IH]; [done |].
  change (String x ((a +:+ b) +:+ c) = String x (a +:+ (b +:+ c))).
  by rewrite IH.
Qed.

Lemma string_app_nil_r (a : string) : a +:+ "" = a.
Proof.
  induction a as [|x a IH]; [done |].
  change (String x (a +:+ "") = String x a). by rewrite IH.
Qed.

Lemma dict_get_is_Some {V : Type} (k : string) (d : dict V) :
  k ∈ dict_keys d → is_Some (dict_get k d).
Proof.
  induction d as [|[k' v] d IH]; simpl; [by intros ?%elem_of_nil |].
  intros [-> | Hin]%elem_of_cons.
  - rewrite decide_True by done. by eexists.
  - case_decide; [by eexists | by apply IH].
Qed.

(** A dict whose keys are the field names is written as its values in the
    order of the field names. *)
Lemma dict_to_list_uniform fieldnames rowdict :
  (∀ k, k ∈ dict_keys rowdict ↔ k ∈ fieldnames) →
  dict_to_list fieldnames rowdict = Ok ((λ key, the key rowdict) <$> fieldnames).
Proof.
  intros Hkeys. unfold dict_to_list.
  assert (forallb (λ k, bool_decide (k ∈ fieldnames)) (dict_keys rowdict)
          = true) as ->.
  { apply forallb_forall. intros k Hk%list_elem_of_In.
    apply bool_decide_eq_true. by apply Hkeys. }
  f_equal. apply list_fmap_ext. intros i key Hkey%list_elem_of_lookup_2.
  unfold the.
  destruct (dict_get_is_Some key rowdict) as [v ->]; [by apply Hkeys | done].
Qed.

Lemma writerows_uniform fieldnames rowdicts content :
  (∀ row, row ∈ rowdicts → ∀ k, k ∈ dict_keys row ↔ k ∈ fieldnames) →
  writerows repr_str fieldnames rowdicts content =
    (Ok (),
     content +:+
     concat_text
       ((λ row, csv.writerow
                  ((λ key, csv_text repr_str (the key row)) <$> fieldnames))
        <$> rowdicts)).
Proof.
  revert content. induction rowdicts as [|row rows IH]; intros content Hu.
  - simpl. by rewrite string_app_nil_r.
  - simpl. rewrite dict_to_list_uniform by (apply Hu, list_elem_of_here).
    rewrite IH by (intros r Hr; by apply Hu, list_elem_of_further).
    by rewrite <- list_fmap_compose, string_app_assoc.
Qed.

(** C8. The tabular writer, given a non-empty sequence of mappings with the
    same keys, writes the header (the keys of the first record, in their
    order) and then one line per record, in the order of the records, with
    the record's values in the column order of the header; given an empty
    sequence it raises, and the file it has opened stays empty: no header is
    written. *)
Theorem write_to_csv_layout data filename w :
  (data = [] →
     write_to_csv repr_str data filename w
     = (Raise IndexError,
        {| sent := sent w; files := <[filename := ""]> (files w) |})) ∧
  (∀ first data',
     data = first :: data' →
     (∀ row, row ∈ data → ∀ k, k ∈ dict_keys row ↔ k ∈ dict_keys first) →
     write_to_csv repr_str data filename w
     = (Ok (),
        {| sent := sent w;
           files :=
             <[filename :=
                 csv.writerow (dict_keys first) +:+
                 concat_text
                   ((λ row,
                       csv.writerow
                         ((λ key, csv_text repr_str (the key row))
                          <$> dict_keys first))
                    <$> data)]> (files w) |})).
Proof.
  split.
  - by intros ->.
  - intros first data' -> Hu. unfold write_to_csv, csv_dump.
    by rewrite (writerows_uniform _ _ _ Hu).
Qed.

End Writer.

(** Two channel rows give a header and two lines; no row gives
    [IndexError] and an empty file. *)
Lemma write_to_csv_layout_witness :
  write_to_csv quote_repr [channel_data_row "ch1"; channel_data_row "ch2"]
    "channels_and_destinations.csv" initial_world
  = (Ok (),
     {| sent := [];
        files :=
          {[ "channels_and_destinations.csv" :=
               "channel_id,channel_name,channel_type,destination_id,destination_key,destination_value"
               +:+ CRLF +:+ "ch1,ops,EMAIL,d1,email,a@x.com"
               +:+ CRLF +:+ "ch2,ops,EMAIL,d1,email,a@x.com" +:+ CRLF ]} |}) ∧
  write_to_csv quote_repr [] "channels_and_destinations.csv" initial_world
  = (Raise IndexError,
     {| sent := []; files := {[ "channels_and_destinations.csv" := "" ]} |}).
Proof.
  split.
  - destruct (write_to_csv_layout quote_repr
                [channel_data_row "ch1"; channel_data_row "ch2"]
                "channels_and_destinations.csv" initial_world) as [_ H].
    rewrite (H _ _ eq_refl); [reflexivity |].
    intros row [-> | ->%list_elem_of_singleton]%elem_of_cons k; done.
  - destruct (write_to_csv_layout quote_repr []
                "channels_and_destinations.csv" initial_world) as [H _].
    by rewrite (H eq_refl).
Defined.

(** ** Writing a table and reading it back *)

(** C5. A value that holds a carriage return does not survive the round
    trip: the writer quotes it and writes it as it is, but the file is read
    back with universal newlines, so CR LF comes back as LF.  The row below
    is written by [write_to_csv] and read as in
    [generate_workflows_with_channels]; its NRQL query comes back changed. *)
Theorem csv_roundtrip_changes_carriage_return :
  let filename := "workflows_with_alert_policies.csv" in
  let written := (write_to_csv quote_repr [two_line_row] filename initial_world).2 in
  csv_text quote_repr (the "nrql_query" two_line_row)
  = "SELECT count(*)" +:+ CRLF +:+ "FROM Transaction" ∧
  ∃ row,
    (read_csv filename written).1 = Ok [row] ∧
    dict_keys row = dict_keys two_line_row ∧
    the "nrql_query" row
    = PStr ("SELECT count(*)" +:+ String LF "FROM Transaction") ∧
    the "nrql_query" row
    ≠ PStr (csv_text quote_repr (the "nrql_query" two_line_row)).
Proof.
  intros filename written. split; [reflexivity |].
  eexists. split; [by vm_compute |]. split; [reflexivity |].
  split; [reflexivity | discriminate].
Qed.

(** ** The round trip of values without carriage return *)

Section Roundtrip.
Import csv.

Lemma string_length_app (a b : string) :
  String.length (a +:+ b) = (String.length a + String.length b)%nat.
Proof.
  induction a as [|x a IH]; [done |].
  change (S (String.length (a +:+ b)) = S (String.length a + String.length b)).
  by rewrite IH.
Qed.

Lemma feed_app self a b :
  feed self (a +:+ b) = p ← feed self a; feed p b.
Proof.
  revert self. induction a as [|x a IH]; intros self; [done |].
  change (String x a +:+ b) with (String x (a +:+ b)). simpl.
  destruct (parse_process_char self (Some x)) as [self'| |]; [| done..].
  apply IH.
Qed.

Lemma parse_line_feed self line :
  parse_line self line = p ← feed self line; parse_process_char p None.
Proof.
  revert self. induction line as [|x line IH]; intros self; [done |].
  simpl. destruct (parse_process_char self (Some x)) as [self'| |]; [| done..].
  apply IH.
Qed.

(** A character never leaves the automaton at the start of a record: only the
    end of a line does. *)
Lemma parse_process_char_Some_state p c p' :
  parse_process_char p (Some c) = Ok p' → state p' ≠ START_RECORD.
Proof.
  unfold parse_process_char, start_field, parse_add_char.
  destruct (state p) eqn:Hst, (is_newline c); simpl;
    repeat case_decide; repeat case_bool_decide; simpl;
    intros; simplify_eq; simpl; try done; by rewrite Hst.
Qed.

Lemma feed_state self cur p :
  feed self cur = Ok p → cur ≠ "" → state p ≠ START_RECORD.
Proof.
  revert self. induction cur as [|x cur IH]; intros self Hfeed Hne; [done |].
  simpl in Hfeed.
  destruct (parse_process_char self (Some x)) as [self'| |] eqn:Hx; [| done..].
  destruct cur as [|y cur].
  - simpl in Hfeed. simplify_eq. by eapply parse_process_char_Some_state.
  - by eapply IH.
Qed.

(** The reader over the lines of a text is the single pass over the text. *)
Lemma reader_go_stream s self cur p rows :
  feed self cur = Ok p →
  stream p s = Some rows →
  reader_go self (readlines_go cur s) = Ok rows.
Proof.
  revert self cur p rows. induction s as [|c s IH]; intros self cur p rows Hfeed.
  - simpl. case_decide as Hp; [| done]. destruct Hp as [Hstate Hlen].
    intros [= <-].
    destruct (decide (cur = "")) as [-> | Hne].
    + simpl in Hfeed. simplify_eq. simpl.
      rewrite bool_decide_eq_false_2 by (by intros ?).
      rewrite bool_decide_eq_false_2; [done |]. by rewrite Hstate.
    + by destruct (feed_state _ _ _ Hfeed Hne).
  - simpl. unfold stream_step.
    destruct (decide (c = LF)) as [-> | Hc].
    + cbn [reader_go].
      rewrite parse_line_feed, feed_app, Hfeed. cbn [feed mbind result_bind].
      destruct (parse_process_char p (Some LF)) as [p1| |]; [| done..].
      cbn [mbind result_bind].
      destruct (parse_process_char p1 None) as [p'| |]; [| done..].
      cbn [mbind result_bind].
      destruct (decide (state p' = START_RECORD)) as [Hp' | Hp'].
      * rewrite decide_True by done.
        destruct (stream parse_reset s) as [rows'|] eqn:Hs; [| done].
        intros [= <-]. by rewrite (IH parse_reset "" parse_reset rows').
      * rewrite decide_False by (by intros [_ ?]).
        intros Hs. by apply (IH p' "" p').
    + destruct (parse_process_char p (Some c)) as [p'| |] eqn:Hp; [| done..].
      cbn [mbind result_bind]. rewrite decide_False by (by intros [? _]).
      intros Hs. apply (IH self (cur +:+ String c "") p'); [| done].
      rewrite feed_app, Hfeed. cbn [feed mbind result_bind]. by rewrite Hp.
Qed.

(** *** The automaton on what the writer writes *)

Lemma stream_char p c p' s :
  c ≠ LF → parse_process_char p (Some c) = Ok p' →
  stream p (String c s) = stream p' s.
Proof.
  intros Hc Hp. simpl. unfold stream_step. rewrite Hp. simpl.
  rewrite decide_False by done. by rewrite decide_False by (by intros [? _]).
Qed.

Lemma stream_lf_inside p p1 p' s :
  parse_process_char p (Some LF) = Ok p1 →
  parse_process_char p1 None = Ok p' →
  state p' ≠ START_RECORD →
  stream p (String LF s) = stream p' s.
Proof.
  intros Hp Hp1 Hstate. simpl. unfold stream_step. rewrite Hp. simpl.
  rewrite Hp1. by rewrite decide_False by (by intros [_ ?]).
Qed.

Lemma stream_lf_end p p1 p' s :
  parse_process_char p (Some LF) = Ok p1 →
  parse_process_char p1 None = Ok p' →
  state p' = START_RECORD →
  stream p (String LF s) = cons (fields p') <$> stream parse_reset s.
Proof.
  intros Hp Hp1 Hstate. simpl. unfold stream_step. rewrite Hp. simpl.
  rewrite Hp1. by rewrite decide_True.
Qed.

Lemma want_quote_false c :
  want_quote c = false → c ≠ COMMA ∧ c ≠ DQUOTE ∧ c ≠ CR ∧ c ≠ LF.
Proof.
  unfold want_quote. intros H.
  apply orb_false_elim in H as [H Hlf].
  apply orb_false_elim in H as [H Hcr].
  apply orb_false_elim in H as [Hcomma Hdq].
  apply bool_decide_eq_false in Hcomma, Hdq, Hcr, Hlf. done.
Qed.

Lemma is_newline_false c : c ≠ CR → c ≠ LF → is_newline c = false.
Proof.
  intros ??. unfold is_newline. by rewrite !bool_decide_eq_false_2.
Qed.

(** Adding a character to a field that is below the limit. *)
Lemma parse_add_char_Ok st fs g c :
  (N.of_nat (String.length g) < field_limit)%N →
  parse_add_char
    {| state := st; fields := fs; field := g;
       field_len := N.of_nat (String.length g) |} c
  = Ok {| state := st; fields := fs; field := g +:+ String c "";
          field_len := N.of_nat (String.length (g +:+ String c "")) |}.
Proof.
  intros Hlen. unfold parse_add_char. simpl.
  rewrite bool_decide_eq_false_2 by lia.
  do 2 f_equal. rewrite string_length_app. simpl. lia.
Qed.

(** The characters of an unquoted field. *)
Lemma stream_in_field fs f g rest :
  string_exists want_quote f = false →
  (N.of_nat (String.length g + String.length f) ≤ field_limit)%N →
  stream (in_field fs g) (f +:+ rest) = stream (in_field fs (g +:+ f)) rest.
Proof.
  revert g. induction f as [|c f IH]; intros g Hq Hlen.
  - by rewrite string_app_nil_r.
  - simpl in Hq. apply orb_false_elim in Hq as [Hc Hq].
    apply want_quote_false in Hc as (Hcomma & Hdq & Hcr & Hlf).
    change (String c f +:+ rest) with (String c (f +:+ rest)).
    rewrite (stream_char _ _ (in_field fs (g +:+ String c ""))); [| done |].
    + rewrite IH; [| done |].
      * by rewrite string_app_assoc.
      * rewrite string_length_app. simpl in *. lia.
    + unfold parse_process_char, in_field. simpl.
      rewrite is_newline_false by done. rewrite decide_False by done.
      apply parse_add_char_Ok. simpl in Hlen. lia.
Qed.

(** The characters of a quoted field: a quote is written twice, an LF is
    followed by the end-of-line step, which a quoted field ignores. *)
Lemma stream_in_quoted fs f g rest :
  (N.of_nat (String.length g + String.length f) ≤ field_limit)%N →
  stream (in_quoted fs g) (double_quotes f +:+ rest)
  = stream (in_quoted fs (g +:+ f)) rest.
Proof.
  revert g. induction f as [|c f IH]; intros g Hlen.
  - by rewrite string_app_nil_r.
  - assert ((N.of_nat (String.length g) < field_limit)%N) as Hg.
    { simpl in Hlen. lia. }
    assert (stream (in_quoted fs (g +:+ String c "")) (double_quotes f +:+ rest)
            = stream (in_quoted fs (g +:+ String c f)) rest) as Hrest.
    { rewrite IH; [by rewrite string_app_assoc |].
      rewrite string_length_app. simpl in *. lia. }
    rewrite <- Hrest. simpl. destruct (decide (c = DQUOTE)) as [-> | Hdq].
    + change (String DQUOTE (String DQUOTE (double_quotes f)) +:+ rest)
        with (String DQUOTE (String DQUOTE (double_quotes f +:+ rest))).
      rewrite (stream_char _ _
                 (set_state QUOTE_IN_QUOTED_FIELD (in_quoted fs g)));
        [| done | done].
      apply stream_char; [done |].
      unfold parse_process_char, set_state. simpl.
      by rewrite parse_add_char_Ok.
    + change (String c (double_quotes f) +:+ rest)
        with (String c (double_quotes f +:+ rest)).
      assert (parse_process_char (in_quoted fs g) (Some c)
              = Ok (in_quoted fs (g +:+ String c ""))) as Hstep.
      { unfold parse_process_char, in_quoted. simpl.
        rewrite decide_False by done. by apply parse_add_char_Ok. }
      destruct (decide (c = LF)) as [-> | Hlf].
      * by apply (stream_lf_inside _ _ _ _ Hstep).
      * by apply stream_char.
Qed.

Lemma stream_field_text fs f p0 :
  field_start fs p0 → f ≠ "" →
  (N.of_nat (String.length f) ≤ field_limit)%N →
  ∃ p, field_read fs f p ∧
       ∀ rest, stream p0 (join_append f +:+ rest) = stream p rest.
Proof.
  intros Hstart Hne Hlen. unfold join_append.
  destruct (string_exists want_quote f) eqn:Hq.
  - exists (set_state QUOTE_IN_QUOTED_FIELD (in_quoted fs f)).
    split; [by right |]. intros rest.
    change (String DQUOTE (double_quotes f +:+ String DQUOTE "") +:+ rest)
      with (String DQUOTE ((double_quotes f +:+ String DQUOTE "") +:+ rest)).
    rewrite string_app_assoc.
    rewrite (stream_char _ _ (in_quoted fs ""));
      [| done | by destruct Hstart as [-> | [-> ->]]].
    rewrite stream_in_quoted by done.
    by apply stream_char.
  - exists (in_field fs f). split; [by left |]. intros rest.
    destruct f as [|c f]; [done |].
    simpl in Hq. apply orb_false_elim in Hq as [Hc Hq].
    apply want_quote_false in Hc as (Hcomma & Hdq & Hcr & Hlf).
    change (String c f +:+ rest) with (String c (f +:+ rest)).
    rewrite (stream_char _ _ (in_field fs (String c ""))); [| done |].
    + rewrite stream_in_field; [done.. |]. simpl in *. lia.
    + assert (parse_process_char (at_field fs) (Some c)
              = Ok (in_field fs (String c ""))) as Hstep.
      { unfold parse_process_char, start_field, at_field. simpl.
        rewrite is_newline_false by done. by rewrite !decide_False by done. }
      destruct Hstart as [-> | [-> ->]]; [done |].
      rewrite <- Hstep. unfold parse_process_char. simpl.
      by rewrite is_newline_false by done.
Qed.

Lemma stream_field_read_comma fs f p rest :
  field_read fs f p →
  stream p (String COMMA rest) = stream (at_field (fs ++ [f])) rest.
Proof. intros [-> | ->]; by apply stream_char. Qed.

Lemma stream_field_read_lf fs f p s :
  field_read fs f p →
  stream p (String LF s) = cons (fs ++ [f]) <$> stream parse_reset s.
Proof.
  intros [-> | ->].
  - by apply (stream_lf_end _
                (set_state EAT_CRNL (parse_save_field (in_field fs f)))
                (set_state START_RECORD
                   (set_state EAT_CRNL (parse_save_field (in_field fs f))))).
  - by apply (stream_lf_end _
                (set_state EAT_CRNL
                   (parse_save_field
                      (set_state QUOTE_IN_QUOTED_FIELD (in_quoted fs f))))
                (set_state START_RECORD
                   (set_state EAT_CRNL
                      (parse_save_field
                         (set_state QUOTE_IN_QUOTED_FIELD (in_quoted fs f)))))).
Qed.

Lemma join_append_empty : join_append "" = "".
Proof. done. Qed.

(** A field followed by the delimiter. *)
Lemma stream_field_comma fs f p0 rest :
  field_start fs p0 →
  (N.of_nat (String.length f) ≤ field_limit)%N →
  stream p0 (join_append f +:+ String COMMA rest)
  = stream (at_field (fs ++ [f])) rest.
Proof.
  intros Hstart Hlen. destruct (decide (f = "")) as [-> | Hne].
  - rewrite join_append_empty. change ("" +:+ ?x) with x.
    apply stream_char; [done |]. by destruct Hstart as [-> | [-> ->]].
  - destruct (stream_field_text fs f p0 Hstart Hne Hlen) as (p & Hp & ->).
    by apply stream_field_read_comma.
Qed.

(** A field followed by the end of the record.  At the start of a record
    the field must not be empty: an empty line is an empty record. *)
Lemma stream_field_lf fs f p0 s :
  field_start fs p0 →
  f ≠ "" ∨ p0 = at_field fs →
  (N.of_nat (String.length f) ≤ field_limit)%N →
  stream p0 (join_append f +:+ String LF s)
  = cons (fs ++ [f]) <$> stream parse_reset s.
Proof.
  intros Hstart Hf Hlen. destruct (decide (f = "")) as [-> | Hne].
  - destruct Hf as [? | ->]; [done |].
    rewrite join_append_empty. change ("" +:+ ?x) with x.
    by apply (stream_lf_end _
                (set_state EAT_CRNL (parse_save_field (at_field fs)))
                (set_state START_RECORD
                   (set_state EAT_CRNL (parse_save_field (at_field fs))))).
  - destruct (stream_field_text fs f p0 Hstart Hne Hlen) as (p & Hp & ->).
    by apply stream_field_read_lf.
Qed.

(** The fields of a record, joined by the delimiter, up to the end of the
    record. *)
Lemma stream_fields cells : ∀ fs p0 s,
  field_start fs p0 →
  cells ≠ [] →
  p0 = at_field fs ∨ cells ≠ [""] →
  Forall (λ f, (N.of_nat (String.length f) ≤ field_limit)%N) cells →
  stream p0 (py_join "," (join_append <$> cells) +:+ String LF s)
  = cons (fs ++ cells) <$> stream parse_reset s.
Proof.
  induction cells as [|f cells IH]; intros fs p0 s Hstart Hne Hfirst Hlen;
    [done |].
  apply Forall_cons in Hlen as [Hf Hlen].
  destruct cells as [|f2 cells].
  - simpl. apply stream_field_lf; [done | | done].
    destruct Hfirst as [-> | Hfirst]; [by right |].
    left. by intros ->.
  - change (py_join "," (join_append <$> f :: f2 :: cells))
      with (join_append f +:+ "," +:+
            py_join "," (join_append <$> f2 :: cells)).
    rewrite !string_app_assoc.
    change ("," +:+ ?x) with (String COMMA x).
    rewrite (stream_field_comma fs) by done.
    rewrite (IH (fs ++ [f])); [| by left | done | by left | done].
    by rewrite <- app_assoc.
Qed.

Lemma join_append_eq_empty f : join_append f = "" → f = "".
Proof. unfold join_append. by destruct (string_exists want_quote f). Qed.

Lemma py_join_eq_empty cells :
  cells ≠ [] → py_join "," (join_append <$> cells) = "" → cells = [""].
Proof.
  destruct cells as [|f [|f2 cells]]; [done | |].
  - simpl. by intros _ ->%join_append_eq_empty.
  - intros _.
    change (py_join "," (join_append <$> f :: f2 :: cells))
      with (join_append f +:+ "," +:+
            py_join "," (join_append <$> f2 :: cells)).
    by destruct (join_append f).
Qed.

(** One written record, read back. *)
Lemma stream_join_record cells s :
  cells ≠ [] →
  Forall (λ f, (N.of_nat (String.length f) ≤ field_limit)%N) cells →
  stream parse_reset (join_record cells +:+ String LF s)
  = cons cells <$> stream parse_reset s.
Proof.
  intros Hne Hlen. unfold join_record.
  rewrite bool_decide_eq_true_2 by done. simpl.
  case_bool_decide as Hrec.
  - by rewrite (py_join_eq_empty _ Hne Hrec).
  - apply (stream_fields cells []); [by right | done | | done].
    right. intros ->. by apply Hrec.
Qed.

(** The written records of a table, each ended by LF, read back. *)
Lemma stream_records (rows : list (list string)) :
  Forall (λ cells,
      cells ≠ [] ∧
      Forall (λ f, (N.of_nat (String.length f) ≤ field_limit)%N) cells) rows →
  stream parse_reset
    (concat_text ((λ cells, join_record cells +:+ String LF "") <$> rows))
  = Some rows.
Proof.
  induction rows as [|cells rows IH]; intros Hrows; [done |].
  apply Forall_cons in Hrows as [[Hne Hlen] Hrows].
  csimpl. rewrite string_app_assoc.
  change (String LF "" +:+ ?x) with (String LF x).
  rewrite stream_join_record by done. by rewrite IH.
Qed.

(** *** Universal newlines on what the writer writes *)

Lemma has_cr_app a b : has_cr (a +:+ b) = has_cr a || has_cr b.
Proof.
  unfold has_cr. induction a as [|c a IH]; [done |].
  change (String c a +:+ b) with (String c (a +:+ b)). simpl.
  by rewrite IH, orb_assoc.
Qed.

Lemma has_cr_double_quotes f : has_cr (double_quotes f) = has_cr f.
Proof.
  unfold has_cr. induction f as [|c f IH]; [done |].
  simpl. destruct (decide (c = DQUOTE)) as [-> | Hc]; simpl; by rewrite IH.
Qed.

Lemma has_cr_join_append f : has_cr (join_append f) = has_cr f.
Proof.
  unfold join_append. destruct (string_exists want_quote f); [| done].
  change (has_cr (String DQUOTE "" +:+ double_quotes f +:+ String DQUOTE "")
          = has_cr f).
  rewrite !has_cr_app, has_cr_double_quotes. simpl. by rewrite orb_false_r.
Qed.

Lemma has_cr_join_record cells :
  Forall (λ f, has_cr f = false) cells → has_cr (join_record cells) = false.
Proof.
  intros Hcells. unfold join_record.
  destruct (_ && _); [done |].
  induction Hcells as [|f cells Hf Hcells IH]; [done |].
  destruct cells as [|f2 cells].
  - simpl. by rewrite has_cr_join_append.
  - change (py_join "," (join_append <$> f :: f2 :: cells))
      with (join_append f +:+ "," +:+
            py_join "," (join_append <$> f2 :: cells)).
    by rewrite !has_cr_app, has_cr_join_append, Hf, IH.
Qed.

(** A text without carriage return, then the line terminator: the text
    arrives as it is, the terminator as LF. *)
Lemma universal_newlines_go_line a s :
  has_cr a = false →
  universal_newlines_go false (a +:+ CRLF +:+ s)
  = a +:+ String LF (universal_newlines_go false s).
Proof.
  induction a as [|c a IH]; intros Hcr; [done |].
  unfold has_cr in Hcr. simpl in Hcr.
  apply orb_false_elim in Hcr as [Hc%bool_decide_eq_false Hcr].
  change (String c a +:+ CRLF +:+ s) with (String c (a +:+ CRLF +:+ s)).
  simpl. rewrite decide_False by done.
  change (String c a +:+ ?x) with (String c (a +:+ x)).
  destruct (decide (c = LF)) as [-> | _]; by rewrite IH.
Qed.

Lemma universal_newlines_written (rows : list (list string)) :
  Forall (Forall (λ f, has_cr f = false)) rows →
  universal_newlines (concat_text (writerow <$> rows))
  = concat_text ((λ cells, join_record cells +:+ String LF "") <$> rows).
Proof.
  unfold universal_newlines.
  induction rows as [|cells rows IH]; intros Hrows; [done |].
  apply Forall_cons in Hrows as [Hcells Hrows].
  csimpl. unfold writerow at 1. rewrite !string_app_assoc.
  rewrite universal_newlines_go_line by (by apply has_cr_join_record).
  by rewrite IH.
Qed.

(** *** The dicts of the reader *)

Lemma dict_set_fresh {V : Type} (k : string) (v : V) (d : dict V) :
  k ∉ d.*1 → dict_set k v d = d ++ [(k, v)].
Proof.
  induction d as [|[k' v'] d IH]; [done |].
  simpl. intros [Hk Hd]%not_elem_of_cons.
  rewrite decide_False by done. by rewrite IH.
Qed.

Lemma foldl_dict_set_fresh (g : string → string) (l : list string) :
  ∀ acc : dict pyval,
    NoDup l → (∀ k, k ∈ l → k ∉ acc.*1) →
    foldl (λ d kv, dict_set kv.1 (PStr kv.2) d) acc (zip l (g <$> l))
    = acc ++ ((λ k, (k, PStr (g k))) <$> l).
Proof.
  induction l as [|k l IH]; intros acc Hnd Hfresh.
  - by rewrite app_nil_r.
  - apply NoDup_cons in Hnd as [Hk Hnd]. csimpl.
    rewrite dict_set_fresh by (apply Hfresh, list_elem_of_here).
    rewrite IH; [by rewrite <- app_assoc | done |].
    intros k' Hk'. rewrite fmap_app. simpl.
    rewrite elem_of_app, list_elem_of_singleton.
    intros [Hin | ->]; [| done].
    by apply (Hfresh k'); [apply list_elem_of_further |].
Qed.

(** A row with one cell per field name, the field names being distinct,
    becomes the dict of the cells in the order of the field names. *)
Lemma row_to_dict_fmap (g : string → string) (fieldnames : list string) :
  NoDup fieldnames →
  row_to_dict fieldnames (g <$> fieldnames)
  = (λ k, (k, PStr (g k))) <$> fieldnames.
Proof.
  intros Hnd. unfold row_to_dict.
  rewrite length_fmap, drop_all. simpl.
  rewrite foldl_dict_set_fresh; [done.. |].
  intros k _. apply not_elem_of_nil.
Qed.

Lemma filter_all {A : Type} (P : A → Prop) `{!∀ x, Decision (P x)}
    (l : list A) :
  Forall P l → filter P l = l.
Proof.
  induction 1 as [|x l Hx Hl IH]; [done |].
  rewrite filter_cons, decide_True by done. by rewrite IH.
Qed.

(** X1. The round trip holds for every table of records with the same,
    distinct, keys, at least one column, and no carriage return in a key or
    in the text of a value (nor a text beyond the reader's field limit):
    what is read back is, row by row and column by column, the text the
    writer was given.  Separators, quotes and line feeds inside a value are
    kept. *)
Lemma csv_roundtrip_without_carriage_return repr_str first data' :
  let data := first :: data' in
  let fieldnames := dict_keys first in
  fieldnames ≠ [] →
  NoDup fieldnames →
  (∀ row, row ∈ data → ∀ k, k ∈ dict_keys row ↔ k ∈ fieldnames) →
  Forall survives fieldnames →
  (∀ row, row ∈ data →
     Forall (λ k, survives (csv_text repr_str (the k row))) fieldnames) →
  DictReader (csv_dump repr_str data).2
  = Ok ((λ row,
           (λ k, (k, PStr (csv_text repr_str (the k row)))) <$> fieldnames)
        <$> data).
Proof.
  intros data fieldnames Hne Hnd Hu Hkeys Hcells.
  set (cells := λ row, (λ key, csv_text repr_str (the key row)) <$> fieldnames).
  assert ((csv_dump repr_str data).2
          = concat_text (writerow <$> fieldnames :: (cells <$> data))) as ->.
  { unfold csv_dump, data. fold fieldnames data.
    rewrite (writerows_uniform repr_str fieldnames data _ Hu). simpl.
    by rewrite <- list_fmap_compose. }
  clearbody data fieldnames.
  unfold DictReader, reader.
  rewrite universal_newlines_written.
  2:{ apply Forall_cons. split.
      - eapply Forall_impl; [exact Hkeys |]. by intros k [? _].
      - apply Forall_fmap, Forall_forall. intros row Hrow.
        unfold cells. apply Forall_fmap.
        eapply Forall_impl; [exact (Hcells row Hrow) |]. by intros k [? _]. }
  rewrite (reader_go_stream _ parse_reset "" parse_reset
             (fieldnames :: (cells <$> data))); [| done |].
  2:{ apply stream_records, Forall_cons. split.
      - split; [done |].
        eapply Forall_impl; [exact Hkeys |]. by intros k [_ ?].
      - apply Forall_fmap, Forall_forall. intros row Hrow. split.
        + unfold cells. by intros ?%fmap_nil_inv.
        + unfold cells. apply Forall_fmap.
          eapply Forall_impl; [exact (Hcells row Hrow) |]. by intros k [_ ?]. }
  cbn [mbind result_bind]. f_equal.
  rewrite filter_all.
  2:{ apply Forall_fmap, Forall_forall. intros row _.
      unfold cells. by intros ?%fmap_nil_inv. }
  rewrite <- list_fmap_compose. apply list_fmap_ext. intros i row _.
  simpl. unfold cells.
  by rewrite (row_to_dict_fmap (λ k, csv_text repr_str (the k row))).
Qed.

End Roundtrip.

(** ** Worked examples *)

Example py_split_pieces :
  py_split ", " "ch1, ch2" = ["ch1"; "ch2"] ∧
  py_split ", " "ch1" = ["ch1"] ∧
  py_split ", " "" = [""] ∧
  py_split ", " "a,, b" = ["a,"; "b"] ∧
  py_split ", " ", " = [""; ""].
Proof. repeat split. Qed.

(** The term description of the specification's scenario. *)
Example format_term_cpu :
  format_term quote_repr cpu_term
  = "operator: ABOVE, priority: CRITICAL, threshold: 90, duration: 300, occurrences: ALL".
Proof. reflexivity. Qed.

(** Null, numbers and lists as the writer renders them. *)
Example csv_text_values :
  csv_text quote_repr PNone = "" ∧
  csv_text quote_repr (PInt (-7)) = "-7" ∧
  csv_text quote_repr (PBool true) = "True" ∧
  csv_text quote_repr (PList [PStr "p1"; PStr "p2"]) = "['p1', 'p2']".
Proof. repeat split. Qed.

(** A delimiter, quotes and a line feed inside a value come back unchanged;
    a null comes back as the empty text and a number as its digits. *)
Lemma awkward_row_roundtrip :
  DictReader (csv_dump quote_repr [awkward_row]).2
  = Ok [ [ ("channel_id", PStr "ch1");
           ("channel_name",
              PStr ("ops, " +:+ String DQUOTE "night" +:+ String DQUOTE ""));
           ("channel_type", PStr "");
           ("destination_id", PStr "42");
           ("destination_key", PStr "url");
           ("destination_value", PStr ("line one" +:+ String LF "line two")) ] ].
Proof.
  rewrite (csv_roundtrip_without_carriage_return quote_repr awkward_row []).
  - reflexivity.
  - done.
  - by apply (bool_decide_unpack _).
  - by intros row ->%list_elem_of_singleton k.
  - repeat (constructor; [split; [reflexivity | by vm_compute] |]).
    constructor.
  - intros row ->%list_elem_of_singleton.
    repeat (constructor; [split; [reflexivity | by vm_compute] |]).
    constructor.
Defined.

(** The whole pipeline against a server that has nothing but one page of
    policies: the second loop gets no response and the run ends there. *)
Example main_aborts_on_second_fetcher :
  (main quote_repr 7 two_page_server 5 initial_world).1 = Raise RequestException.
Proof. reflexivity. Qed.

(** * Further properties of the script *)

(** ** What the round trip does to carriage returns *)

Section UniversalNewlines.
Import csv.

Local Abbreviation tr := universal_newlines_go.

Lemma tr_app b a rest :
  tr b (a +:+ rest) = tr b a +:+ tr (flag_after b a) rest.
Proof.
  revert b. induction a as [|c a IH]; intros b; [done |].
  change (String c a +:+ rest) with (String c (a +:+ rest)). simpl.
  destruct (decide (c = CR)) as [-> | Hcr].
  - rewrite bool_decide_eq_true_2 by done.
    change (String LF ?x +:+ ?y) with (String LF (x +:+ y)). by rewrite IH.
  - rewrite bool_decide_eq_false_2 by done.
    destruct (decide (c = LF)) as [-> | Hlf]; [destruct b |].
    + by rewrite IH.
    + change (String LF ?x +:+ ?y) with (String LF (x +:+ y)). by rewrite IH.
    + change (String c ?x +:+ ?y) with (String c (x +:+ y)). by rewrite IH.
Qed.

(** A character that is no line break passes, whatever came before. *)
Lemma tr_char b c rest :
  c ≠ CR → c ≠ LF → tr b (String c rest) = String c (tr false rest).
Proof. intros ??. simpl. by rewrite !decide_False by done. Qed.

(** The line terminator arrives as one LF, whatever came before. *)
Lemma tr_crlf b rest : tr b (CRLF +:+ rest) = String LF (tr false rest).
Proof. done. Qed.

Lemma tr_double_quotes b f : tr b (double_quotes f) = double_quotes (tr b f).
Proof.
  revert b. induction f as [|c f IH]; intros b; [done |].
  simpl. destruct (decide (c = DQUOTE)) as [-> | Hdq].
  - simpl. by rewrite IH.
  - simpl. destruct (decide (c = CR)) as [-> | Hcr]; [by rewrite IH |].
    destruct (decide (c = LF)) as [-> | Hlf].
    + destruct b; simpl; by rewrite IH.
    + simpl. rewrite decide_False by done. by rewrite IH.
Qed.

Lemma tr_unquoted f b : string_exists want_quote f = false → tr b f = f.
Proof.
  revert b. induction f as [|c f IH]; intros b Hq; [done |].
  simpl in Hq. apply orb_false_elim in Hq as [Hc Hq].
  apply want_quote_false in Hc as (_ & _ & Hcr & Hlf).
  rewrite tr_char by done. by rewrite IH.
Qed.

Lemma tr_keeps_quoting f :
  string_exists want_quote f = true →
  string_exists want_quote (tr false f) = true.
Proof.
  induction f as [|c f IH]; [done |].
  simpl. destruct (decide (c = CR)) as [-> | Hcr]; [done |].
  destruct (decide (c = LF)) as [-> | Hlf]; [done |].
  simpl. destruct (want_quote c); [done |]. apply IH.
Qed.

Lemma tr_join_append f : tr false (join_append f) = join_append (tr false f).
Proof.
  unfold join_append. destruct (string_exists want_quote f) eqn:Hq.
  - rewrite (tr_keeps_quoting _ Hq).
    rewrite tr_char by done. f_equal.
    rewrite tr_app, tr_double_quotes.
    by rewrite tr_char by done.
  - rewrite (tr_unquoted f false Hq). by rewrite Hq.
Qed.

Lemma tr_py_join cells :
  tr false (py_join "," (join_append <$> cells))
  = py_join "," (join_append <$> (tr false <$> cells)).
Proof.
  induction cells as [|f cells IH]; [done |].
  destruct cells as [|f2 cells]; [apply tr_join_append |].
  change (py_join "," (join_append <$> f :: f2 :: cells))
    with (join_append f +:+ String COMMA
            (py_join "," (join_append <$> f2 :: cells))).
  rewrite tr_app, tr_join_append, tr_char by done. by rewrite IH.
Qed.

Lemma tr_false_eq_empty s : tr false s = "" → s = "".
Proof.
  destruct s as [|c s]; [done |]. simpl.
  by repeat case_decide.
Qed.

Lemma tr_join_record cells :
  tr false (join_record cells) = join_record (tr false <$> cells).
Proof.
  unfold join_record.
  destruct (decide (cells = [])) as [-> | Hne]; [done |].
  assert (tr false <$> cells ≠ []) by (by intros ?%fmap_nil_inv).
  rewrite (bool_decide_eq_true_2 (cells ≠ [])) by done.
  rewrite (bool_decide_eq_true_2 (tr false <$> cells ≠ [])) by done.
  cbn [andb]. rewrite <- tr_py_join.
  case_bool_decide as Hrec.
  - by rewrite Hrec.
  - rewrite bool_decide_eq_false_2; [done |].
    by intros ?%tr_false_eq_empty.
Qed.

(** The written table as the reader gets it: every record with its texts
    translated, ended by LF. *)
Lemma universal_newlines_of_written (rows : list (list string)) :
  universal_newlines (concat_text (writerow <$> rows))
  = concat_text
      ((λ cells, join_record (universal_newlines <$> cells) +:+ String LF "")
       <$> rows).
Proof.
  unfold universal_newlines.
  induction rows as [|cells rows IH]; [done |].
  csimpl. unfold writerow at 1.
  rewrite string_app_assoc, tr_app, tr_join_record, tr_crlf, IH.
  by rewrite string_app_assoc.
Qed.

Lemma tr_length b s : (String.length (tr b s) ≤ String.length s)%nat.
Proof.
  revert b. induction s as [|c s IH]; intros b; [done |].
  pose proof (IH true). pose proof (IH false).
  simpl. repeat case_decide; try destruct b; simpl; lia.
Qed.

Lemma within_limit_tr s : within_limit s → within_limit (universal_newlines s).
Proof.
  unfold within_limit, universal_newlines. intros H.
  pose proof (tr_length false s). lia.
Qed.

Lemma foldl_dict_set_fmap {A : Type} (h g : A → string) (l : list A) :
  ∀ acc : dict pyval,
    NoDup (h <$> l) → (∀ k, k ∈ h <$> l → k ∉ acc.*1) →
    foldl (λ d kv, dict_set kv.1 (PStr kv.2) d) acc (zip (h <$> l) (g <$> l))
    = acc ++ ((λ x, (h x, PStr (g x))) <$> l).
Proof.
  induction l as [|x l IH]; intros acc Hnd Hfresh.
  - by rewrite app_nil_r.
  - csimpl in *. apply NoDup_cons in Hnd as [Hx Hnd].
    rewrite dict_set_fresh by (apply Hfresh, list_elem_of_here).
    rewrite IH; [by rewrite <- app_assoc | done |].
    intros k Hk. rewrite fmap_app. simpl.
    rewrite elem_of_app, list_elem_of_singleton.
    intros [Hin | ->]; [| done].
    by apply (Hfresh k); [apply list_elem_of_further |].
Qed.

Lemma row_to_dict_fmap2 {A : Type} (h g : A → string) (l : list A) :
  NoDup (h <$> l) →
  row_to_dict (h <$> l) (g <$> l) = (λ x, (h x, PStr (g x))) <$> l.
Proof.
  intros Hnd. unfold row_to_dict.
  rewrite !length_fmap, <- (length_fmap h), drop_all. simpl.
  rewrite foldl_dict_set_fmap; [done.. |].
  intros k _. apply not_elem_of_nil.
Qed.

(** What [DictReader] reads from what [csv_dump] wrote. *)
Lemma DictReader_csv_dump repr_str first data' :
  let data := first :: data' in
  let fieldnames := dict_keys first in
  fieldnames ≠ [] →
  NoDup (universal_newlines <$> fieldnames) →
  (∀ row, row ∈ data → ∀ k, k ∈ dict_keys row ↔ k ∈ fieldnames) →
  Forall within_limit fieldnames →
  (∀ row, row ∈ data →
     Forall (λ k, within_limit (csv_text repr_str (the k row))) fieldnames) →
  DictReader (csv_dump repr_str data).2
  = Ok ((λ row,
           (λ k, (universal_newlines k,
                  PStr (universal_newlines (csv_text repr_str (the k row)))))
           <$> fieldnames)
        <$> data).
Proof.
  intros data fieldnames Hne Hnd Hu Hkeys Hcells.
  set (cells := λ row, (λ key, csv_text repr_str (the key row)) <$> fieldnames).
  assert ((csv_dump repr_str data).2
          = concat_text (writerow <$> fieldnames :: (cells <$> data))) as ->.
  { unfold csv_dump, data. fold fieldnames data.
    rewrite (writerows_uniform repr_str fieldnames data _ Hu). simpl.
    by rewrite <- list_fmap_compose. }
  clearbody data fieldnames.
  set (trs := λ cs : list string, universal_newlines <$> cs).
  set (R := fieldnames :: (cells <$> data)).
  assert (stream parse_reset
            (concat_text
               ((λ cells, join_record (universal_newlines <$> cells)
                          +:+ String LF "") <$> R))
          = Some (trs <$> R)) as Hs.
  { rewrite <- (stream_records (trs <$> R)).
    { by rewrite <- list_fmap_compose. }
    apply Forall_fmap, Forall_cons. split.
    - split; [by intros ?%fmap_nil_inv |].
      apply Forall_fmap. eapply Forall_impl; [exact Hkeys |].
      intros k Hk. by apply within_limit_tr.
    - apply Forall_fmap, Forall_forall. intros row Hrow. split.
      + unfold cells. by intros ?%fmap_nil_inv%fmap_nil_inv.
      + unfold cells. apply Forall_fmap, Forall_fmap.
        eapply Forall_impl; [exact (Hcells row Hrow) |].
        intros k Hk. by apply within_limit_tr. }
  unfold DictReader, reader, readlines. fold R.
  rewrite universal_newlines_of_written.
  rewrite (reader_go_stream _ parse_reset "" parse_reset _ eq_refl Hs).
  unfold R. rewrite fmap_cons. cbn [mbind result_bind]. f_equal.
  rewrite filter_all.
  2:{ apply Forall_fmap, Forall_fmap, Forall_forall. intros row _.
      unfold cells. by intros ?%fmap_nil_inv%fmap_nil_inv. }
  rewrite <- !list_fmap_compose. apply list_fmap_ext. intros i row _.
  simpl. unfold trs, cells. rewrite <- list_fmap_compose.
  by rewrite (row_to_dict_fmap2 universal_newlines
                (universal_newlines ∘ (λ key, csv_text repr_str (the key row)))).
Qed.

(** X2. Writing a table with [write_to_csv] and reading it back as
    [generate_workflows_with_channels] does gives, row by row and column by
    column, the keys and the texts of the values with every CR LF and every
    lone CR replaced by LF, and nothing else changed.  This holds for any
    non-empty table of records with the same keys, at least one column, keys
    that stay distinct, and texts within the reader's field limit. *)
Theorem csv_roundtrip_universal_newlines repr_str first data' :
  let data := first :: data' in
  let fieldnames := dict_keys first in
  fieldnames ≠ [] →
  NoDup (universal_newlines <$> fieldnames) →
  (∀ row, row ∈ data → ∀ k, k ∈ dict_keys row ↔ k ∈ fieldnames) →
  Forall within_limit fieldnames →
  (∀ row, row ∈ data →
     Forall (λ k, within_limit (csv_text repr_str (the k row))) fieldnames) →
  DictReader (csv_dump repr_str data).2
  = Ok ((λ row,
           (λ k, (universal_newlines k,
                  PStr (universal_newlines (csv_text repr_str (the k row)))))
           <$> fieldnames)
        <$> data).
Proof. apply DictReader_csv_dump. Qed.

End UniversalNewlines.

(** The row with a two-line NRQL query comes back with LF in place of
    CR LF, and otherwise as written. *)
Lemma csv_roundtrip_universal_newlines_witness :
  DictReader (csv_dump quote_repr [two_line_row]).2
  = Ok [ (λ kv, (kv.1, PStr (universal_newlines (csv_text quote_repr kv.2))))
         <$> two_line_row ].
Proof.
  rewrite (csv_roundtrip_universal_newlines quote_repr two_line_row []).
  - reflexivity.
  - done.
  - by apply (bool_decide_unpack _).
  - by intros row ->%list_elem_of_singleton k.
  - repeat (constructor; [by vm_compute |]). constructor.
  - intros row ->%list_elem_of_singleton.
    repeat (constructor; [by vm_compute |]). constructor.
Defined.

(** ** The tabular writer on records that are not uniform *)

Section WriterErrors.
Context (repr_str : string → string).

(** The cell the writer fills for a key: empty when the record lacks it. *)
Lemma dict_to_list_subset fieldnames rowdict :
  (∀ k, k ∈ dict_keys rowdict → k ∈ fieldnames) →
  dict_to_list fieldnames rowdict
  = Ok ((λ key, default (PStr "") (dict_get key rowdict)) <$> fieldnames).
Proof.
  intros Hkeys. unfold dict_to_list.
  assert (forallb (λ k, bool_decide (k ∈ fieldnames)) (dict_keys rowdict)
          = true) as ->; [| done].
  apply forallb_forall. intros k Hk%list_elem_of_In.
  apply bool_decide_eq_true. by apply Hkeys.
Qed.

Lemma dict_to_list_extra fieldnames rowdict k :
  k ∈ dict_keys rowdict → k ∉ fieldnames →
  dict_to_list fieldnames rowdict = Raise ValueError.
Proof.
  intros Hin Hnot. unfold dict_to_list.
  destruct (forallb _ _) eqn:Hall; [| done].
  exfalso. apply Hnot.
  pose proof (proj1 (forallb_forall _ _) Hall k) as Hk.
  apply (bool_decide_eq_true_1 (k ∈ fieldnames)), Hk.
  by apply list_elem_of_In.
Qed.

Lemma writerows_subset fieldnames rowdicts content :
  (∀ row, row ∈ rowdicts → ∀ k, k ∈ dict_keys row → k ∈ fieldnames) →
  writerows repr_str fieldnames rowdicts content =
    (Ok (),
     content +:+
     concat_text
       ((λ row,
           csv.writerow
             ((λ key, csv_text repr_str (default (PStr "") (dict_get key row)))
              <$> fieldnames))
        <$> rowdicts)).
Proof.
  revert content. induction rowdicts as [|row rows IH]; intros content Hu.
  - simpl. by rewrite string_app_nil_r.
  - simpl. rewrite dict_to_list_subset by (apply Hu, list_elem_of_here).
    rewrite IH by (intros r Hr; by apply Hu, list_elem_of_further).
    by rewrite <- list_fmap_compose, string_app_assoc.
Qed.

Lemma written_cells fieldnames (rows : list (dict pyval)) :
  (λ row,
     csv.writerow
       ((λ key, csv_text repr_str (default (PStr "") (dict_get key row)))
        <$> fieldnames)) <$> rows
  = (λ row,
       csv.writerow
         ((λ key, match dict_get key row with
                  | Some v => csv_text repr_str v
                  | None => ""
                  end) <$> fieldnames)) <$> rows.
Proof.
  apply list_fmap_ext. intros i row _. simpl. f_equal.
  apply list_fmap_ext. intros j key _. simpl.
  by destruct (dict_get key row).
Qed.

Lemma writerows_app fieldnames rows1 rows2 content :
  writerows repr_str fieldnames (rows1 ++ rows2) content =
    match writerows repr_str fieldnames rows1 content with
    | (Ok _, content') => writerows repr_str fieldnames rows2 content'
    | failed => failed
    end.
Proof.
  revert content. induction rows1 as [|row rows1 IH]; intros content; [done |].
  simpl. destruct (dict_to_list fieldnames row); [apply IH | done..].
Qed.

(** X3. The writer accepts records that lack some of the keys of the first
    record, as long as they have no other key: the missing cells are written
    empty, exactly like a null. *)
Theorem write_to_csv_missing_keys first data' filename w :
  (∀ row, row ∈ first :: data' →
     ∀ k, k ∈ dict_keys row → k ∈ dict_keys first) →
  write_to_csv repr_str (first :: data') filename w
  = (Ok (),
     {| sent := sent w;
        files :=
          <[filename :=
              csv.writerow (dict_keys first) +:+
              concat_text
                ((λ row,
                    csv.writerow
                      ((λ key, match dict_get key row with
                               | Some v => csv_text repr_str v
                               | None => ""
                               end)
                       <$> dict_keys first))
                 <$> first :: data')]> (files w) |}).
Proof.
  intros Hu. unfold write_to_csv, csv_dump.
  rewrite (writerows_subset _ _ _ Hu).
  by rewrite written_cells.
Qed.

(** X4. A record with a key that the first record does not have makes the
    writer raise [ValueError]; the header and the records before it are
    already in the file, the record itself and those after it are not. *)
Theorem write_to_csv_extra_key first good bad rest k filename w :
  (∀ row, row ∈ first :: good →
     ∀ k, k ∈ dict_keys row → k ∈ dict_keys first) →
  k ∈ dict_keys bad → k ∉ dict_keys first →
  write_to_csv repr_str (first :: good ++ bad :: rest) filename w
  = (Raise ValueError,
     {| sent := sent w;
        files :=
          <[filename :=
              csv.writerow (dict_keys first) +:+
              concat_text
                ((λ row,
                    csv.writerow
                      ((λ key, match dict_get key row with
                               | Some v => csv_text repr_str v
                               | None => ""
                               end)
                       <$> dict_keys first))
                 <$> first :: good)]> (files w) |}).
Proof.
  intros Hu Hin Hnot. unfold write_to_csv, csv_dump.
  change (first :: good ++ bad :: rest) with ((first :: good) ++ bad :: rest).
  rewrite writerows_app, (writerows_subset _ _ _ Hu).
  cbn [writerows]. rewrite (dict_to_list_extra _ _ _ Hin Hnot).
  by rewrite written_cells.
Qed.

End WriterErrors.

(** A channel row without its last two keys is written with two empty
    cells. *)
Lemma write_to_csv_missing_keys_witness :
  (write_to_csv quote_repr
     [channel_data_row "ch1"; take 4 (channel_data_row "ch2")]
     "channels_and_destinations.csv" initial_world).1 = Ok () ∧
  (write_to_csv quote_repr
     [channel_data_row "ch1"; take 4 (channel_data_row "ch2")]
     "channels_and_destinations.csv" initial_world).2
  = {| sent := [];
       files :=
         {[ "channels_and_destinations.csv" :=
              "channel_id,channel_name,channel_type,destination_id,destination_key,destination_value"
              +:+ CRLF +:+ "ch1,ops,EMAIL,d1,email,a@x.com"
              +:+ CRLF +:+ "ch2,ops,EMAIL,d1,," +:+ CRLF ]} |}.
Proof.
  rewrite (write_to_csv_missing_keys quote_repr (channel_data_row "ch1")
             [take 4 (channel_data_row "ch2")]).
  - split; reflexivity.
  - intros row [-> | ->%list_elem_of_singleton]%elem_of_cons k Hk; [done |].
    simpl in Hk. unfold dict_keys. simpl.
    repeat (apply elem_of_cons in Hk as [-> | Hk];
            [by apply (bool_decide_unpack _) |]).
    by apply elem_of_nil in Hk.
Defined.

(** A workflow row after a channel row: [ValueError], and the file holds the
    header and the channel row. *)
Lemma write_to_csv_extra_key_witness :
  write_to_csv quote_repr [channel_data_row "ch1"; workflow_row "ch1"]
    "channels_and_destinations.csv" initial_world
  = (Raise ValueError,
     {| sent := [];
        files :=
          {[ "channels_and_destinations.csv" :=
               "channel_id,channel_name,channel_type,destination_id,destination_key,destination_value"
               +:+ CRLF +:+ "ch1,ops,EMAIL,d1,email,a@x.com" +:+ CRLF ]} |}).
Proof.
  rewrite (write_to_csv_extra_key quote_repr (channel_data_row "ch1") []
             (workflow_row "ch1") [] "workflow_name").
  - reflexivity.
  - by intros row ->%list_elem_of_singleton k.
  - by apply (bool_decide_unpack _).
  - by apply (bool_decide_unpack _).
Defined.

(** ** Joining the channel ids and splitting them again *)

Section SplitJoin.

Lemma rev_app_spec (a b : string) : String.rev_app a b = String.rev a +:+ b.
Proof.
  revert b. induction a as [|c a IH]; intros b; [done |].
  unfold String.rev. simpl. rewrite (IH (String c b)), (IH (String c "")).
  by rewrite string_app_assoc.
Qed.

Lemma rev_cons_app c cur s :
  String.rev (String c cur) +:+ s = String.rev cur +:+ String c s.
Proof.
  unfold String.rev at 1. simpl. rewrite rev_app_spec.
  by rewrite string_app_assoc.
Qed.

(** A text without the separator is one piece. *)
Lemma split_go_no_sep s cur :
  has_sep ", " s = false →
  split_go ", " O cur s = [String.rev cur +:+ s].
Proof.
  revert cur. induction s as [|c s IH]; intros cur Hs.
  - simpl. by rewrite string_app_nil_r.
  - cbn [has_sep] in Hs. apply orb_false_elim in Hs as [Hstart Hs].
    cbn [split_go]. rewrite Hstart. rewrite (IH _ Hs).
    by rewrite rev_cons_app.
Qed.

(** A piece without the separator, then the separator: no occurrence of the
    separator starts inside the piece, not even with its last character. *)
Lemma split_go_piece id cur rest :
  has_sep ", " id = false →
  split_go ", " O cur (id +:+ ", " +:+ rest)
  = (String.rev cur +:+ id) :: split_go ", " O "" rest.
Proof.
  revert cur. induction id as [|c id IH]; intros cur Hid.
  - by rewrite string_app_nil_r.
  - cbn [has_sep] in Hid. apply orb_false_elim in Hid as [Hstart Hid].
    change (String c id +:+ ", " +:+ rest)
      with (String c (id +:+ ", " +:+ rest)).
    cbn [split_go].
    assert (startswith ", " (String c (id +:+ ", " +:+ rest)) = false) as ->.
    { simpl in *. case_bool_decide; [| done]. simpl in *.
      destruct id as [|c2 id]; [done | exact Hstart]. }
    rewrite (IH _ Hid). by rewrite rev_cons_app.
Qed.

(** X5. What Stage B joins with ", " Stage D gets back by splitting on
    ", ": the channel ids of the workflow, in order, as long as none of them
    holds the separator.  For a workflow without destination the joined text
    is empty and the split yields the one piece "". *)
Theorem split_recovers_channel_ids (ids : list string) :
  Forall (λ id, has_sep ", " id = false) ids →
  py_split ", " (py_join ", " ids)
  = match ids with [] => [""] | _ :: _ => ids end.
Proof.
  unfold py_split. induction 1 as [|id ids Hid Hids IH]; [done |].
  destruct ids as [|id2 ids].
  - simpl py_join. by rewrite split_go_no_sep.
  - change (py_join ", " (id :: id2 :: ids))
      with (id +:+ ", " +:+ py_join ", " (id2 :: ids)).
    rewrite split_go_piece by done. by rewrite IH.
Qed.

End SplitJoin.

(** Three channel ids, one of them with a comma, and no id at all. *)
Lemma split_recovers_channel_ids_witness :
  py_split ", " (py_join ", " ["ch1"; "ch,2"; ""]) = ["ch1"; "ch,2"; ""] ∧
  py_split ", " (py_join ", " []) = [""].
Proof.
  split.
  - apply (split_recovers_channel_ids ["ch1"; "ch,2"; ""]).
    by repeat constructor.
  - by apply (split_recovers_channel_ids []).
Defined.

(** ** Several rows under one key *)

Section LastWins.

(** X6. Stage B keeps one Stage A row per policy id, the last one: a
    predicate value that names a policy is joined with the last row of that
    policy, whatever rows of the same policy come before.  So of the NRQL
    conditions of one policy only the last reaches the workflow table. *)
Theorem stage_B_last_row_of_policy aps1 ap aps2 w p :
  Predicate.attribute p = "labels.policyIds" →
  Predicate.values p = [JoinedPolicyCondition.alert_policy_id ap] →
  JoinedPolicyCondition.alert_policy_id ap
    ∉ JoinedPolicyCondition.alert_policy_id <$> aps2 →
  process_workflows [with_predicates w [p]] (aps1 ++ ap :: aps2)
  = [ policy_id_row (Workflow.name w) (Workflow.id w)
        (DestinationConfiguration.channelId
           <$> Workflow.destinationConfigurations w)
        ap (JoinedPolicyCondition.alert_policy_id ap) p ].
Proof.
  intros Hattr Hvalues Hlast.
  rewrite (process_workflows_policy_ids _ _ _ Hattr), Hvalues. csimpl.
  unfold alert_policy_dict_of.
  by rewrite (index_last_wins JoinedPolicyCondition.alert_policy_id _ _ _ Hlast).
Qed.

(** X7. Stage D keeps one channel row per channel id, the last one: a
    workflow row that names a channel is combined with the last row of that
    channel.  So of the "email" and "url" rows Stage C writes for one
    channel only the last reaches the final table. *)
Theorem stage_D_last_row_of_channel workflow l1 channel l2 id :
  WorkflowAlertRow workflow →
  Forall ChannelDestinationRow (l1 ++ channel :: l2) →
  dict_get "destination_channel_ids" workflow = Some (PStr id) →
  has_sep ", " id = false →
  dict_get "channel_id" channel = Some (PStr id) →
  id ∉ the_str "channel_id" <$> l2 →
  map_workflows_with_channels [workflow] (l1 ++ channel :: l2)
  = Ok [ ((λ k, (k, the k workflow)) <$> workflow_columns) ++
         [ ("channel_id", PStr id);
           ("destination_channel_name", the "channel_name" channel);
           ("destination_channel_type", the "channel_type" channel);
           ("destination_id", the "destination_id" channel);
           ("destination_key", the "destination_key" channel);
           ("destination_value", the "destination_value" channel) ] ].
Proof.
  intros Hw Hcs Hids Hsep Hid Hlast.
  rewrite map_workflows_with_channels_Ok; [| by apply Forall_singleton | done].
  assert (the_str "channel_id" channel = id) as Hkey.
  { unfold the_str. by rewrite Hid. }
  csimpl. unfold the_str at 1. rewrite Hids.
  unfold py_split. rewrite split_go_no_sep by done.
  change (String.rev "" +:+ id) with id. csimpl.
  unfold combined_row, channel_index.
  rewrite <- Hkey at 1.
  rewrite (index_last_wins (the_str "channel_id")) by (by rewrite Hkey).
  assert (the "channel_id" channel = PStr id) as Hthe.
  { unfold the. by rewrite Hid. }
  unfold channel_entries. csimpl. by rewrite Hthe.
Qed.

End LastWins.

(** A policy with two conditions: the workflow is joined with the second. *)
Lemma stage_B_last_row_of_policy_witness :
  let second := {| JoinedPolicyCondition.alert_policy_name := PStr "CPU High";
                   JoinedPolicyCondition.alert_policy_id := "p1";
                   JoinedPolicyCondition.nrql_condition_id := "c2";
                   JoinedPolicyCondition.alert_condition_name := PStr "load";
                   JoinedPolicyCondition.nrql_query := PStr "SELECT 2";
                   JoinedPolicyCondition.nrql_condition := "" |} in
  let p := {| Predicate.attribute := "labels.policyIds";
              Predicate.operator := PStr "EXACTLY_MATCHES";
              Predicate.values := ["p1"] |} in
  process_workflows [sample_workflow [p]] [cpu_row; second]
  = [ policy_id_row (PStr "route") "w1" ["ch1"; "ch9"] second "p1" p ].
Proof.
  intros second p.
  apply (stage_B_last_row_of_policy [cpu_row] second [] (sample_workflow []) p);
    [done | done |]. apply not_elem_of_nil.
Defined.

(** A channel with an "email" and a "url" row: the workflow row is combined
    with the "url" row. *)
Lemma stage_D_last_row_of_channel_witness :
  let url_row : dict pyval :=
    [ ("channel_id", PStr "ch1"); ("channel_name", PStr "ops");
      ("channel_type", PStr "WEBHOOK"); ("destination_id", PStr "d1");
      ("destination_key", PStr "url");
      ("destination_value", PStr "https://x.example") ] in
  map_workflows_with_channels [workflow_row "ch1"]
    [channel_data_row "ch1"; url_row]
  = Ok [ workflow_row "ch1" ++
         [ ("channel_id", PStr "ch1");
           ("destination_channel_name", PStr "ops");
           ("destination_channel_type", PStr "WEBHOOK");
           ("destination_id", PStr "d1");
           ("destination_key", PStr "url");
           ("destination_value", PStr "https://x.example") ] ].
Proof.
  intros url_row.
  apply (stage_D_last_row_of_channel (workflow_row "ch1")
           [channel_data_row "ch1"] url_row [] "ch1").
  - split; [repeat constructor; by eexists | done].
  - repeat constructor; by eexists.
  - done.
  - done.
  - done.
  - apply not_elem_of_nil.
Defined.

(** ** The tables the stages hand to the writer *)

Section Tables.
Context (repr_str : string → string).

(** Records that all have the columns [cols] are written as a table. *)
Lemma write_to_csv_table cols data filename w :
  data ≠ [] →
  (∀ row, row ∈ data → dict_keys row = cols) →
  write_to_csv repr_str data filename w
  = (Ok (),
     {| sent := sent w;
        files := <[filename := table repr_str cols data]> (files w) |}).
Proof.
  intros Hne Hcols. destruct data as [|first data']; [done |].
  unfold write_to_csv, csv_dump, table.
  rewrite (Hcols first) by apply list_elem_of_here.
  rewrite writerows_uniform; [done |].
  intros row Hrow k. by rewrite (Hcols row Hrow).
Qed.

Lemma process_workflows_keys ws aps row :
  row ∈ process_workflows ws aps → dict_keys row = workflow_columns.
Proof.
  intros (w & f & p & _ & _ & _ & Hrow)%process_workflows_elem.
  by destruct Hrow as [(_ & id & ap & _ & _ & ->) | (_ & ->)].
Qed.

Lemma map_channels_to_destinations_elem chs ds row :
  row ∈ map_channels_to_destinations chs ds →
  ∃ ch k v, ch ∈ chs ∧ row = channel_row ch k v.
Proof.
  induction chs as [|ch chs IH].
  - by intros ?%elem_of_nil.
  - change (ch :: chs) with ([ch] ++ chs).
    rewrite map_channels_to_destinations_app, elem_of_app.
    intros [Hrow | Hrow].
    + exists ch. rewrite map_channel_rows in Hrow.
      assert (row = channel_row ch PNone PNone →
              ∃ k v, ch ∈ [ch] ++ chs ∧ row = channel_row ch k v) as Hnull.
      { intros ->. eexists _, _. split; [apply list_elem_of_here | done]. }
      destruct (_ !! _) as [destination|];
        [| by apply list_elem_of_singleton in Hrow; apply Hnull].
      destruct (filter _ _) as [|prop props];
        [by apply list_elem_of_singleton in Hrow; apply Hnull |].
      apply list_elem_of_fmap in Hrow as (prop' & -> & _).
      eexists _, _. split; [apply list_elem_of_here | done].
    + destruct (IH Hrow) as (ch' & k & v & Hin & ->).
      exists ch', k, v. split; [by apply list_elem_of_further | done].
Qed.

Lemma map_channels_to_destinations_nonempty ch chs ds :
  map_channels_to_destinations (ch :: chs) ds ≠ [].
Proof.
  change (ch :: chs) with ([ch] ++ chs).
  rewrite map_channels_to_destinations_app, map_channel_rows.
  destruct (_ !! _) as [destination|]; [| done].
  by destruct (filter _ _).
Qed.

Lemma for_each_invariant {A X : Type} (P : A → Prop)
    (body : A → X → result A) (l : list X) :
  (∀ acc x acc', P acc → body acc x = Ok acc' → P acc') →
  ∀ acc acc', P acc → for_each body acc l = Ok acc' → P acc'.
Proof.
  intros Hbody. induction l as [|x l IH]; intros acc acc' HP; simpl.
  - by intros [= <-].
  - destruct (body acc x) as [acc1| |] eqn:Hb; [| done..].
    cbn [mbind result_bind]. apply IH. by eapply Hbody.
Qed.

Lemma items_from_keys d entries r :
  items_from d entries = Ok r → r.*1 = entries.*1.
Proof.
  revert r. induction entries as [|[out src] entries IH]; intros r; simpl.
  - by intros [= <-].
  - destruct (getitem src d); [| done..]. cbn [mbind result_bind].
    destruct (items_from d entries) as [rest| |]; [| done..].
    cbn [mbind result_bind]. intros [= <-]. simpl. f_equal. by apply IH.
Qed.

(** One iteration of the inner loop of Stage D adds one row, with the
    nineteen columns. *)
Lemma map_channel_id_row channel_dict workflow acc channel_id acc' :
  map_channel_id channel_dict workflow acc channel_id = Ok acc' →
  ∃ row, acc' = acc ++ [row] ∧ dict_keys row = final_columns.
Proof.
  unfold map_channel_id.
  destruct (channel_dict !! channel_id) as [channel|].
  - destruct (items_from workflow _) as [wf| |] eqn:Hwf; [| done..].
    cbn [mbind result_bind].
    destruct (items_from channel _) as [ch| |] eqn:Hch; [| done..].
    cbn [mbind result_bind]. intros [= <-]. eexists. split; [done |].
    unfold dict_keys. rewrite fmap_app.
    by rewrite (items_from_keys _ _ _ Hwf), (items_from_keys _ _ _ Hch).
  - destruct (items_from workflow _) as [wf| |] eqn:Hwf; [| done..].
    cbn [mbind result_bind]. intros [= <-]. eexists. split; [done |].
    unfold dict_keys. rewrite fmap_app.
    by rewrite (items_from_keys _ _ _ Hwf).
Qed.

Lemma map_channel_ids_rows channel_dict workflow ids : ∀ acc acc',
  for_each (map_channel_id channel_dict workflow) acc ids = Ok acc' →
  (∀ row, row ∈ acc → dict_keys row = final_columns) →
  length acc' = (length acc + length ids)%nat ∧
  (∀ row, row ∈ acc' → dict_keys row = final_columns).
Proof.
  induction ids as [|id ids IH]; intros acc acc'; simpl.
  - intros [= <-] Hacc. split; [lia | done].
  - destruct (map_channel_id _ _ acc id) as [acc1| |] eqn:Hid; [| done..].
    cbn [mbind result_bind]. intros Hloop Hacc.
    apply map_channel_id_row in Hid as (row & -> & Hrow).
    apply IH in Hloop as [Hlen Hkeys].
    + split; [| done]. rewrite Hlen, length_app. simpl. lia.
    + intros r [Hr | ->%list_elem_of_singleton]%elem_of_app; [by apply Hacc | done].
Qed.

Lemma map_workflow_rows channel_dict acc workflow acc' :
  map_workflow channel_dict acc workflow = Ok acc' →
  (∀ row, row ∈ acc → dict_keys row = final_columns) →
  (length acc < length acc')%nat ∧
  (∀ row, row ∈ acc' → dict_keys row = final_columns).
Proof.
  unfold map_workflow, split_channel_ids.
  destruct (getitem _ workflow) as [[| | | |s|]| |]; try done.
  cbn [mbind result_bind].
  pose proof (py_split_nonempty ", " s) as Hne.
  intros Hloop Hacc.
  apply map_channel_ids_rows in Hloop as [Hlen Hkeys]; [| done].
  split; [| done]. destruct (py_split ", " s); [done |]. simpl in Hlen. lia.
Qed.

Lemma map_workflows_rows channel_dict workflows_data : ∀ acc acc',
  for_each (map_workflow channel_dict) acc workflows_data = Ok acc' →
  (∀ row, row ∈ acc → dict_keys row = final_columns) →
  (length acc + length workflows_data ≤ length acc')%nat ∧
  (∀ row, row ∈ acc' → dict_keys row = final_columns).
Proof.
  induction workflows_data as [|workflow l IH]; intros acc acc'; simpl.
  - intros [= <-] Hacc. split; [lia | done].
  - destruct (map_workflow _ acc workflow) as [acc1| |] eqn:Hw; [| done..].
    cbn [mbind result_bind]. intros Hloop Hacc.
    apply map_workflow_rows in Hw as [Hlt Hacc1]; [| done].
    apply IH in Hloop as [Hlen Hkeys]; [| done].
    split; [lia | done].
Qed.

(** X8. Stage B only produces rows with the thirteen workflow columns, so
    the writer never rejects one of them: the table is written, header and
    one line per row, unless there is no row at all, in which case the
    writer raises [IndexError] and leaves an empty file. *)
Theorem stage_B_table_written workflows alert_policies filename w :
  write_to_csv repr_str (process_workflows workflows alert_policies) filename w
  = match process_workflows workflows alert_policies with
    | [] =>
        (Raise IndexError,
         {| sent := sent w; files := <[filename := ""]> (files w) |})
    | rows =>
        (Ok (),
         {| sent := sent w;
            files :=
              <[filename := table repr_str workflow_columns rows]> (files w) |})
    end.
Proof.
  destruct (process_workflows workflows alert_policies) as [|row rows] eqn:H;
    [done |].
  apply write_to_csv_table; [done |].
  intros r Hr. rewrite <- H in Hr. by eapply process_workflows_keys.
Qed.

(** X9. Stage C produces at least one row per channel, each with the six
    channel columns: the channel table is written whenever there is a
    channel, whatever the destinations are, and with no channel the writer
    raises [IndexError] and leaves an empty file. *)
Theorem stage_C_table_written channels destinations filename w :
  write_to_csv repr_str (map_channels_to_destinations channels destinations)
    filename w
  = match channels with
    | [] =>
        (Raise IndexError,
         {| sent := sent w; files := <[filename := ""]> (files w) |})
    | _ =>
        (Ok (),
         {| sent := sent w;
            files :=
              <[filename :=
                  table repr_str channel_columns
                    (map_channels_to_destinations channels destinations)]>
                (files w) |})
    end.
Proof.
  destruct channels as [|ch chs]; [done |].
  apply write_to_csv_table; [apply map_channels_to_destinations_nonempty |].
  by intros row (ch' & k & v & _ & ->)%map_channels_to_destinations_elem.
Qed.

(** X10. Whenever Stage D returns, each of its rows has the nineteen
    columns of the final table, and there is at least one row as soon as
    there is a workflow row: the writer then writes the final table. *)
Theorem stage_D_table_written workflows_data channels_data rows filename w :
  workflows_data ≠ [] →
  map_workflows_with_channels workflows_data channels_data = Ok rows →
  (length workflows_data ≤ length rows)%nat ∧
  write_to_csv repr_str rows filename w
  = (Ok (),
     {| sent := sent w;
        files := <[filename := table repr_str final_columns rows]> (files w) |}).
Proof.
  intros Hne. unfold map_workflows_with_channels.
  destruct (channel_dict_of channels_data) as [channel_dict| |]; [| done..].
  cbn [mbind result_bind]. intros Hrows.
  apply map_workflows_rows in Hrows as [Hlen Hkeys];
    [| by intros row ?%elem_of_nil].
  split; [done |]. apply write_to_csv_table; [| done].
  destruct workflows_data; [done |]. by destruct rows; [simpl in Hlen; lia |].
Qed.

End Tables.

(** A workflow row that names two channels: two rows, written as the final
    table. *)
Lemma stage_D_table_written_witness :
  ∃ rows,
    map_workflows_with_channels [workflow_row "ch1, ch2"]
      [channel_data_row "ch1"] = Ok rows ∧
    (1 ≤ length rows)%nat ∧
    write_to_csv quote_repr rows "workflows_with_channels.csv" initial_world
    = (Ok (),
       {| sent := [];
          files := {[ "workflows_with_channels.csv" :=
                        table quote_repr final_columns rows ]} |}).
Proof.
  eexists. split; [reflexivity |].
  apply (stage_D_table_written quote_repr [workflow_row "ch1, ch2"]
           [channel_data_row "ch1"]); [done | reflexivity].
Defined.

(** ** The fetchers of the two parts *)

Section Fetchers.
Context (repr_str : string → string) (ACCOUNT_ID : Z) (server : Server).

Lemma policies_then_conditions log files policy_pages condition_pages fuel :
  serves ACCOUNT_ID server policiesSearch_query policiesSearch
    log "" policy_pages →
  serves ACCOUNT_ID server nrqlConditionsSearch_query nrqlConditionsSearch
    (log ++ page_requests ACCOUNT_ID policiesSearch_query "" policy_pages)
    "" condition_pages →
  (length policy_pages ≤ fuel)%nat →
  (length condition_pages ≤ fuel)%nat →
  get_alert_policies_and_conditions repr_str ACCOUNT_ID server fuel
    {| sent := log; files := files |}
  = (Ok (map_policies_to_conditions repr_str
           (concat policy_pages.*1) (concat condition_pages.*1)),
     {| sent := log
          ++ page_requests ACCOUNT_ID policiesSearch_query "" policy_pages
          ++ page_requests ACCOUNT_ID nrqlConditionsSearch_query ""
               condition_pages;
        files := files |}).
Proof.
  intros Hp Hc Hfp Hfc.
  unfold get_alert_policies_and_conditions, fetch_policies,
    fetch_nrql_conditions, mbind, IO_bind.
  destruct (serves_fetch _ _ _ _ _ _ _ files Hp fuel []) as [H1 _].
  rewrite H1 by done.
  destruct (serves_fetch _ _ _ _ _ _ _ files Hc fuel []) as [H2 _].
  rewrite H2 by done.
  simpl. by rewrite <- app_assoc.
Qed.

Lemma channels_then_destinations log files channel_pages destinations fuel :
  serves_part_2 ACCOUNT_ID server log channel_pages destinations →
  (length channel_pages ≤ fuel)%nat →
  get_channels_and_destinations ACCOUNT_ID server fuel
    {| sent := log; files := files |}
  = (Ok (concat channel_pages.*1, destinations),
     {| sent := log ++ part_2_requests ACCOUNT_ID channel_pages;
        files := files |}).
Proof.
  intros [Hch (response & Hs & Hok & Hj)] Hfuel.
  unfold get_channels_and_destinations, fetch_channels, mbind, IO_bind.
  destruct (serves_fetch _ _ _ _ _ _ _ files Hch fuel []) as [H1 _].
  rewrite H1 by done.
  rewrite fetch_data_run. simpl. unfold destinations_request in Hs.
  rewrite Hs, bool_decide_eq_false_2, Hj by done.
  unfold part_2_requests. simpl. by rewrite <- app_assoc.
Qed.

(** X11. [get_alert_policies_and_conditions] runs its two loops one after
    the other: when the server serves pages of policies and then pages of
    NRQL conditions, it returns Stage A of all the policies and all the
    conditions, after the requests for the policy pages followed by those
    for the condition pages. *)
Theorem get_alert_policies_and_conditions_served
    log files policy_pages condition_pages fuel :
  serves ACCOUNT_ID server policiesSearch_query policiesSearch
    log "" policy_pages →
  serves ACCOUNT_ID server nrqlConditionsSearch_query nrqlConditionsSearch
    (log ++ page_requests ACCOUNT_ID policiesSearch_query "" policy_pages)
    "" condition_pages →
  (length policy_pages ≤ fuel)%nat →
  (length condition_pages ≤ fuel)%nat →
  get_alert_policies_and_conditions repr_str ACCOUNT_ID server fuel
    {| sent := log; files := files |}
  = (Ok (map_policies_to_conditions repr_str
           (concat policy_pages.*1) (concat condition_pages.*1)),
     {| sent := log
          ++ page_requests ACCOUNT_ID policiesSearch_query "" policy_pages
          ++ page_requests ACCOUNT_ID nrqlConditionsSearch_query ""
               condition_pages;
        files := files |}).
Proof. apply policies_then_conditions. Qed.

(** X12. [get_channels_and_destinations] pages through the channels and
    then asks for the destinations once, without a cursor: when the server
    serves pages of channels and then answers the destinations request, it
    returns all the channels and the destinations of that one answer. *)
Theorem get_channels_and_destinations_served
    log files channel_pages destinations fuel :
  serves_part_2 ACCOUNT_ID server log channel_pages destinations →
  (length channel_pages ≤ fuel)%nat →
  get_channels_and_destinations ACCOUNT_ID server fuel
    {| sent := log; files := files |}
  = (Ok (concat channel_pages.*1, destinations),
     {| sent := log ++ part_2_requests ACCOUNT_ID channel_pages;
        files := files |}).
Proof. apply channels_then_destinations. Qed.

End Fetchers.

(** One page of policies and one of conditions: the condition is joined with
    its policy after two requests. *)
Lemma get_alert_policies_and_conditions_served_witness :
  get_alert_policies_and_conditions quote_repr 7 one_page_server 1
    initial_world
  = (Ok [cpu_row],
     {| sent := [page_request 7 policiesSearch_query "";
                 page_request 7 nrqlConditionsSearch_query ""];
        files := ∅ |}).
Proof.
  apply (get_alert_policies_and_conditions_served quote_repr 7 one_page_server
           [] ∅ [([cpu_policy], None)] [([cpu_condition], Some "")] 1).
  - eapply serves_last; [reflexivity | simpl; lia | reflexivity | reflexivity |].
    by left.
  - eapply serves_last; [reflexivity | simpl; lia | reflexivity | reflexivity |].
    by right.
  - simpl. lia.
  - simpl. lia.
Defined.

(** One page of channels, then the destinations. *)
Lemma get_channels_and_destinations_served_witness :
  get_channels_and_destinations 7 one_page_server 1 initial_world
  = (Ok ([sample_channel "ch1" "d1"], [mail_destination]),
     {| sent := [page_request 7 channels_query ""; destinations_request 7];
        files := ∅ |}).
Proof.
  apply (get_channels_and_destinations_served 7 one_page_server
           [] ∅ [([sample_channel "ch1" "d1"], None)] [mail_destination] 1).
  - split.
    + eapply serves_last;
        [reflexivity | simpl; lia | reflexivity | reflexivity |].
      by left.
    + eexists. split; [reflexivity |]. split; [simpl; lia | reflexivity].
  - simpl. lia.
Defined.

(** ** The three parts and the whole run *)

Section Pipeline.
Context (repr_str : string → string) (ACCOUNT_ID : Z) (server : Server).

(** Part 1 when the server serves it. *)
Lemma part_1_run log files policy_pages condition_pages workflow_pages fuel :
  serves_part_1 ACCOUNT_ID server log
    policy_pages condition_pages workflow_pages →
  (length policy_pages ≤ fuel)%nat →
  (length condition_pages ≤ fuel)%nat →
  (length workflow_pages ≤ fuel)%nat →
  generate_workflows_with_alert_policies repr_str ACCOUNT_ID server fuel
    {| sent := log; files := files |}
  = write_to_csv repr_str
      (process_workflows (concat workflow_pages.*1)
         (map_policies_to_conditions repr_str
            (concat policy_pages.*1) (concat condition_pages.*1)))
      "workflows_with_alert_policies.csv"
      {| sent := log ++ part_1_requests ACCOUNT_ID
                          policy_pages condition_pages workflow_pages;
         files := files |}.
Proof.
  intros (Hp & Hc & Hw) Hfp Hfc Hfw.
  unfold generate_workflows_with_alert_policies.
  unfold mbind at 1, IO_bind at 1.
  rewrite (policies_then_conditions _ _ _ _ _ _ _ _ Hp Hc Hfp Hfc).
  unfold mbind at 1, IO_bind at 1. unfold get_workflows.
  destruct (serves_fetch _ _ _ _ _ _ _ files Hw fuel []) as [H1 _].
  rewrite H1 by done. simpl.
  unfold part_1_requests. by rewrite <- !app_assoc.
Qed.

(** Part 2 when the server serves it. *)
Lemma part_2_run log files channel_pages destinations fuel :
  serves_part_2 ACCOUNT_ID server log channel_pages destinations →
  (length channel_pages ≤ fuel)%nat →
  generate_channels_and_destinations repr_str ACCOUNT_ID server fuel
    {| sent := log; files := files |}
  = write_to_csv repr_str
      (map_channels_to_destinations (concat channel_pages.*1) destinations)
      "channels_and_destinations.csv"
      {| sent := log ++ part_2_requests ACCOUNT_ID channel_pages;
         files := files |}.
Proof.
  intros Hs Hfuel. unfold generate_channels_and_destinations.
  unfold mbind at 1, IO_bind at 1.
  by rewrite (channels_then_destinations _ _ _ _ _ _ _ Hs Hfuel).
Qed.

(** What is read back from a table. *)
Lemma DictReader_table cols rows :
  rows ≠ [] → cols ≠ [] → NoDup cols →
  Forall (λ k, universal_newlines k = k) cols →
  Forall within_limit cols →
  (∀ row, row ∈ rows → dict_keys row = cols) →
  cells_within_limit repr_str cols rows →
  DictReader (table repr_str cols rows) = Ok (read_back repr_str cols <$> rows).
Proof.
  intros Hrows Hcols Hnd Hun Hlim Hkeys Hcells.
  destruct rows as [|first data']; [done |].
  assert (dict_keys first = cols) as Hfirst by apply Hkeys, list_elem_of_here.
  assert (universal_newlines <$> cols = cols) as Hfix.
  { clear -Hun. induction Hun as [|k l Hk _ IH]; [done |].
    by rewrite fmap_cons, Hk, IH. }
  assert ((csv_dump repr_str (first :: data')).2
          = table repr_str cols (first :: data')) as Hdump.
  { unfold csv_dump, table. rewrite Hfirst.
    rewrite writerows_uniform; [done |].
    intros row Hrow k. by rewrite (Hkeys row Hrow). }
  pose proof (DictReader_csv_dump repr_str first data') as H.
  cbv zeta in H. rewrite Hfirst, Hdump in H. rewrite H; try done.
  - f_equal. apply list_fmap_ext. intros i row _. unfold read_back.
    apply list_fmap_ext. intros j k Hk. simpl.
    by rewrite (Forall_lookup_1 _ _ _ _ Hun Hk).
  - by rewrite Hfix.
  - intros row Hrow k. by rewrite (Hkeys row Hrow).
Qed.

Lemma read_back_get cols row k :
  k ∈ cols →
  dict_get k (read_back repr_str cols row)
  = Some (PStr (universal_newlines (csv_text repr_str (the k row)))).
Proof.
  unfold read_back. induction cols as [|k' cols IH]; simpl.
  - by intros ?%elem_of_nil.
  - intros Hin. case_decide as Hk; [by subst |].
    apply IH. by apply elem_of_cons in Hin as [-> | ?].
Qed.

Lemma read_back_workflow_row row :
  WorkflowAlertRow (read_back repr_str workflow_columns row).
Proof.
  split.
  - apply Forall_forall. intros k Hk. rewrite read_back_get by done.
    by eexists.
  - rewrite read_back_get; [done |].
    repeat (apply list_elem_of_here || apply list_elem_of_further).
Qed.

Lemma read_back_channel_row row :
  ChannelDestinationRow (read_back repr_str channel_columns row).
Proof.
  split.
  - apply Forall_forall. intros k Hk. rewrite read_back_get by done.
    by eexists.
  - rewrite read_back_get; [done | apply list_elem_of_here].
Qed.

Lemma map_workflows_with_channels_keys workflows_data channels_data rows :
  map_workflows_with_channels workflows_data channels_data = Ok rows →
  (length workflows_data ≤ length rows)%nat ∧
  (∀ row, row ∈ rows → dict_keys row = final_columns).
Proof.
  unfold map_workflows_with_channels.
  destruct (channel_dict_of channels_data) as [channel_dict| |]; [| done..].
  cbn [mbind result_bind]. intros Hrows.
  by apply map_workflows_rows in Hrows; [| by intros row ?%elem_of_nil].
Qed.

(** Part 3 on the tables of Part 1 and Part 2. *)
Lemma part_3_run (workflow_rows channel_rows : list (dict pyval)) w :
  workflow_rows ≠ [] → channel_rows ≠ [] →
  (∀ row, row ∈ workflow_rows → dict_keys row = workflow_columns) →
  (∀ row, row ∈ channel_rows → dict_keys row = channel_columns) →
  cells_within_limit repr_str workflow_columns workflow_rows →
  cells_within_limit repr_str channel_columns channel_rows →
  files w !! "workflows_with_alert_policies.csv"
    = Some (table repr_str workflow_columns workflow_rows) →
  files w !! "channels_and_destinations.csv"
    = Some (table repr_str channel_columns channel_rows) →
  generate_workflows_with_channels repr_str w
  = (Ok (),
     {| sent := sent w;
        files :=
          <["workflows_with_channels.csv" :=
              table repr_str final_columns
                (combined_rows
                   (read_back repr_str workflow_columns <$> workflow_rows)
                   (read_back repr_str channel_columns <$> channel_rows))]>
            (files w) |}).
Proof.
  intros Hws Hcs Hwk Hck Hwl Hcl Hf1 Hf2.
  unfold generate_workflows_with_channels, read_csv.
  unfold mbind at 1, IO_bind at 1. rewrite Hf1.
  rewrite DictReader_table; try done.
  2: by apply (bool_decide_unpack _).
  2, 3: repeat (constructor; [by vm_compute |]); constructor.
  unfold mbind at 1, IO_bind at 1. rewrite Hf2.
  rewrite DictReader_table; try done.
  2: by apply (bool_decide_unpack _).
  2, 3: repeat (constructor; [by vm_compute |]); constructor.
  unfold mbind at 1, IO_bind at 1, lift.
  pose proof (map_workflows_with_channels_Ok
                (read_back repr_str workflow_columns <$> workflow_rows)
                (read_back repr_str channel_columns <$> channel_rows)) as HD.
  fold (combined_rows (read_back repr_str workflow_columns <$> workflow_rows)
          (read_back repr_str channel_columns <$> channel_rows)) in HD.
  assert (Forall WorkflowAlertRow
            (read_back repr_str workflow_columns <$> workflow_rows)) as HW.
  { apply Forall_fmap, Forall_forall. intros row _.
    apply read_back_workflow_row. }
  assert (Forall ChannelDestinationRow
            (read_back repr_str channel_columns <$> channel_rows)) as HC.
  { apply Forall_fmap, Forall_forall. intros row _.
    apply read_back_channel_row. }
  specialize (HD HW HC). rewrite HD.
  apply map_workflows_with_channels_keys in HD as [Hlen Hkeys].
  apply write_to_csv_table; [| done].
  rewrite length_fmap in Hlen.
  destruct workflow_rows; [done |]. by destruct (combined_rows _ _); [simpl in Hlen; lia |].
Qed.

(** The fetchers leave the files alone. *)
Lemma fetch_all_pages_files {E : Type} query
    (extract : Body → result (list E * option string)) fuel :
  ∀ cursor acc w,
    files (fetch_all_pages ACCOUNT_ID server query extract fuel cursor acc w).2
    = files w.
Proof.
  induction fuel as [|fuel IH]; intros cursor acc w; [done |].
  rewrite fetch_all_pages_step, fetch_data_run.
  destruct (server _ _) as [|response]; [done |].
  case_bool_decide; [done |].
  destruct (json response) as [body|]; [| done].
  destruct (extract body) as [[entities [[|c s]|]]| |]; try done.
  simpl. by rewrite IH.
Qed.

Lemma get_alert_policies_and_conditions_files fuel w :
  files (get_alert_policies_and_conditions repr_str ACCOUNT_ID server fuel w).2
  = files w.
Proof.
  unfold get_alert_policies_and_conditions, fetch_policies,
    fetch_nrql_conditions, mbind, IO_bind.
  pose proof (fetch_all_pages_files policiesSearch_query policiesSearch
                fuel "" [] w) as H1.
  destruct (fetch_all_pages _ _ policiesSearch_query _ _ _ _ _)
    as [[policies| |] w1]; [| done..].
  pose proof (fetch_all_pages_files nrqlConditionsSearch_query
                nrqlConditionsSearch fuel "" [] w1) as H2.
  destruct (fetch_all_pages _ _ nrqlConditionsSearch_query _ _ _ _ _)
    as [[conditions| |] w2]; simpl in *; congruence.
Qed.

(** X13. Part 3 on the files of Part 1 and Part 2.  When the two files hold
    tables of workflow rows and of channel rows whose cells are within the
    reader's field limit, [generate_workflows_with_channels] does not raise:
    it writes the final table, whose rows are the Stage D rows of the records
    read back, every value of which is the text of its cell. *)
Theorem generate_workflows_with_channels_on_tables
    (workflow_rows channel_rows : list (dict pyval)) w :
  workflow_rows ≠ [] → channel_rows ≠ [] →
  (∀ row, row ∈ workflow_rows → dict_keys row = workflow_columns) →
  (∀ row, row ∈ channel_rows → dict_keys row = channel_columns) →
  cells_within_limit repr_str workflow_columns workflow_rows →
  cells_within_limit repr_str channel_columns channel_rows →
  files w !! "workflows_with_alert_policies.csv"
    = Some (table repr_str workflow_columns workflow_rows) →
  files w !! "channels_and_destinations.csv"
    = Some (table repr_str channel_columns channel_rows) →
  generate_workflows_with_channels repr_str w
  = (Ok (),
     {| sent := sent w;
        files :=
          <["workflows_with_channels.csv" :=
              table repr_str final_columns
                (combined_rows
                   (read_back repr_str workflow_columns <$> workflow_rows)
                   (read_back repr_str channel_columns <$> channel_rows))]>
            (files w) |}).
Proof. apply part_3_run. Qed.

(** X14. The whole run.  When the server serves the three loops of Part 1
    and then Part 2, Stage B yields at least one row, there is at least one
    channel, and no cell is longer than the reader's field limit, [main]
    returns after exactly the requests of the two parts and leaves the three
    tables: the workflow rows, the channel rows, and the Stage D rows of
    what is read back from the first two. *)
Theorem main_writes_three_tables log files
    policy_pages condition_pages workflow_pages channel_pages destinations
    fuel :
  let alert_policies :=
    map_policies_to_conditions repr_str
      (concat policy_pages.*1) (concat condition_pages.*1) in
  let workflow_rows :=
    process_workflows (concat workflow_pages.*1) alert_policies in
  let channel_rows :=
    map_channels_to_destinations (concat channel_pages.*1) destinations in
  let log1 :=
    log ++ part_1_requests ACCOUNT_ID
             policy_pages condition_pages workflow_pages in
  serves_part_1 ACCOUNT_ID server log
    policy_pages condition_pages workflow_pages →
  serves_part_2 ACCOUNT_ID server log1 channel_pages destinations →
  Forall (λ n, (n ≤ fuel)%nat)
    [length policy_pages; length condition_pages; length workflow_pages;
     length channel_pages] →
  workflow_rows ≠ [] →
  concat channel_pages.*1 ≠ [] →
  cells_within_limit repr_str workflow_columns workflow_rows →
  cells_within_limit repr_str channel_columns channel_rows →
  main repr_str ACCOUNT_ID server fuel {| sent := log; files := files |}
  = (Ok (),
     {| sent := log1 ++ part_2_requests ACCOUNT_ID channel_pages;
        files :=
          <["workflows_with_channels.csv" :=
              table repr_str final_columns
                (combined_rows
                   (read_back repr_str workflow_columns <$> workflow_rows)
                   (read_back repr_str channel_columns <$> channel_rows))]>
            (<["channels_and_destinations.csv" :=
                 table repr_str channel_columns channel_rows]>
               (<["workflows_with_alert_policies.csv" :=
                    table repr_str workflow_columns workflow_rows]>
                  files)) |}).
Proof.
  intros alert_policies workflow_rows channel_rows log1 H1 H2 Hfuel
    Hws Hchs Hwl Hcl.
  apply Forall_cons in Hfuel as [Hfp Hfuel].
  apply Forall_cons in Hfuel as [Hfc Hfuel].
  apply Forall_cons in Hfuel as [Hfw Hfuel].
  apply Forall_cons in Hfuel as [Hfch _].
  assert (∀ row, row ∈ workflow_rows → dict_keys row = workflow_columns)
    as Hwk by (intros row; apply process_workflows_keys).
  assert (∀ row, row ∈ channel_rows → dict_keys row = channel_columns)
    as Hck.
  { by intros row (ch & k & v & _ & ->)%map_channels_to_destinations_elem. }
  assert (channel_rows ≠ []) as Hcs.
  { unfold channel_rows. destruct (concat channel_pages.*1); [done |].
    apply map_channels_to_destinations_nonempty. }
  unfold main. unfold mbind at 1, IO_bind at 1.
  rewrite (part_1_run _ _ _ _ _ _ H1 Hfp Hfc Hfw).
  fold alert_policies. fold workflow_rows. fold log1.
  rewrite (write_to_csv_table repr_str workflow_columns) by done.
  unfold mbind at 1, IO_bind at 1. cbn [sent].
  rewrite (part_2_run _ _ _ _ _ H2 Hfch). fold channel_rows.
  rewrite (write_to_csv_table repr_str channel_columns) by done.
  cbn [sent].
  rewrite (part_3_run workflow_rows channel_rows); try done.
  - simpl. rewrite lookup_insert_ne by done. by rewrite lookup_insert_eq.
  - simpl. by rewrite lookup_insert_eq.
Qed.

(** X15. When Part 1 has fetched everything and Stage B yields no row (no
    workflow has a predicate on policy ids that names a fetched policy with a
    condition, nor one on the policy name), [main] ends there with
    [IndexError]: the workflow file is left empty, the channels are never
    asked for and the other two files are never opened. *)
Theorem main_without_workflow_rows log files
    policy_pages condition_pages workflow_pages fuel :
  serves_part_1 ACCOUNT_ID server log
    policy_pages condition_pages workflow_pages →
  Forall (λ n, (n ≤ fuel)%nat)
    [length policy_pages; length condition_pages; length workflow_pages] →
  process_workflows (concat workflow_pages.*1)
    (map_policies_to_conditions repr_str
       (concat policy_pages.*1) (concat condition_pages.*1)) = [] →
  main repr_str ACCOUNT_ID server fuel {| sent := log; files := files |}
  = (Raise IndexError,
     {| sent := log ++ part_1_requests ACCOUNT_ID
                         policy_pages condition_pages workflow_pages;
        files := <["workflows_with_alert_policies.csv" := ""]> files |}).
Proof.
  intros H1 Hfuel Hempty.
  apply Forall_cons in Hfuel as [Hfp Hfuel].
  apply Forall_cons in Hfuel as [Hfc Hfuel].
  apply Forall_cons in Hfuel as [Hfw _].
  unfold main. unfold mbind at 1, IO_bind at 1.
  by rewrite (part_1_run _ _ _ _ _ _ H1 Hfp Hfc Hfw), Hempty.
Qed.

(** X16. An exception while Part 1 fetches (the transport fails, the status
    is an error, the body is not JSON or lacks the path) ends the whole run
    with that exception, before any file is opened. *)
Theorem fetch_failure_ends_run fuel w e w' :
  (get_alert_policies_and_conditions repr_str ACCOUNT_ID server fuel w
     = (Raise e, w')
   ∨ ∃ alert_policies w1,
       get_alert_policies_and_conditions repr_str ACCOUNT_ID server fuel w
         = (Ok alert_policies, w1) ∧
       get_workflows ACCOUNT_ID server fuel w1 = (Raise e, w')) →
  main repr_str ACCOUNT_ID server fuel w = (Raise e, w') ∧
  files w' = files w.
Proof.
  intros H. pose proof (get_alert_policies_and_conditions_files fuel w) as Hf.
  unfold main, generate_workflows_with_alert_policies.
  unfold mbind at 1, IO_bind at 1. unfold mbind at 1, IO_bind at 1.
  destruct H as [H | (alert_policies & w1 & H & Hw)]; rewrite H in *.
  - done.
  - unfold mbind at 1, IO_bind at 1. rewrite Hw. split; [done |].
    pose proof (fetch_all_pages_files workflows_query aiWorkflows_workflows
                  fuel "" [] w1) as Hf1.
    unfold get_workflows in Hw. rewrite Hw in Hf1. simpl in *. congruence.
Qed.

End Pipeline.

(** The two files hold a row with a query on two lines and a row with a
    null, a number and quoted text: Part 3 writes the final table. *)
Lemma generate_workflows_with_channels_on_tables_witness :
  let w :=
    {| sent := [];
       files :=
         <["workflows_with_alert_policies.csv" :=
             table quote_repr workflow_columns [two_line_row]]>
           (<["channels_and_destinations.csv" :=
                table quote_repr channel_columns [awkward_row]]> ∅) |} in
  generate_workflows_with_channels quote_repr w
  = (Ok (),
     {| sent := [];
        files :=
          <["workflows_with_channels.csv" :=
              table quote_repr final_columns
                (combined_rows
                   (read_back quote_repr workflow_columns <$> [two_line_row])
                   (read_back quote_repr channel_columns <$> [awkward_row]))]>
            (files w) |}).
Proof.
  intros w.
  apply (generate_workflows_with_channels_on_tables quote_repr
           [two_line_row] [awkward_row] w).
  - done.
  - done.
  - by intros row ->%list_elem_of_singleton.
  - by intros row ->%list_elem_of_singleton.
  - intros row ->%list_elem_of_singleton.
    repeat (constructor; [by vm_compute |]). constructor.
  - intros row ->%list_elem_of_singleton.
    repeat (constructor; [by vm_compute |]). constructor.
  - reflexivity.
  - reflexivity.
Defined.

(** One policy with one condition, one workflow that names the policy and
    two channels, one channel with an email destination: five requests,
    three tables. *)
Lemma main_writes_three_tables_witness :
  let workflow_rows :=
    [policy_id_row (PStr "route") "w1" ["ch1"; "ch9"] cpu_row "p1"
       policy_ids_predicate] in
  let channel_rows :=
    [channel_row (sample_channel "ch1" "d1") (PStr "email") (PStr "a@x.com")] in
  main quote_repr 7 one_page_server 1 initial_world
  = (Ok (),
     {| sent := [page_request 7 policiesSearch_query "";
                 page_request 7 nrqlConditionsSearch_query "";
                 page_request 7 workflows_query "";
                 page_request 7 channels_query "";
                 destinations_request 7];
        files :=
          <["workflows_with_channels.csv" :=
              table quote_repr final_columns
                (combined_rows
                   (read_back quote_repr workflow_columns <$> workflow_rows)
                   (read_back quote_repr channel_columns <$> channel_rows))]>
            (<["channels_and_destinations.csv" :=
                 table quote_repr channel_columns channel_rows]>
               (<["workflows_with_alert_policies.csv" :=
                    table quote_repr workflow_columns workflow_rows]> ∅)) |}).
Proof.
  intros workflow_rows channel_rows.
  apply (main_writes_three_tables quote_repr 7 one_page_server [] ∅
           [([cpu_policy], None)] [([cpu_condition], Some "")]
           [([sample_workflow [policy_ids_predicate]], None)]
           [([sample_channel "ch1" "d1"], None)] [mail_destination] 1).
  - split; [| split].
    + eapply serves_last;
        [reflexivity | simpl; lia | reflexivity | reflexivity | by left].
    + eapply serves_last;
        [reflexivity | simpl; lia | reflexivity | reflexivity | by right].
    + eapply serves_last;
        [reflexivity | simpl; lia | reflexivity | reflexivity | by left].
  - split.
    + eapply serves_last;
        [reflexivity | simpl; lia | reflexivity | reflexivity | by left].
    + eexists. split; [reflexivity |]. split; [simpl; lia | reflexivity].
  - repeat (constructor; [simpl; lia |]). constructor.
  - by vm_compute.
  - done.
  - intros row Hrow. change (row ∈ workflow_rows) in Hrow.
    apply list_elem_of_singleton in Hrow as ->.
    repeat (constructor; [by vm_compute |]). constructor.
  - intros row Hrow. change (row ∈ channel_rows) in Hrow.
    apply list_elem_of_singleton in Hrow as ->.
    repeat (constructor; [by vm_compute |]). constructor.
Defined.

(** An account without workflows: three requests, an empty workflow file,
    [IndexError]. *)
Lemma main_without_workflow_rows_witness :
  main quote_repr 7 quiet_server 1 initial_world
  = (Raise IndexError,
     {| sent := [page_request 7 policiesSearch_query "";
                 page_request 7 nrqlConditionsSearch_query "";
                 page_request 7 workflows_query ""];
        files := <["workflows_with_alert_policies.csv" := ""]> ∅ |}).
Proof.
  apply (main_without_workflow_rows quote_repr 7 quiet_server [] ∅
           [([cpu_policy], None)] [([], None)] [([], None)] 1).
  - split; [| split];
      (eapply serves_last;
         [reflexivity | simpl; lia | reflexivity | reflexivity | by left]).
  - repeat (constructor; [simpl; lia |]). constructor.
  - reflexivity.
Defined.

(** A server that answers 503: the run ends on the first request, no file. *)
Lemma fetch_failure_ends_run_witness :
  main quote_repr 7 unavailable_server 1 initial_world
  = (Raise (HTTPError 503),
     {| sent := [page_request 7 policiesSearch_query ""]; files := ∅ |}) ∧
  files {| sent := [page_request 7 policiesSearch_query ""]; files := ∅ |}
  = files initial_world.
Proof.
  apply (fetch_failure_ends_run quote_repr 7 unavailable_server 1
           initial_world). left. reflexivity.
Defined.

(** ** Rows Stage D cannot use *)

Section StageDErrors.

Lemma for_each_app {A X : Type} (body : A → X → result A) (l1 l2 : list X) :
  ∀ acc,
    for_each body acc (l1 ++ l2)
    = (acc1 ← for_each body acc l1; for_each body acc1 l2).
Proof.
  induction l1 as [|x l1 IH]; intros acc; [done |].
  simpl. destruct (body acc x); [apply IH | done..].
Qed.

(** X17. A channel row without the key "channel_id" makes Stage D raise
    [KeyError] while it builds its mapping, before it looks at any workflow
    row: even with no workflow row there is no result. *)
Theorem stage_D_channel_row_without_id workflows_data cd1 channel cd2 :
  Forall ChannelDestinationRow cd1 →
  dict_get "channel_id" channel = None →
  map_workflows_with_channels workflows_data (cd1 ++ channel :: cd2)
  = Raise (KeyError "channel_id").
Proof.
  intros Hcd1 Hnone. unfold map_workflows_with_channels.
  pose proof (channel_dict_of_Ok _ Hcd1) as H1.
  unfold channel_dict_of in *. rewrite for_each_app, H1.
  cbn [mbind result_bind for_each]. unfold getitem. by rewrite Hnone.
Qed.

(** X18. Stage D stops at the first workflow row that has no text under
    "destination_channel_ids", and the rows built so far are lost: it raises
    [KeyError] when the row lacks the key, and [AttributeError] when the
    value is a null, which is what the reader puts there for a line that
    ends before the third cell. *)
Theorem stage_D_workflow_row_without_channel_ids wd1 workflow wd2 channels_data :
  Forall WorkflowAlertRow wd1 →
  Forall ChannelDestinationRow channels_data →
  (dict_get "destination_channel_ids" workflow = None →
     map_workflows_with_channels (wd1 ++ workflow :: wd2) channels_data
     = Raise (KeyError "destination_channel_ids")) ∧
  (dict_get "destination_channel_ids" workflow = Some PNone →
     map_workflows_with_channels (wd1 ++ workflow :: wd2) channels_data
     = Raise AttributeError).
Proof.
  intros Hwd1 Hcd.
  pose proof (map_workflows_with_channels_Ok _ _ Hwd1 Hcd) as H1.
  unfold map_workflows_with_channels in *.
  rewrite (channel_dict_of_Ok _ Hcd) in *.
  cbn [mbind result_bind] in *. rewrite for_each_app, H1.
  cbn [mbind result_bind for_each].
  unfold map_workflow, split_channel_ids, getitem.
  split; by intros ->.
Qed.

End StageDErrors.

(** A channel file with other columns. *)
Lemma stage_D_channel_row_without_id_witness :
  map_workflows_with_channels []
    [channel_data_row "ch1"; [("id", PStr "ch2"); ("name", PStr "ops")]]
  = Raise (KeyError "channel_id").
Proof.
  apply (stage_D_channel_row_without_id [] [channel_data_row "ch1"]
           [("id", PStr "ch2"); ("name", PStr "ops")] []).
  - repeat constructor; by eexists.
  - reflexivity.
Defined.

(** A full workflow row, then one read from a line with two cells. *)
Lemma stage_D_workflow_row_without_channel_ids_witness :
  map_workflows_with_channels
    [workflow_row "ch1";
     row_to_dict workflow_columns ["route"; "w2"]]
    [channel_data_row "ch1"]
  = Raise AttributeError.
Proof.
  apply (stage_D_workflow_row_without_channel_ids [workflow_row "ch1"]
           (row_to_dict workflow_columns ["route"; "w2"]) []
           [channel_data_row "ch1"]).
  - constructor; [| constructor].
    split; [repeat constructor; by eexists | done].
  - repeat constructor; by eexists.
  - reflexivity.
Defined.

(** ** Two policies with one id *)

Section StageALast.
Context (repr_str : string → string).

(** X19. Stage A keeps one policy per id, the last one fetched: a condition
    is joined with the last policy that has its policyId, so its row carries
    that policy's name. *)
Theorem stage_A_last_policy_of_id ps1 policy ps2 c :
  NrqlCondition.policyId c = Policy.id policy →
  Policy.id policy ∉ Policy.id <$> ps2 →
  map_policies_to_conditions repr_str (ps1 ++ policy :: ps2) [c]
  = [ {| JoinedPolicyCondition.alert_policy_name := Policy.name policy;
         JoinedPolicyCondition.alert_policy_id := Policy.id policy;
         JoinedPolicyCondition.nrql_condition_id := NrqlCondition.id c;
         JoinedPolicyCondition.alert_condition_name := NrqlCondition.name c;
         JoinedPolicyCondition.nrql_query := NrqlCondition.nrql_query c;
         JoinedPolicyCondition.nrql_condition :=
           py_join "; "
             (format_term repr_str <$> NrqlCondition.terms c) |} ].
Proof.
  intros Hid Hlast. unfold map_policies_to_conditions, policy_dict_of.
  simpl. rewrite Hid.
  by rewrite (index_last_wins Policy.id _ _ _ Hlast).
Qed.

End StageALast.

(** The policy "p1" fetched twice, renamed in between: the condition gets
    the second name. *)
Lemma stage_A_last_policy_of_id_witness :
  let renamed := {| Policy.id := "p1"; Policy.name := PStr "CPU Very High";
                    Policy.incidentPreference := PStr "PER_POLICY" |} in
  map_policies_to_conditions quote_repr [cpu_policy; renamed] [cpu_condition]
  = [ {| JoinedPolicyCondition.alert_policy_name := PStr "CPU Very High";
         JoinedPolicyCondition.alert_policy_id := "p1";
         JoinedPolicyCondition.nrql_condition_id := "c1";
         JoinedPolicyCondition.alert_condition_name := PStr "cpu";
         JoinedPolicyCondition.nrql_query :=
           PStr "SELECT average(cpuPercent) FROM SystemSample";
         JoinedPolicyCondition.nrql_condition :=
           "operator: ABOVE, priority: CRITICAL, threshold: 90, duration: 300, occurrences: ALL" |} ].
Proof.
  intros renamed.
  apply (stage_A_last_policy_of_id quote_repr [cpu_policy] renamed []
           cpu_condition); [done | apply not_elem_of_nil].
Defined.

(** ** Runs that do not reach the end *)

Section Unfinished.
Context (repr_str : string → string) (ACCOUNT_ID : Z) (server : Server).

(** X20. A fetch loop has no bound of its own: against a server whose pages
    always announce a next page it never returns.  However many iterations
    are followed, the loop is still running, and it has sent one request per
    iteration. *)
Theorem fetch_loop_has_no_bound {E : Type} query
    (extract : Body → result (list E * option string)) :
  always_more ACCOUNT_ID server query extract →
  ∀ fuel cursor acc w,
    let out := fetch_all_pages ACCOUNT_ID server query extract
                 fuel cursor acc w in
    out.1 = Timeout ∧ length (sent out.2) = (length (sent w) + fuel)%nat.
Proof.
  intros Hmore fuel. induction fuel as [|fuel IH]; intros cursor acc w out.
  - split; [done |]. simpl. lia.
  - unfold out. rewrite fetch_all_pages_step, fetch_data_run.
    destruct (Hmore (sent w) cursor)
      as (response & body & entities & c & s & Hs & Hok & Hj & He).
    unfold page_request in Hs.
    rewrite Hs, bool_decide_eq_false_2, Hj, He by done. simpl.
    destruct (IH (String c s) (acc ++ entities)
                {| sent := sent w ++ [{| query := query;
                                         variables :=
                                           {| accountId := ACCOUNT_ID;
                                              cursor := Some cursor |} |}];
                   files := files w |}) as [H1 H2].
    split; [done |]. rewrite H2. simpl. rewrite length_app. simpl. lia.
Qed.

(** X21. With no channel in the account, [main] ends in Part 2 with
    [IndexError]: the workflow table of Part 1 is there, the channel file is
    empty, and the final table is never written. *)
Theorem main_without_channels log files
    policy_pages condition_pages workflow_pages channel_pages destinations
    fuel :
  let workflow_rows :=
    process_workflows (concat workflow_pages.*1)
      (map_policies_to_conditions repr_str
         (concat policy_pages.*1) (concat condition_pages.*1)) in
  let log1 :=
    log ++ part_1_requests ACCOUNT_ID
             policy_pages condition_pages workflow_pages in
  serves_part_1 ACCOUNT_ID server log
    policy_pages condition_pages workflow_pages →
  serves_part_2 ACCOUNT_ID server log1 channel_pages destinations →
  Forall (λ n, (n ≤ fuel)%nat)
    [length policy_pages; length condition_pages; length workflow_pages;
     length channel_pages] →
  workflow_rows ≠ [] →
  concat channel_pages.*1 = [] →
  main repr_str ACCOUNT_ID server fuel {| sent := log; files := files |}
  = (Raise IndexError,
     {| sent := log1 ++ part_2_requests ACCOUNT_ID channel_pages;
        files :=
          <["channels_and_destinations.csv" := ""]>
            (<["workflows_with_alert_policies.csv" :=
                 table repr_str workflow_columns workflow_rows]> files) |}).
Proof.
  intros workflow_rows log1 H1 H2 Hfuel Hws Hchs.
  apply Forall_cons in Hfuel as [Hfp Hfuel].
  apply Forall_cons in Hfuel as [Hfc Hfuel].
  apply Forall_cons in Hfuel as [Hfw Hfuel].
  apply Forall_cons in Hfuel as [Hfch _].
  unfold main. unfold mbind at 1, IO_bind at 1.
  rewrite (part_1_run _ _ _ _ _ _ _ _ _ H1 Hfp Hfc Hfw).
  fold workflow_rows. fold log1.
  rewrite (write_to_csv_table repr_str workflow_columns);
    [| done | intros row; apply process_workflows_keys].
  unfold mbind at 1, IO_bind at 1.
  rewrite (part_2_run _ _ _ _ _ _ _ _ H2 Hfch). by rewrite Hchs.
Qed.

End Unfinished.

(** Three iterations against a server that always announces a next page. *)
Lemma fetch_loop_has_no_bound_witness :
  (fetch_policies 7 looping_server 3 initial_world).1 = Timeout ∧
  length (sent (fetch_policies 7 looping_server 3 initial_world).2) = 3%nat.
Proof.
  apply (fetch_loop_has_no_bound 7 looping_server policiesSearch_query
           policiesSearch).
  intros log cursor. eexists _, _, _, _, _.
  split; [reflexivity |]. split; [simpl; lia |]. split; reflexivity.
Defined.

(** An account with a workflow and no channel. *)
Lemma main_without_channels_witness :
  main quote_repr 7 no_channel_server 1 initial_world
  = (Raise IndexError,
     {| sent := [page_request 7 policiesSearch_query "";
                 page_request 7 nrqlConditionsSearch_query "";
                 page_request 7 workflows_query "";
                 page_request 7 channels_query "";
                 destinations_request 7];
        files :=
          <["channels_and_destinations.csv" := ""]>
            (<["workflows_with_alert_policies.csv" :=
                 table quote_repr workflow_columns
                   [policy_id_row (PStr "route") "w1" ["ch1"; "ch9"] cpu_row
                      "p1" policy_ids_predicate]]> ∅) |}).
Proof.
  apply (main_without_channels quote_repr 7 no_channel_server [] ∅
           [([cpu_policy], None)] [([cpu_condition], Some "")]
           [([sample_workflow [policy_ids_predicate]], None)]
           [([], None)] [mail_destination] 1).
  - split; [| split].
    + eapply serves_last;
        [reflexivity | simpl; lia | reflexivity | reflexivity | by left].
    + eapply serves_last;
        [reflexivity | simpl; lia | reflexivity | reflexivity | by right].
    + eapply serves_last;
        [reflexivity | simpl; lia | reflexivity | reflexivity | by left].
  - split.
    + eapply serves_last;
        [reflexivity | simpl; lia | reflexivity | reflexivity | by left].
    + eexists. split; [reflexivity |]. split; [simpl; lia | reflexivity].
  - repeat (constructor; [simpl; lia |]). constructor.
  - by vm_compute.
  - reflexivity.
Defined.
